(** * Pension-fund comparison dashboard: the metrics and eligibility engine

    A shallow embedding of [js/main.js]: the time-range resolver
    ([getYtdRange], [getPreviousYearRange], [getRange]), the return metrics
    ([geometricCumulativeGrowth], [annualisedYearlyReturn]), the formatters
    ([fmtSigned], [formatDate]), the table builder ([renderTables]) up to
    the row lists it hands to [renderTable], the lists and defaults that
    [loadData] sets, and the period buttons ([getSelectedPeriod],
    [updatePeriodButtons]).

    JavaScript Numbers are IEEE-754 binary64 values, modelled by Rocq's
    primitive [float]; [null] is [None] of an [option].  Dates are modelled
    by their time value (milliseconds since the epoch) as [Z]; an invalid
    Date is [None].  The host's local time zone is a parameter, the class
    [Calendar.Host]. *)

From Stdlib Require Import ZArith List String Ascii Bool Lia Floats.
From Stdlib Require Import DecimalString Permutation Sorted.
From Stdlib Require Uint63.
Import ListNotations.

Set Warnings "-inexact-float".

Local Open Scope Z_scope.

(** ** ECMAScript built-ins on Numbers *)

Module JS.

(** The Number nearest to an integer (round to nearest, ties to even).
    An integer of 63 bits or fewer converts at once; of a longer one the
    62 leading bits convert, the last of them set when a dropped bit was,
    which rounds the same way, and the result is scaled back. *)
Definition Z2float (z : Z) : float :=
  let a := Z.abs z in
  let f :=
    if a <? 2 ^ 63 then of_uint63 (Uint63.of_Z a)
    else
      let k := Z.log2 a - 61 in
      let q := a / 2 ^ k in
      let q := if a mod 2 ^ k =? 0 then q else 2 * (q / 2) + 1 in
      Z.ldexp (of_uint63 (Uint63.of_Z q)) k in
  if z <? 0 then (- f)%float else f.

Definition Number_isNaN (x : float) : bool := is_nan x.

(** [ToNumber] on a nullable Number: [null] becomes [+0]. *)
Definition ToNumber (v : option float) : float :=
  match v with
  | None => zero
  | Some x => x
  end.

(** [ToBoolean] on a Number: [NaN], [+0] and [-0] are falsy. *)
Definition truthy (x : float) : bool := negb (is_nan x || is_zero x).

(** [a || b] on Numbers. *)
Definition or_else (a b : float) : float := if truthy a then a else b.

Definition is_integral (x : float) : bool :=
  match Prim2SF x with
  | S754_zero _ => true
  | S754_finite _ m e => (0 <=? e) || (Zpos m mod 2 ^ (- e) =? 0)
  | _ => false
  end.

Definition is_odd_integral (x : float) : bool :=
  match Prim2SF x with
  | S754_finite _ m e =>
      if 0 <? e then false
      else (Zpos m mod 2 ^ (- e) =? 0) && Z.odd (Zpos m / 2 ^ (- e))
  | _ => false
  end.

(** The integer part of a finite Number (0 for the others). *)
Definition truncate (x : float) : Z :=
  match Prim2SF x with
  | S754_finite s m e =>
      let a := if 0 <=? e then Zpos m * 2 ^ e else Zpos m / 2 ^ (- e) in
      if s then - a else a
  | _ => 0
  end.

(** [Math.round]: the nearest integer, a tie going towards +Infinity;
    a result of zero keeps the sign of a negative argument. *)
Definition Math_round (x : float) : float :=
  match Prim2SF x with
  | S754_finite s m e =>
      if 0 <=? e then x
      else
        let d := 2 ^ (- e) in
        let n := if s then (d - 2 * Zpos m) / (2 * d)
                 else (2 * Zpos m + d) / (2 * d) in
        if s && (n =? 0) then neg_zero else Z2float n
  | _ => x
  end.

(** [Math.floor]: the greatest integer not above the argument; a positive
    argument below 1 gives [+0]. *)
Definition Math_floor (x : float) : float :=
  match Prim2SF x with
  | S754_finite s m e =>
      if 0 <=? e then x
      else Z2float ((if s then - Zpos m else Zpos m) / 2 ^ (- e))
  | _ => x
  end.

(** [Math.min] and [Math.max] over already coerced arguments. *)
Fixpoint Math_min_from (lowest : float) (l : list float) : float :=
  match l with
  | [] => lowest
  | x :: l' =>
      if is_nan x then nan
      else if is_zero x && get_sign x && is_zero lowest && negb (get_sign lowest)
           then Math_min_from neg_zero l'
           else Math_min_from (if (x <? lowest)%float then x else lowest) l'
  end.

Fixpoint Math_max_from (highest : float) (l : list float) : float :=
  match l with
  | [] => highest
  | x :: l' =>
      if is_nan x then nan
      else if is_zero x && negb (get_sign x) && is_zero highest && get_sign highest
           then Math_max_from zero l'
           else Math_max_from (if (highest <? x)%float then x else highest) l'
  end.

(** [Math.min.apply(null, l)] and [Math.max.apply(null, l)] on an array of
    nullable Numbers: every element goes through [ToNumber]. *)
Definition Math_min (l : list (option float)) : float :=
  Math_min_from infinity (map ToNumber l).

Definition Math_max (l : list (option float)) : float :=
  Math_max_from neg_infinity (map ToNumber l).

(** [Math.pow].  ECMAScript fixes the special cases below and leaves the
    remaining one to an approximation of the host's choosing, which is
    the parameter [pow_approx].  A power with a small positive integral
    exponent whose exact value is a Number is returned as that Number:
    an engine whose error stays under one unit in the last place cannot
    return anything else. *)
Definition pow_exact (base exponent : float) : option float :=
  match Prim2SF base, Prim2SF exponent with
  | S754_finite s m e, S754_finite false _ _ =>
      if is_integral exponent && (exponent <=? 64)%float then
        let n := truncate exponent in
        let mag := Zpos m ^ n in
        let sgn := if s && Z.odd n then - mag else mag in
        match binary_normalize prec emax sgn (e * n) false with
        | S754_finite sr mr er =>
            let lo := Z.min er (e * n) in
            if Zpos mr * 2 ^ (er - lo) =? mag * 2 ^ (e * n - lo)
            then Some (SF2Prim (S754_finite sr mr er))
            else None
        | _ => None
        end
      else None
  | _, _ => None
  end.

Section Pow.
Variable pow_approx : float -> float -> float.

Definition Math_pow (base exponent : float) : float :=
  if is_nan exponent then nan
  else if is_zero exponent then one
  else if is_nan base then nan
  else if is_infinity base then
    if get_sign base then
      if (0 <? exponent)%float
      then (if is_odd_integral exponent then neg_infinity else infinity)
      else (if is_odd_integral exponent then neg_zero else zero)
    else (if (0 <? exponent)%float then infinity else zero)
  else if is_zero base then
    if get_sign base then
      if (0 <? exponent)%float
      then (if is_odd_integral exponent then neg_zero else zero)
      else (if is_odd_integral exponent then neg_infinity else infinity)
    else (if (0 <? exponent)%float then zero else infinity)
  else if is_infinity exponent then
    if (abs base =? 1)%float then nan
    else if Bool.eqb (1 <? abs base)%float (get_sign exponent)
         then zero else infinity
  else if (base <? 0)%float && negb (is_integral exponent) then nan
  else match pow_exact base exponent with
       | Some r => r
       | None => pow_approx base exponent
       end.
End Pow.

(** *** Numbers to strings *)

Local Infix "+++" := String.append (at level 60, right associativity).

Definition dec (n : Z) : string :=
  NilZero.string_of_uint (N.to_uint (Z.to_N n)).

Fixpoint zeros (n : nat) : string :=
  match n with
  | O => EmptyString
  | S n' => String "0"%char (zeros n')
  end.

(** The shortest decimal [s * 10 ^ q] that reads back as the positive
    Number [m * 2 ^ e]; of several, the one nearest to it. *)
Definition shortest (m : positive) (e : Z) : Z * Z :=
  let E := e - 2 in
  let v4 := 4 * Zpos m in
  let lo4 := if (Zpos m =? 2 ^ 52) && (-1074 <? e) then v4 - 1 else v4 - 2 in
  let hi4 := v4 + 2 in
  let lhs s q := s * 10 ^ (Z.max q 0) * 2 ^ (Z.max (- E) 0) in
  let rhs B q := B * 2 ^ (Z.max E 0) * 10 ^ (Z.max (- q) 0) in
  let inside s q :=
    (1 <=? s) &&
    (if Z.even (Zpos m)
     then (rhs lo4 q <=? lhs s q) && (lhs s q <=? rhs hi4 q)
     else (rhs lo4 q <? lhs s q) && (lhs s q <? rhs hi4 q)) in
  let fix search (fuel : nat) (q : Z) : Z * Z :=
    match fuel with
    | O => (0, 0)
    | S fuel' =>
        let s0 := rhs v4 q / lhs 1 q in
        let s1 := s0 + 1 in
        let d0 := rhs v4 q - lhs s0 q in
        let d1 := lhs s1 q - rhs v4 q in
        match inside s0 q, inside s1 q with
        | true, true =>
            if d0 <? d1 then (s0, q)
            else if d1 <? d0 then (s1, q)
            else if Z.even s0 then (s0, q) else (s1, q)
        | true, false => (s0, q)
        | false, true => (s1, q)
        | false, false => search fuel' (q - 1)
        end
    end in
  search 48%nat ((Z.log2 (Zpos m) + 1 + e) * 30103 / 100000 + 2).

(** [Number::toString] (radix 10). *)
Definition Number_toString (x : float) : string :=
  match Prim2SF x with
  | S754_nan => "NaN"
  | S754_zero _ => "0"
  | S754_infinity s => if s then "-Infinity" else "Infinity"
  | S754_finite sg m e =>
      let '(s, q) := shortest m e in
      let ds := dec s in
      let k := Z.of_nat (String.length ds) in
      let n := k + q in
      let ex := (if n - 1 <? 0 then "-" else "+") +++ dec (Z.abs (n - 1)) in
      let body :=
        if (k <=? n) && (n <=? 21) then ds +++ zeros (Z.to_nat (n - k))
        else if (0 <? n) && (n <=? 21)
             then substring 0 (Z.to_nat n) ds +++ "." +++
                  substring (Z.to_nat n) (Z.to_nat (k - n)) ds
        else if (-6 <? n) && (n <=? 0)
             then "0." +++ zeros (Z.to_nat (- n)) +++ ds
        else if k =? 1 then ds +++ "e" +++ ex
        else substring 0 1 ds +++ "." +++
             substring 1 (Z.to_nat (k - 1)) ds +++ "e" +++ ex in
      (if sg then "-" else "") +++ body
  end.

(** [Number.prototype.toFixed] with [f] fraction digits ([f <= 100]). *)
Definition fixed_digits (n : Z) (f : nat) : string :=
  let ds := dec n in
  if (f =? 0)%nat then ds
  else
    let ds := zeros (S f - String.length ds) +++ ds in
    let k := String.length ds in
    substring 0 (k - f) ds +++ "." +++ substring (k - f) f ds.

Definition toFixed (x : float) (f : nat) : string :=
  match Prim2SF x with
  | S754_zero _ => fixed_digits 0 f
  | S754_finite s m e =>
      if (1e21 <=? abs x)%float then Number_toString x
      else
        let n := if 0 <=? e then Zpos m * 2 ^ e * 10 ^ Z.of_nat f
                 else (2 * Zpos m * 10 ^ Z.of_nat f + 2 ^ (- e)) / 2 ^ (1 - e) in
        (if s then "-" else "") +++ fixed_digits n f
  | _ => Number_toString x
  end.

End JS.

(** ** Return metrics

    [geometricCumulativeGrowth] and [annualisedYearlyReturn] use nothing of
    a Number but its arithmetic, so they are written once over an
    interface [Arith] and read at [ieee_arith], the binary64 arithmetic the
    script runs on. *)

Record Arith (num : Type) : Type := {
  a_nan : num;
  a_isNaN : num -> bool;
  a_lit : Z -> num;
  a_add : num -> num -> num;
  a_sub : num -> num -> num;
  a_mul : num -> num -> num;
  a_div : num -> num -> num;
  a_leb : num -> num -> bool;
  a_pow : num -> num -> num
}.

Arguments a_nan {num}.
Arguments a_isNaN {num}.
Arguments a_lit {num}.
Arguments a_add {num}.
Arguments a_sub {num}.
Arguments a_mul {num}.
Arguments a_div {num}.
Arguments a_leb {num}.
Arguments a_pow {num}.

Section Metrics.
Context {num : Type} (A : Arith num).

(** A nullable Number used as an operand: [null] is [0]. *)
Definition operand (v : option num) : num :=
  match v with
  | None => a_lit A 0
  | Some x => x
  end.

(** [v => v != null && !Number.isNaN(v)] *)
Definition is_clean (v : option num) : bool :=
  match v with
  | None => false
  | Some x => negb (a_isNaN A x)
  end.

Definition geometricCumulativeGrowth (series : list (option num)) : num :=
  let clean := filter is_clean series in
  match clean with
  | [] => a_nan A
  | _ =>
      let results := map (fun v => a_div A (operand v) (a_lit A 100)) clean in
      let prod :=
        fold_left (fun acc x => a_mul A acc (a_add A (a_lit A 1) x))
                  results (a_lit A 1) in
      a_mul A (a_sub A prod (a_lit A 1)) (a_lit A 100)
  end.

Definition annualisedYearlyReturn (series : list (option num)) : num :=
  let clean := filter is_clean series in
  let quarters := List.length clean in
  match quarters with
  | O => a_nan A
  | _ =>
      let years := a_div A (a_lit A (Z.of_nat quarters)) (a_lit A 4) in
      if a_leb A years (a_lit A 0) then a_nan A
      else
        let totalGrowthPct := geometricCumulativeGrowth clean in
        let totalGrowth := a_div A totalGrowthPct (a_lit A 100) in
        let annualised :=
          a_sub A (a_pow A (a_add A (a_lit A 1) totalGrowth)
                           (a_div A (a_lit A 1) years))
                  (a_lit A 1) in
        a_mul A annualised (a_lit A 100)
  end.
End Metrics.

(** The arithmetic of the script: binary64, [Math.pow] with the host's
    approximation [pow_approx]. *)
Definition ieee_arith (pow_approx : float -> float -> float) : Arith float :=
  {| a_nan := nan;
     a_isNaN := JS.Number_isNaN;
     a_lit := JS.Z2float;
     a_add := PrimFloat.add;
     a_sub := PrimFloat.sub;
     a_mul := PrimFloat.mul;
     a_div := PrimFloat.div;
     a_leb := PrimFloat.leb;
     a_pow := JS.Math_pow pow_approx |}.

(** ** Formatting *)

Section Formatter.
Variable pow_approx : float -> float -> float.

(** [fmtSigned(val, decimals, msgIfNaN)]; every call of the script passes
    the three arguments. *)
Definition fmtSigned (val : option float) (decimals : nat)
                     (msgIfNaN : string) : string :=
  match val with
  | None => msgIfNaN
  | Some v =>
      if JS.Number_isNaN v then msgIfNaN
      else
        let factor :=
          JS.Math_pow pow_approx 10 (JS.Z2float (Z.of_nat decimals)) in
        let rounded := (JS.Math_round (v * factor) / factor)%float in
        let sign := if (0 <? rounded)%float then "+"%string else ""%string in
        (sign ++ JS.toFixed rounded decimals)%string
  end.
End Formatter.

(** ** Dates

    A Date object is its time value, [None] for the invalid date.  The
    calendar functions are ECMAScript's; the getters and setters of a Date
    work in the local time of the host. *)

Module Calendar.

Definition Date : Type := option Z.

Definition msPerDay : Z := 86400000.

Definition TimeClip (t : Z) : Date :=
  if Z.abs t <=? 8640000000000000 then Some t else None.

Definition Day (t : Z) : Z := t / msPerDay.
Definition TimeWithinDay (t : Z) : Z := t mod msPerDay.

Definition DayFromYear (y : Z) : Z :=
  365 * (y - 1970) + (y - 1969) / 4 - (y - 1901) / 100 + (y - 1601) / 400.

Definition InLeapYear (y : Z) : bool :=
  ((y mod 4 =? 0) && negb (y mod 100 =? 0)) || (y mod 400 =? 0).

(** The largest year whose first day is not after day [d]. *)
Definition YearFromDay (d : Z) : Z :=
  let y := 1970 + d * 10000 / 3652425 in
  if d <? DayFromYear y then y - 1
  else if DayFromYear (y + 1) <=? d then y + 1
  else y.

Definition YearFromTime (t : Z) : Z := YearFromDay (Day t).

(** Day of the year on which month [m] (0 to 11) starts. *)
Definition MonthStart (leap : bool) (m : Z) : Z :=
  let l := if leap then 1 else 0 in
  match m with
  | 0 => 0
  | 1 => 31
  | 2 => 59 + l
  | 3 => 90 + l
  | 4 => 120 + l
  | 5 => 151 + l
  | 6 => 181 + l
  | 7 => 212 + l
  | 8 => 243 + l
  | 9 => 273 + l
  | 10 => 304 + l
  | _ => 334 + l
  end.

Definition DayWithinYear (t : Z) : Z := Day t - DayFromYear (YearFromTime t).

Definition MonthFromTime (t : Z) : Z :=
  let leap := InLeapYear (YearFromTime t) in
  let d := DayWithinYear t in
  let fix find (fuel : nat) (m : Z) : Z :=
    match fuel with
    | O => m
    | S fuel' => if d <? MonthStart leap (m + 1) then m else find fuel' (m + 1)
    end in
  find 11%nat 0.

Definition DateFromTime (t : Z) : Z :=
  DayWithinYear t
  - MonthStart (InLeapYear (YearFromTime t)) (MonthFromTime t) + 1.

Definition MakeDay (year month date : Z) : Z :=
  let ym := year + month / 12 in
  let mn := month mod 12 in
  DayFromYear ym + MonthStart (InLeapYear ym) mn + date - 1.

Definition MakeDate (day time : Z) : Z := day * msPerDay + time.

(** The host's time zone: [LocalTZA t isUTC] is the offset of local time
    from UTC, in milliseconds, in force at the UTC time [t] ([isUTC] true)
    or at the local time [t] ([isUTC] false).  ECMAScript leaves it to the
    host. *)
Class Host : Type := { LocalTZA : Z -> bool -> Z }.

Section LocalCalendar.
Context {host : Host}.

Definition LocalTime (t : Z) : Z := t + LocalTZA t true.
Definition UTC (t : Z) : Z := t - LocalTZA t false.

Definition getFullYear (d : Date) : option Z :=
  option_map (fun t => YearFromTime (LocalTime t)) d.
Definition getMonth (d : Date) : option Z :=
  option_map (fun t => MonthFromTime (LocalTime t)) d.
Definition getDate (d : Date) : option Z :=
  option_map (fun t => DateFromTime (LocalTime t)) d.

(** [d.setMonth(month)]: what the Date [d] becomes. *)
Definition setMonth (d : Date) (month : Z) : Date :=
  match d with
  | None => None
  | Some tv =>
      let t := LocalTime tv in
      let newDate :=
        MakeDate (MakeDay (YearFromTime t) month (DateFromTime t))
                 (TimeWithinDay t) in
      TimeClip (UTC newDate)
  end.

(** [new Date(year, 0, 1)]; a year from 0 to 99 counts from 1900. *)
Definition newDate_Jan1 (year : option Z) : Date :=
  match year with
  | None => None
  | Some y =>
      let yr := if (0 <=? y) && (y <=? 99) then 1900 + y else y in
      TimeClip (UTC (MakeDate (MakeDay yr 0 1) 0))
  end.
End LocalCalendar.

(** Two hosts: one on UTC, one at a fixed offset from it. *)
Definition UTC_zone : Host := {| LocalTZA := fun _ _ => 0 |}.
Definition fixed_zone (offset : Z) : Host :=
  {| LocalTZA := fun _ _ => offset |}.

(** [new Date(Math.max.apply(null, dates))] and its [Math.min] twin on
    the dates of rows; of no date, the invalid date. *)
Definition latest (dates : list Z) : Date :=
  match dates with
  | [] => None
  | t :: ts => Some (fold_left Z.max ts t)
  end.

Definition earliest (dates : list Z) : Date :=
  match dates with
  | [] => None
  | t :: ts => Some (fold_left Z.min ts t)
  end.

(** [b - a] on Dates, a Number of milliseconds. *)
Definition elapsed (b a : Date) : float :=
  match b, a with
  | Some tb, Some ta => JS.Z2float (tb - ta)
  | _, _ => nan
  end.

End Calendar.

(** ** Formatting a date *)

(** What a getter of a Date returns: a Number, [NaN] of the invalid
    date. *)
Definition getter (v : option Z) : float :=
  match v with
  | Some z => JS.Z2float z
  | None => nan
  end.

Fixpoint repeat_string (n : nat) (fill : string) : string :=
  match n with
  | O => EmptyString
  | S n' => (fill ++ repeat_string n' fill)%string
  end.

(** [String.prototype.padStart(targetLength, padString)] *)
Definition padStart (s : string) (targetLength : nat) (padString : string)
  : string :=
  let len := String.length s in
  if (targetLength <=? len)%nat then s
  else
    match padString with
    | EmptyString => s
    | _ =>
        let fillLen := (targetLength - len)%nat in
        (substring 0 fillLen (repeat_string fillLen padString) ++ s)%string
    end.

(** [formatDate(d)]: [null] is [None], a Date object [Some]. *)
Definition formatDate {host : Calendar.Host} (d : option Calendar.Date)
  : string :=
  match d with
  | None => EmptyString
  | Some date =>
      let y := getter (Calendar.getFullYear date) in
      let m :=
        padStart (JS.Number_toString (getter (Calendar.getMonth date) + 1)%float)
                 2 "0" in
      let day :=
        padStart (JS.Number_toString (getter (Calendar.getDate date))) 2 "0" in
      (JS.Number_toString y ++ "-" ++ m ++ "-" ++ day)%string
  end.

(** ** Data model *)

(** One parsed record of [data/combined_results.json] ([parseData]):
    [report_date] is the time value of a valid Date, the three measures are
    Numbers or [null]. *)
Record Observation : Type := {
  report_date : Z;
  fund_type : string;
  company_short : string;
  relative_change : option float;
  number_of_participants : option float;
  bik_pct : option float
}.

(** An end of a range: [None] is [null], [Some d] a Date object. *)
Definition Range : Type := (option Calendar.Date * option Calendar.Date)%type.

(** [Array.prototype.sort(comparefn)].  ECMAScript asks for a stable sort
    and reads a comparison that is not a positive Number (a [NaN] too) as
    "keep this order"; the order of the steps is the engine's, here that of
    an insertion sort: each element moves left past the elements that
    compare greater than it. *)
Section ArraySort.
Context {T : Type} (comparefn : T -> T -> float).

(** [before] is the sorted prefix, last element first. *)
Fixpoint insert_back (x : T) (before : list T) : list T :=
  match before with
  | [] => [x]
  | y :: rest =>
      if (0 <? comparefn y x)%float then y :: insert_back x rest
      else x :: before
  end.

Definition Array_sort (l : list T) : list T :=
  rev (fold_left (fun before x => insert_back x before) l []).
End ArraySort.

(** The default comparison of [sort()] on strings, by code units. *)
Definition compare_strings (a b : string) : float :=
  match String.compare a b with
  | Lt => (-1)%float
  | Eq => zero
  | Gt => one
  end.

(** [Array.from(new Set(l))]: first occurrences, in order. *)
Fixpoint unique (seen l : list string) : list string :=
  match l with
  | [] => []
  | x :: l' =>
      if existsb (String.eqb x) seen then unique seen l'
      else x :: unique (x :: seen) l'
  end.

(** ** Time-range resolver *)

Section Resolver.
Import Calendar.
Context {host : Host}.

(** The global [rawData]. *)
Variable rawData : list Observation.

Definition getYtdRange (data : list Observation) : Range :=
  let dates := map report_date data in
  let end_ := latest dates in
  let start := newDate_Jan1 (getFullYear end_) in
  (Some start, Some end_).

(** [r.report_date > base] *)
Definition is_after (base : Date) (r : Observation) : bool :=
  match base with
  | Some b => b <? report_date r
  | None => false
  end.

(** [months] is an integer here: the one caller passes [years * 12]. *)
Definition getPreviousYearRange (data : list Observation) (months : Z)
  : Range :=
  let dates := map report_date data in
  let end_ := latest dates in
  let base :=
    match getMonth end_ with
    | Some m => setMonth end_ (m - (months - 1))
    | None => None
    end in
  let candidates := map report_date (filter (is_after base) data) in
  match candidates with
  | [] => (None, None)
  | _ => (Some (earliest candidates), Some end_)
  end.

(** [/^\d+$/.test(period)] and [parseInt(period, 10)] in one: the value
    of a string of decimal digits. *)
Definition is_digit (c : ascii) : bool :=
  (48 <=? nat_of_ascii c)%nat && (nat_of_ascii c <=? 57)%nat.

Fixpoint digits_value (acc : Z) (s : string) : option Z :=
  match s with
  | EmptyString => Some acc
  | String c s' =>
      if is_digit c
      then digits_value (10 * acc + Z.of_nat (nat_of_ascii c - 48)) s'
      else None
  end.

Definition parse_years (period : string) : option Z :=
  match period with
  | EmptyString => None
  | _ => digits_value 0 period
  end.

Definition getRange (data : list Observation) (period : string) : Range :=
  match data with
  | [] => (None, None)
  | _ =>
      if String.eqb period "YTD" then getYtdRange data
      else if String.eqb period "ALL" then
        let allDates := map report_date rawData in
        (Some (earliest allDates), Some (latest allDates))
      else
        match parse_years period with
        | Some years => getPreviousYearRange data (years * 12)
        | None => (None, None)
        end
  end.
End Resolver.

(** ** Tables: coverage, eligibility, metrics and ranking *)

(** A row as [renderTable] receives it: the manager and the text of the
    other columns, in the order of the table. *)
Record TableRow : Type := {
  row_company : string;
  row_cells : list string
}.

(** A row of a [...Numeric] list, with its [_sort] key still on. *)
Record SortRow : Type := {
  shown : TableRow;
  _sort : float
}.

Definition descending (a b : SortRow) : float := (_sort b - _sort a)%float.
Definition ascending (a b : SortRow) : float := (_sort a - _sort b)%float.

(** [v == null || Number.isNaN(v)] *)
Definition is_missing (v : option float) : bool :=
  match v with
  | None => true
  | Some x => JS.Number_isNaN x
  end.

Section Tables.
Import Calendar.
Context {host : Host}.

Variable pow_approx : float -> float -> float.
Variable rawData : list Observation.
Variables msgFundNotExist msgNoData : string.
(** The selected fund type and period, both non-empty strings here. *)
Variables ft period : string.

Definition fundData : list Observation :=
  filter (fun r => String.eqb (fund_type r) ft) rawData.

Definition companies : list string :=
  Array_sort compare_strings (unique [] (map company_short fundData)).

Definition of_company (c : string) (r : Observation) : bool :=
  String.eqb (company_short r) c.

(** The body of the first [companies.forEach]: the value stored under
    [coverageYears[c]]. *)
Definition coverage (c : string) : float :=
  let rows := filter (of_company c) fundData in
  let dates := map report_date rows in
  let min := earliest dates in
  let max := latest dates in
  let days := (elapsed max min / (1000 * 60 * 60 * 24))%float in
  (days / 365.25)%float.

Definition coverageYears : list (string * float) :=
  map (fun c => (c, coverage c)) companies.

Fixpoint lookup (c : string) (m : list (string * float)) : option float :=
  match m with
  | [] => None
  | (k, v) :: m' => if String.eqb k c then Some v else lookup c m'
  end.

Definition baseData : list Observation :=
  if String.eqb period "ALL" then rawData else fundData.

Definition range : Range := getRange rawData baseData period.

(** [r.report_date >= start] and [r.report_date <= end]: [null] compares
    as 0, the invalid date as [NaN]. *)
Definition not_before (start : option Date) (r : Observation) : bool :=
  match start with
  | None => 0 <=? report_date r
  | Some None => false
  | Some (Some s) => s <=? report_date r
  end.

Definition not_after (end_ : option Date) (r : Observation) : bool :=
  match end_ with
  | None => report_date r <=? 0
  | Some None => false
  | Some (Some e) => report_date r <=? e
  end.

Definition rangeData : list Observation :=
  filter (fun r => not_before (fst range) r && not_after (snd range) r)
         fundData.

Definition requestedYears : option float :=
  let requested := option_map JS.Z2float (parse_years period) in
  match fst range, snd range with
  | Some start, Some end_ =>
      if String.eqb period "ALL" then
        let fullDays := (elapsed end_ start / (1000 * 60 * 60 * 24))%float in
        Some (fullDays / 365.25)%float
      else requested
  | _, _ => requested
  end.

Definition grpRange (c : string) : list Observation :=
  filter (of_company c) rangeData.

(** [coverageYears[c] || 0.0] *)
Definition covYears (c : string) : float :=
  match lookup c coverageYears with
  | Some y => JS.or_else y zero
  | None => zero
  end.

Definition hasEnoughHistory (c : string) : bool :=
  match requestedYears with
  | None => true
  | Some years => (years <=? covYears c + 1e-6)%float
  end.

(** [!grpRange.length || !hasEnoughHistory]: the manager gets the
    placeholder rows. *)
Definition no_data (c : string) : bool :=
  match grpRange c with
  | [] => true
  | _ => negb (hasEnoughHistory c)
  end.

Definition sorted (c : string) : list Observation :=
  Array_sort
    (fun a b => JS.Z2float (report_date a - report_date b))
    (grpRange c).

Definition relChanges (c : string) : list (option float) :=
  map relative_change (sorted c).

Definition growthVal (c : string) : float :=
  geometricCumulativeGrowth (ieee_arith pow_approx) (relChanges c).

Definition avgVal (c : string) : float :=
  annualisedYearlyReturn (ieee_arith pow_approx) (relChanges c).

Definition worstVal (c : string) : float := JS.Math_min (relChanges c).
Definition bestVal (c : string) : float := JS.Math_max (relChanges c).

(** [sorted[0]] and [sorted[sorted.length - 1]] are read only when
    [grpRange], hence [sorted], has a row. *)
Definition firstPart (c : string) : option float :=
  match sorted c with
  | [] => None
  | r :: _ => number_of_participants r
  end.

Definition lastPart (c : string) : option float :=
  match rev (sorted c) with
  | [] => None
  | r :: _ => number_of_participants r
  end.

Definition lastBik (c : string) : option float :=
  match rev (sorted c) with
  | [] => None
  | r :: _ => bik_pct r
  end.

(** [(partLatestStr, partChangeStr, sortPart)] *)
Definition participants (first last : option float)
  : string * string * float :=
  if is_missing first || is_missing last
  then (msgFundNotExist, msgFundNotExist, neg_infinity)
  else
    let latest := JS.Math_round (JS.ToNumber last) in
    let diff := JS.Math_round (JS.ToNumber last - JS.ToNumber first)%float in
    (JS.Number_toString latest,
     if (0 <=? diff)%float then ("+" ++ JS.Number_toString diff)%string
     else JS.Number_toString diff,
     latest).

(** [(bikStr, sortBik)] *)
Definition expense (last : option float) : string * float :=
  if is_missing last then (msgNoData, infinity)
  else (JS.toFixed (JS.ToNumber last) 3, JS.ToNumber last).

Definition signed (v : float) : string :=
  fmtSigned pow_approx (Some v) 2 msgFundNotExist.

Definition placeholder (cells : list string) (c : string) : TableRow :=
  {| row_company := c; row_cells := cells |}.

Definition numeric (cells : string -> list string) (key : string -> float)
                   (c : string) : SortRow :=
  {| shown := {| row_company := c; row_cells := cells c |};
     _sort := key c |}.

(** The second [companies.forEach] pushes, for each manager in turn, one
    row on the [...NoData] lists or one on the [...Numeric] lists. *)
Definition left_out : list string := filter no_data companies.
Definition kept : list string := filter (fun c => negb (no_data c)) companies.

Definition growthNumeric : list SortRow :=
  map (numeric (fun c => [signed (growthVal c)]) growthVal) kept.
Definition growthNoData : list TableRow :=
  map (placeholder [msgFundNotExist]) left_out.

Definition avgNumeric : list SortRow :=
  map (numeric (fun c => [signed (avgVal c)]) avgVal) kept.
Definition avgNoData : list TableRow :=
  map (placeholder [msgFundNotExist]) left_out.

Definition extremesNumeric : list SortRow :=
  map (numeric (fun c => [signed (worstVal c); signed (bestVal c)]) worstVal)
      kept.
Definition extremesNoData : list TableRow :=
  map (placeholder [msgFundNotExist; msgFundNotExist]) left_out.

Definition participantsNumeric : list SortRow :=
  map (numeric
         (fun c => let '(l, d, _) := participants (firstPart c) (lastPart c)
                   in [l; d])
         (fun c => snd (participants (firstPart c) (lastPart c))))
      kept.
Definition participantsNoData : list TableRow :=
  map (placeholder [msgFundNotExist; msgFundNotExist]) left_out.

Definition bikNumeric : list SortRow :=
  map (numeric (fun c => [fst (expense (lastBik c))])
               (fun c => snd (expense (lastBik c))))
      kept.
Definition bikNoData : list TableRow :=
  map (placeholder [msgFundNotExist]) left_out.

(** Sorting, [delete r._sort], and [concat]. *)
Definition growthRows : list TableRow :=
  map shown (Array_sort descending growthNumeric) ++ growthNoData.
Definition avgRows : list TableRow :=
  map shown (Array_sort descending avgNumeric) ++ avgNoData.
Definition extremesRows : list TableRow :=
  map shown (Array_sort ascending extremesNumeric) ++ extremesNoData.
Definition participantsRows : list TableRow :=
  map shown (Array_sort descending participantsNumeric) ++ participantsNoData.
Definition bikRows : list TableRow :=
  map shown (Array_sort ascending bikNumeric) ++ bikNoData.
End Tables.

(** What a call of [renderTables] does to the five table bodies. *)
Inductive Rendering : Type :=
| Cleared
| Untouched
| Rendered (growth avg extremes participants bik : list TableRow).

(** [renderTables()], the selection read from its arguments: the selected
    fund type ([null] is [None]) and the checked period. *)
Definition renderTables {host : Calendar.Host}
    (pow_approx : float -> float -> float)
    (rawData : list Observation) (msgFundNotExist msgNoData : string)
    (selectedFundType : option string) (period : string) : Rendering :=
  match selectedFundType, period with
  | None, _ | Some EmptyString, _ | _, EmptyString => Cleared
  | Some ft, _ =>
      match fundData rawData ft with
      | [] => Untouched
      | _ =>
          Rendered
            (growthRows pow_approx rawData msgFundNotExist ft period)
            (avgRows pow_approx rawData msgFundNotExist ft period)
            (extremesRows pow_approx rawData msgFundNotExist ft period)
            (participantsRows rawData msgFundNotExist ft period)
            (bikRows rawData msgFundNotExist msgNoData ft period)
      end
  end.

(** ** Loading

    What the callback of [loadData] leaves in the globals [fundTypes],
    [allManagers], [selectedFundType] and [selectedManager], from the
    parsed rows it stores in [rawData]. *)

Record Selection : Type := {
  fundTypes : list string;
  allManagers : list string;
  selectedFundType : option string;
  selectedManager : option string
}.

(** [ToBoolean] on a string: the empty string is falsy. *)
Definition is_set (s : string) : bool := negb (String.eqb s "").

Definition loadData (rawData : list Observation) : Selection :=
  let ftSet := unique [] (filter is_set (map fund_type rawData)) in
  let mgrSet := unique [] (filter is_set (map company_short rawData)) in
  let fundTypes := Array_sort compare_strings ftSet in
  let allManagers := Array_sort compare_strings mgrSet in
  {| fundTypes := fundTypes;
     allManagers := allManagers;
     selectedFundType := hd_error fundTypes;
     selectedManager := hd_error allManagers |}.

(** ** The period buttons

    What [getSelectedPeriod] reads and [updatePeriodButtons] writes of the
    page: of each radio named [period] its value and its [checked] and
    [disabled] flags, of each label of a period button whether its class
    list holds [disabled] and [active].  The radios are one group:
    checking one unchecks the others. *)

Record Radio : Type := {
  value : string;
  checked : bool;
  disabled : bool
}.

Record ButtonLabel : Type := {
  has_disabled : bool;
  has_active : bool
}.

Record Page : Type := {
  periodRadios : list Radio;
  periodLabels : list ButtonLabel
}.

Definition getSelectedPeriod (radios : list Radio) : string :=
  match find checked radios with
  | Some r => value r
  | None => "YTD"
  end.

(** [radios.forEach((radio, idx) => ... periodLabels[idx] ...)]: the
    callback [f] on each radio and the label of its index.  With no label
    at an index, [label.classList] throws a [TypeError], here [None]. *)
Fixpoint forEach_with_label (f : Radio -> ButtonLabel -> Radio * ButtonLabel)
    (radios : list Radio) (labels : list ButtonLabel)
  : option (list Radio * list ButtonLabel) :=
  match radios with
  | [] => Some ([], labels)
  | r :: rs =>
      match labels with
      | [] => None
      | l :: ls =>
          match forEach_with_label f rs ls with
          | Some (rs', ls') => Some (fst (f r l) :: rs', snd (f r l) :: ls')
          | None => None
          end
      end
  end.

(** [radios[i].checked = b], in a group. *)
Fixpoint set_checked (i : nat) (b : bool) (radios : list Radio) : list Radio :=
  let uncheck r :=
    {| value := value r; checked := false; disabled := disabled r |} in
  match radios with
  | [] => []
  | r :: rs =>
      match i with
      | O =>
          {| value := value r; checked := b; disabled := disabled r |}
          :: (if b then map uncheck rs else rs)
      | S i' => (if b then uncheck r else r) :: set_checked i' b rs
      end
  end.

Section PeriodButtons.
Import Calendar.

Variable rawData : list Observation.
Variables selectedFundType selectedManager : option string.

(** The rows the span is taken over: the selected manager's rows of the
    fund type, or with no manager or none of its rows, the fund type's. *)
Definition managerData (ft : string) : list Observation :=
  let fundData := fundData rawData ft in
  let managerData :=
    match selectedManager with
    | Some mgr =>
        if is_set mgr then Some (filter (of_company mgr) fundData) else None
    | None => None
    end in
  match managerData with
  | Some (r :: rows) => r :: rows
  | _ => fundData
  end.

Definition spanYears (ft : string) : float :=
  let dates := map report_date (managerData ft) in
  let min := earliest dates in
  let max := latest dates in
  (elapsed max min / (1000 * 60 * 60 * 24 * 365.25))%float.

Definition maxButtonYears (ft : string) : float :=
  let maxWholeYears := JS.Math_floor (spanYears ft) in
  JS.Math_min_from infinity [maxWholeYears; 5%float].

(** Whether the first [forEach] leaves the radio of value [val] enabled. *)
Definition enabled (limit : float) (val : string) : bool :=
  match parse_years val with
  | Some years => (JS.Z2float years <=? limit)%float
  | None => true
  end.

(** The members of the set [validPeriods] after the first [forEach]. *)
Definition validPeriods (limit : float) (radios : list Radio) : list string :=
  "YTD"%string :: "ALL"%string
  :: filter (fun val =>
               match parse_years val with
               | Some _ => enabled limit val
               | None => false
               end)
            (map value radios).

(** The body of the first [forEach]: the radio and its label are
    disabled when the value is a number above [limit], enabled otherwise. *)
Definition able (limit : float) (radio : Radio) (label : ButtonLabel)
  : Radio * ButtonLabel :=
  let off := negb (enabled limit (value radio)) in
  ({| value := value radio; checked := checked radio; disabled := off |},
   {| has_disabled := off; has_active := has_active label |}).

(** The body of the second [forEach], on the labels and on the radios. *)
Definition activate (currentPeriod : string) (radio : Radio)
    (label : ButtonLabel) : Radio * ButtonLabel :=
  (radio,
   {| has_disabled := has_disabled label;
      has_active := String.eqb (value radio) currentPeriod |}).

Definition check (currentPeriod : string) (radios : list Radio) (i : nat)
  : list Radio :=
  set_checked i
    (match nth_error radios i with
     | Some r => String.eqb (value r) currentPeriod
     | None => false
     end) radios.

Definition updatePeriodButtons (page : Page) : option Page :=
  match selectedFundType, rawData with
  | None, _ | Some EmptyString, _ | _, [] => Some page
  | Some ft, _ =>
      match fundData rawData ft with
      | [] => Some page
      | _ =>
          let limit := maxButtonYears ft in
          let currentPeriod := getSelectedPeriod (periodRadios page) in
          match forEach_with_label (able limit) (periodRadios page)
                  (periodLabels page) with
          | None => None
          | Some (radios, labels) =>
              if existsb (String.eqb currentPeriod)
                   (validPeriods limit (periodRadios page))
              then Some {| periodRadios := radios; periodLabels := labels |}
              else
                let currentPeriod := "YTD"%string in
                match forEach_with_label (activate currentPeriod)
                        radios labels with
                | None => None
                | Some (_, labels') =>
                    Some {| periodRadios :=
                              fold_left (check currentPeriod)
                                (seq 0 (List.length radios)) radios;
                            periodLabels := labels' |}
                end
          end
      end
  end.
End PeriodButtons.

(** ** Vocabulary of the properties *)

Section Compounding.
Context {num : Type} (A : Arith num).

(** The values of a series that are neither [null] nor [NaN], in order. *)
Fixpoint values (series : list (option num)) : list num :=
  match series with
  | [] => []
  | None :: s => values s
  | Some x :: s => if a_isNaN A x then values s else x :: values s
  end.

(** The growth factor [1 + v/100] of a quarterly change [v]. *)
Definition growth_factor (v : num) : num :=
  a_add A (a_lit A 1) (a_div A v (a_lit A 100)).

(** The product of a list of factors, taken from left to right. *)
Definition product (fs : list num) : num :=
  fold_left (a_mul A) fs (a_lit A 1).

End Compounding.




(** A binary64 value of sign [sx] that is not zero: an infinity, or a
    finite value whose exponent is [L] at least. *)
Definition nonzero_from (L : Z) (sx : bool) (r : spec_float) : Prop :=
  r = S754_infinity sx \/ exists m e, r = S754_finite sx m e /\ L <= e.

(** Position of a value other than NaN in the order of binary64: its class,
    then exponent and mantissa, which order canonical values of one sign. *)
Definition position (s : spec_float) : Z * Z * Z :=
  match s with
  | S754_nan => (0, 0, 0)
  | S754_zero _ => (0, 0, 0)
  | S754_infinity true => (-2, 0, 0)
  | S754_infinity false => (2, 0, 0)
  | S754_finite true m e => (-1, - e, - Zpos m)
  | S754_finite false m e => (1, e, Zpos m)
  end.

Definition lex_lt (p q : Z * Z * Z) : Prop :=
  let '(c1, e1, m1) := p in
  let '(c2, e2, m2) := q in
  c1 < c2 \/ (c1 = c2 /\ (e1 < e2 \/ (e1 = e2 /\ m1 < m2))).

Definition lex_le (p q : Z * Z * Z) : Prop :=
  let '(c1, e1, m1) := p in
  let '(c2, e2, m2) := q in
  c1 < c2 \/ (c1 = c2 /\ (e1 < e2 \/ (e1 = e2 /\ m1 <= m2))).

Definition is_min_of (x : Z) (l : list Z) : Prop :=
  In x l /\ forall y, In y l -> x <= y.

Definition is_max_of (x : Z) (l : list Z) : Prop :=
  In x l /\ forall y, In y l -> y <= x.

(** The dates of all the observations a manager has under a fund type. *)
Definition history (rawData : list Observation) (ft c : string) : list Z :=
  map report_date (filter (of_company c) (fundData rawData ft)).

(** A span of [ms] milliseconds in years of 365.25 days. *)
Definition years_spanned (ms : Z) : float :=
  (JS.Z2float ms / (1000 * 60 * 60 * 24) / 365.25)%float.

(** The time value [t] is strictly after the Date [cutoff]. *)
Definition strictly_after (cutoff : Calendar.Date) (t : Z) : bool :=
  match cutoff with
  | Some b => b <? t
  | None => false
  end.

(** The string [a] is [b] or sorts before it, by code units. *)
Definition string_le (a b : string) : Prop := String.compare a b <> Gt.

(** The days of month [m] (0 to 11) and of a year. *)
Definition DaysInMonth (leap : bool) (m : Z) : Z :=
  match m with
  | 1 => if leap then 29 else 28
  | 3 | 5 | 8 | 10 => 30
  | _ => 31
  end.

Definition DaysInYear (leap : bool) : Z := if leap then 366 else 365.

(** The decimal digits of [n], the last [width] of them, zeros included. *)
Definition digit (d : Z) : ascii := ascii_of_nat (48 + Z.to_nat d).

Fixpoint decimal (width : nat) (n : Z) : string :=
  match width with
  | O => EmptyString
  | S w => (decimal w (n / 10) ++ String (digit (n mod 10)) EmptyString)%string
  end.

(** The integers from [from] on, [n] of them. *)
Fixpoint count_up (n : nat) (from : Z) : list Z :=
  match n with
  | O => []
  | S n' => from :: count_up n' (from + 1)
  end.

(** The proleptic Gregorian calendar by its rules: the leap years, the
    lengths of the months ([m] from 1 to 12), and the number of the day
    [y]-[m]-[d], counted from 1 January 1970. *)
Definition leap_year (y : Z) : bool :=
  (y mod 4 =? 0) && (negb (y mod 100 =? 0) || (y mod 400 =? 0)).

Definition month_length (y m : Z) : Z :=
  if m =? 2 then (if leap_year y then 29 else 28)
  else if (m =? 4) || (m =? 6) || (m =? 9) || (m =? 11) then 30
  else 31.

Definition leap_years_before (y : Z) : Z :=
  (y - 1) / 4 - (y - 1) / 100 + (y - 1) / 400.

Definition civil_day (y m d : Z) : Z :=
  365 * (y - 1970) + (leap_years_before y - leap_years_before 1970)
  + fold_right Z.add 0 (map (month_length y) (count_up (Z.to_nat (m - 1)) 1))
  + (d - 1).

Definition civil_date (y m d : Z) : Prop :=
  1 <= m <= 12 /\ 1 <= d <= month_length y m.

Section LocalDates.
Context {host : Calendar.Host}.

(** On the host, the time value [t] falls on the day [y]-[m]-[d]. *)
Definition local_day_is (t y m d : Z) : Prop :=
  civil_date y m d
  /\ (t + Calendar.LocalTZA t true) / 86400000 = civil_day y m d.

(** The Date [k] calendar months before the time value [t], which falls
    on the day [y]-[m]-[d] of the host: the same day of the month [k]
    months earlier, running on into the month after when that month is
    shorter, at the same time of day; the invalid date when that is outside
    the range of time values. *)
Definition months_back (k t y m d : Z) : Calendar.Date :=
  let M := 12 * y + (m - 1) - k in
  let time_of_day := (t + Calendar.LocalTZA t true) mod 86400000 in
  let local :=
    (civil_day (M / 12) (M mod 12 + 1) 1 + (d - 1)) * 86400000
    + time_of_day in
  let u := local - Calendar.LocalTZA local false in
  if Z.abs u <=? 8640000000000000 then Some u else None.
End LocalDates.

(** Whether the time value [t] is inside a range: a [null] end compares
    as 0, an invalid Date compares with nothing. *)
Definition inside (w : Range) (t : Z) : Prop :=
  match fst w with
  | None => 0 <= t
  | Some None => False
  | Some (Some s) => s <= t
  end
  /\ match snd w with
     | None => t <= 0
     | Some None => False
     | Some (Some e) => t <= e
     end.

(** The last day, at midnight UTC, of quarter [k], the quarters counted
    from the first of 1970: 31 March, 30 June, 30 September and
    31 December. *)
Definition quarter_end (k : Z) : Z :=
  let day := if (k mod 4 =? 0) || (k mod 4 =? 3) then 31 else 30 in
  Calendar.MakeDate (Calendar.MakeDay 1970 (3 * k + 2) day) 0.

(** The day of the month on which quarter [q] (0 to 3) of a year ends. *)
Definition last_day (q : Z) : Z := if (q =? 0) || (q =? 3) then 31 else 30.

(** ** Sample data *)

Definition observation (date : Z) (c : string) (change : option float)
  : Observation :=
  {| report_date := date; fund_type := "X"; company_short := c;
     relative_change := change;
     number_of_participants := Some 1000%float;
     bik_pct := Some 0.5%float |}.

(** The last days of the quarters of 2024, at midnight UTC. *)
Definition Q1_2024 : Z := 1711843200000.
Definition Q2_2024 : Z := 1719705600000.
Definition Q3_2024 : Z := 1727654400000.
Definition Q4_2024 : Z := 1735603200000.

(** Manager A reports no change for the first quarter, then 2% and 3%. *)
Definition gap_data : list Observation :=
  [observation Q1_2024 "A" None;
   observation Q2_2024 "A" (Some 2%float);
   observation Q3_2024 "A" (Some 3%float)].

(** Managers A and B each have one observation, of the same day; A's
    carries no change, B's a change of 5%. *)
Definition null_quarter_data : list Observation :=
  [observation Q4_2024 "A" None;
   observation Q4_2024 "B" (Some 5%float)].

(** Managers A, B and C each have one observation, of the same day, with
    the changes 5%, none and 7%. *)
Definition null_between_data : list Observation :=
  [observation Q4_2024 "A" (Some 5%float);
   observation Q4_2024 "B" None;
   observation Q4_2024 "C" (Some 7%float)].

Definition observation_of (ft : string) (date : Z) (c : string)
    (change : option float) : Observation :=
  {| report_date := date; fund_type := ft; company_short := c;
     relative_change := change;
     number_of_participants := Some 1000%float;
     bik_pct := Some 0.5%float |}.

(** Manager A reports a change of 2% at the end of each quarter from the
    last of 2022 to the last of 2024, nine quarters two years apart;
    manager B at the end of the last three quarters of 2024. *)
Definition two_year_data : list Observation :=
  map (fun k => observation (quarter_end k) "A" (Some 2%float))
      (count_up 9 211)
  ++ map (fun k => observation (quarter_end k) "B" (Some 2%float))
         (count_up 3 217).

(** Two fund types: under X manager A, from the end of 2019 to the end of
    2024; under Y manager B, from the end of 2014 to the end of 2024. *)
Definition two_fund_data : list Observation :=
  [observation (quarter_end 199) "A" (Some 1%float);
   observation Q4_2024 "A" (Some 1%float);
   observation_of "Y" (quarter_end 179) "B" (Some 1%float);
   observation_of "Y" Q4_2024 "B" (Some 1%float)].

(** Manager A reports on 1 May 2023 and on 31 March 2024, at midnight
    UTC. *)
Definition may_day_data : list Observation :=
  [observation 1682899200000 "A" (Some 1%float);
   observation Q1_2024 "A" (Some 1%float)].

(** Local time in Vilnius in 2023 and 2024: two hours ahead of UTC, and
    three in summer time, which runs from 01:00 UTC on the last Sunday of
    March to 01:00 UTC on the last Sunday of October.  A local time is read
    with the offset in force before a change of the clock. *)
Definition Vilnius_summer (u : Z) : bool :=
  ((1679792400000 <=? u) && (u <? 1698541200000))
  || ((1711846800000 <=? u) && (u <? 1729990800000)).

Definition Vilnius_zone : Calendar.Host :=
  {| Calendar.LocalTZA := fun t isUTC =>
       let u := if isUTC then t else t - 3 * 3600000 in
       if Vilnius_summer u then 3 * 3600000 else 2 * 3600000 |}.

(** An observation of fund type X with its participant count and expense
    ratio. *)
Definition counted (date : Z) (c : string) (participants bik : option float)
  : Observation :=
  {| report_date := date; fund_type := "X"; company_short := c;
     relative_change := Some 1%float;
     number_of_participants := participants;
     bik_pct := bik |}.

(** Three managers report at the end of the first and of the second
    quarter of 2024.  A's first participant count and last expense ratio
    are missing; B's participants grow from 1000.4 to 1234.6, C's shrink
    from 1234.6 to 1000.4. *)
Definition participants_data : list Observation :=
  [counted Q1_2024 "A" None (Some 0.5%float);
   counted Q2_2024 "A" (Some 1000%float) None;
   counted Q1_2024 "B" (Some 1000.4%float) (Some 0.425%float);
   counted Q2_2024 "B" (Some 1234.6%float) (Some 0.425%float);
   counted Q1_2024 "C" (Some 1234.6%float) (Some 0.31%float);
   counted Q2_2024 "C" (Some 1000.4%float) (Some 0.31%float)].

(** Manager A reports on 1 January 2024 and on 31 March 2024, at
    midnight UTC. *)
Definition new_year_data : list Observation :=
  [observation 1704067200000 "A" (Some 1%float);
   observation Q1_2024 "A" (Some 1%float)].

(** The period buttons of the page: YTD, 1, 3 and ALL, the button of three
    years selected. *)
Definition period_page : Page :=
  {| periodRadios :=
       [{| value := "YTD"; checked := false; disabled := false |};
        {| value := "1"; checked := false; disabled := false |};
        {| value := "3"; checked := true; disabled := false |};
        {| value := "ALL"; checked := false; disabled := false |}];
     periodLabels :=
       [{| has_disabled := false; has_active := false |};
        {| has_disabled := false; has_active := false |};
        {| has_disabled := false; has_active := true |};
        {| has_disabled := false; has_active := false |}] |}.

(** * Properties *)

(** ** Binary64 facts: where [NaN] cannot come from *)

Section Rounding.
Variables prec emax : Z.

Lemma shr_1_nonneg (mrs : shr_record) :
  0 <= shr_m mrs -> 0 <= shr_m (shr_1 mrs).
Proof.
  destruct mrs as [m r s]; simpl.
  destruct m as [|p|p]; try destruct p; simpl; lia.
Qed.

Lemma iter_pos_invariant {T : Type} (P : T -> Prop) (f : T -> T) :
  (forall x, P x -> P (f x)) ->
  forall n x, P x -> P (SpecFloat.iter_pos f n x).
Proof.
  intros Hf; induction n as [n IH|n IH|]; intros x Hx; simpl; auto.
Qed.

Lemma shr_nonneg mrs e n : 0 <= shr_m mrs -> 0 <= shr_m (fst (shr mrs e n)).
Proof.
  intros H; unfold shr; destruct n; simpl; auto.
  apply (iter_pos_invariant (fun x => 0 <= shr_m x)); auto using shr_1_nonneg.
Qed.

Lemma shr_fexp_nonneg m e l :
  0 <= m -> 0 <= shr_m (fst (shr_fexp prec emax m e l)).
Proof.
  intros H; unfold shr_fexp; apply shr_nonneg.
  destruct l as [|[]]; simpl; assumption.
Qed.

Lemma round_nearest_even_nonneg m l : 0 <= m -> 0 <= round_nearest_even m l.
Proof.
  intros H; unfold round_nearest_even.
  destruct l as [|[]]; try destruct (Z.even m); lia.
Qed.

Lemma binary_round_aux_not_nan sx mx ex lx :
  0 <= mx -> binary_round_aux prec emax sx mx ex lx <> S754_nan.
Proof.
  intros H; unfold binary_round_aux.
  pose proof (shr_fexp_nonneg mx ex lx H) as H1.
  destruct (shr_fexp prec emax mx ex lx) as [mrs' e']; simpl in H1.
  pose proof (shr_fexp_nonneg _ e' loc_Exact
                (round_nearest_even_nonneg _ (loc_of_shr_record mrs') H1)) as H2.
  destruct (shr_fexp prec emax _ e' loc_Exact) as [mrs'' e'']; simpl in H2.
  destruct (shr_m mrs'') as [|p|p]; try discriminate; try lia.
  destruct (e'' <=? emax - prec); discriminate.
Qed.

Lemma binary_round_not_nan sx mx ex :
  binary_round prec emax sx mx ex <> S754_nan.
Proof.
  unfold binary_round.
  destruct (shl_align mx ex _) as [mz ez].
  apply binary_round_aux_not_nan; lia.
Qed.

Lemma binary_normalize_not_nan m e sz :
  binary_normalize prec emax m e sz <> S754_nan.
Proof.
  destruct m; simpl; try discriminate; apply binary_round_not_nan.
Qed.
End Rounding.

Lemma is_nan_Prim2SF x : is_nan x = false <-> Prim2SF x <> S754_nan.
Proof.
  unfold Prim2SF; destruct (is_nan x); split; try congruence; intros _.
  destruct (is_zero x); try discriminate.
  destruct (is_infinity x); try discriminate.
  destruct (Z.frexp x) as [r e].
  destruct (shr_fexp _ _ _ _ _) as [s e'].
  destruct (shr_m s); discriminate.
Qed.

Lemma is_nan_of_uint63 n : is_nan (of_uint63 n) = false.
Proof.
  apply is_nan_Prim2SF; rewrite of_uint63_spec; apply binary_normalize_not_nan.
Qed.

Lemma is_nan_opp x : is_nan x = false -> is_nan (- x)%float = false.
Proof.
  rewrite !is_nan_Prim2SF, opp_spec.
  destruct (Prim2SF x); simpl; congruence.
Qed.

Lemma is_nan_ldexp_of_uint63 n e :
  is_nan (Z.ldexp (of_uint63 n) e) = false.
Proof.
  apply is_nan_Prim2SF; rewrite Z_ldexp_spec.
  pose proof (is_nan_of_uint63 n) as Hn.
  apply is_nan_Prim2SF in Hn.
  destruct (Prim2SF _); simpl; try congruence.
  apply binary_round_not_nan.
Qed.

Lemma is_nan_Z2float z : is_nan (JS.Z2float z) = false.
Proof.
  unfold JS.Z2float.
  destruct (Z.abs z <? 2 ^ 63), (z <? 0);
    auto using is_nan_opp, is_nan_of_uint63, is_nan_ldexp_of_uint63.
Qed.

(** Dividing by a finite Number other than zero makes no [NaN]. *)
Lemma is_nan_div x y s m e :
  is_nan x = false -> Prim2SF y = S754_finite s m e ->
  is_nan (x / y)%float = false.
Proof.
  rewrite !is_nan_Prim2SF, div_spec; intros Hx Hy; rewrite Hy.
  unfold SF64div, SFdiv.
  destruct (Prim2SF x) as [sx|sx| |sx mx ex]; try discriminate; try congruence.
  unfold SFdiv_core_binary.
  set (d := Z.div_eucl _ _).
  assert (Hq : 0 <= fst d).
  { subst d.
    match goal with
    | |- 0 <= fst (Z.div_eucl ?a ?b) =>
        pose proof (Z.div_pos a b) as Hd; unfold Z.div in Hd;
        assert (Ha : 0 <= a)
    end.
    { destruct (_ - _ - _); try lia. apply Z.shiftl_nonneg; lia. }
    destruct (Z.div_eucl _ _); simpl in *; apply Hd; lia. }
  destruct d as [q r]; simpl in Hq.
  apply binary_round_aux_not_nan; assumption.
Qed.

Lemma is_nan_years_spanned ms : is_nan (years_spanned ms) = false.
Proof.
  unfold years_spanned.
  eapply is_nan_div; [eapply is_nan_div|]; try apply is_nan_Z2float.
  - vm_compute; reflexivity.
  - vm_compute; reflexivity.
Qed.

Lemma is_zero_cases x : is_zero x = true -> x = zero \/ x = neg_zero.
Proof.
  unfold is_zero; rewrite eqb_spec; intros H.
  rewrite <- (SF2Prim_Prim2SF x).
  destruct (Prim2SF x) as [[]|[]| |[] m e]; try discriminate H; auto.
Qed.

(** [x || 0.0] and [x] add up to the same with [1e-6], unless [x] is
    [NaN]. *)
Lemma or_else_zero_plus x :
  is_nan x = false -> (JS.or_else x zero + 1e-6 = x + 1e-6)%float.
Proof.
  intros H; unfold JS.or_else, JS.truthy; rewrite H; simpl.
  destruct (is_zero x) eqn:Hz; simpl; trivial.
  destruct (is_zero_cases x Hz) as [-> | ->]; reflexivity.
Qed.

Lemma sub_nan_r x : (x - nan)%float = nan.
Proof.
  apply Prim2SF_inj; rewrite sub_spec.
  change (Prim2SF nan) with S754_nan.
  unfold SF64sub, SFsub; destruct (Prim2SF x); reflexivity.
Qed.


(** ** Binary64 facts: the sign of a converted integer *)

Lemma digits2_lower p : 2 ^ (Zpos (digits2_pos p) - 1) <= Zpos p.
Proof.
  induction p as [p IH|p IH|]; simpl digits2_pos; try (simpl; lia).
  - rewrite Pos2Z.inj_succ.
    replace (Z.succ (Zpos (digits2_pos p)) - 1) with (Z.succ (Zpos (digits2_pos p) - 1)) by lia.
    rewrite Z.pow_succ_r by lia. lia.
  - rewrite Pos2Z.inj_succ.
    replace (Z.succ (Zpos (digits2_pos p)) - 1) with (Z.succ (Zpos (digits2_pos p) - 1)) by lia.
    rewrite Z.pow_succ_r by lia. lia.
Qed.

Lemma shr_1_half mrs : 0 <= shr_m mrs -> shr_m (shr_1 mrs) = shr_m mrs / 2.
Proof.
  destruct mrs as [m r s]; simpl.
  destruct m as [|p|p]; try lia; intros _; trivial.
  destruct p; simpl.
  - rewrite Pos2Z.inj_xI. apply (Z.div_unique _ _ _ 1); lia.
  - rewrite Pos2Z.inj_xO. apply (Z.div_unique _ _ _ 0); lia.
  - reflexivity.
Qed.

Lemma iter_shr_1 n mrs :
  0 <= shr_m mrs ->
  0 <= shr_m (SpecFloat.iter_pos shr_1 n mrs) /\
  shr_m (SpecFloat.iter_pos shr_1 n mrs) = shr_m mrs / 2 ^ Zpos n.
Proof.
  revert mrs; induction n as [n IH|n IH|]; intros mrs H; simpl SpecFloat.iter_pos.
  - pose proof (shr_1_nonneg mrs H) as H1.
    destruct (IH _ H1) as [H2 E2]. destruct (IH _ H2) as [H3 E3].
    split; trivial. rewrite E3, E2, shr_1_half by trivial.
    change (Z.pos n~1) with (2 * Z.pos n + 1).
    replace (2 * Zpos n + 1) with (1 + Zpos n + Zpos n) by lia.
    rewrite !Z.pow_add_r by lia.
    rewrite !Z.div_div by lia. f_equal.
    change (2 ^ 1) with 2; ring.
  - destruct (IH _ H) as [H2 E2]. destruct (IH _ H2) as [H3 E3].
    split; trivial. rewrite E3, E2.
    change (Z.pos n~0) with (2 * Z.pos n).
    replace (2 * Zpos n) with (Zpos n + Zpos n) by lia.
    rewrite !Z.pow_add_r by lia.
    rewrite !Z.div_div by lia. reflexivity.
  - split; [apply shr_1_nonneg; trivial|]. rewrite shr_1_half by trivial. reflexivity.
Qed.

Lemma shr_fexp_pos m e l :
  emin <= e ->
  0 < shr_m (fst (shr_fexp prec emax (Zpos m) e l)) /\
  e <= snd (shr_fexp prec emax (Zpos m) e l).
Proof.
  intros He. unfold shr_fexp, shr.
  assert (Hm : shr_m (shr_record_of_loc (Zpos m) l) = Zpos m).
  { destruct l as [|[]]; reflexivity. }
  simpl Zdigits2.
  pose proof (digits2_lower m) as Hd.
  set (d := Zpos (digits2_pos m)) in *.
  destruct (fexp prec emax (d + e) - e) as [|n|n] eqn:En; simpl; rewrite ?Hm; try lia.
  destruct (iter_shr_1 n (shr_record_of_loc (Zpos m) l)) as [_ E]; [rewrite Hm; lia|].
  rewrite E, Hm. split; [|lia].
  apply Z.div_str_pos. split; [lia|].
  eapply Z.le_trans; [|exact Hd].
  apply Z.pow_le_mono_r; [lia|].
  unfold fexp, SpecFloat.emin, prec, emax in *. lia.
Qed.

Lemma nonzero_from_weaken L L' sx r :
  L' <= L -> nonzero_from L sx r -> nonzero_from L' sx r.
Proof.
  intros HL [-> | [m [e [-> He]]]]; [left; trivial |].
  right; exists m, e; split; [trivial | lia].
Qed.

Lemma binary_round_aux_pos sx mx ex lx :
  emin <= ex ->
  nonzero_from ex sx (binary_round_aux prec emax sx (Zpos mx) ex lx).
Proof.
  intros He; unfold binary_round_aux.
  destruct (shr_fexp_pos mx ex lx He) as [H1 H1e].
  destruct (shr_fexp prec emax (Zpos mx) ex lx) as [mrs' e'];
    simpl in H1, H1e.
  assert (H2 : 0 < round_nearest_even (shr_m mrs') (loc_of_shr_record mrs')).
  { unfold round_nearest_even.
    destruct (loc_of_shr_record mrs') as [|[]]; try destruct (Z.even _); lia. }
  destruct (round_nearest_even _ _) as [|m2|m2]; try lia.
  destruct (shr_fexp_pos m2 e' loc_Exact) as [H3 H3e]; [lia |].
  destruct (shr_fexp prec emax (Zpos m2) e' loc_Exact) as [mrs'' e''];
    simpl in H3, H3e.
  destruct (shr_m mrs'') as [|m3|m3]; try lia.
  destruct (e'' <=? emax - prec); [right | left; reflexivity].
  exists m3, e''; split; [reflexivity | lia].
Qed.

Lemma binary_round_pos sx mx ex L :
  emin <= L -> L <= ex - 52 ->
  nonzero_from L sx (binary_round prec emax sx mx ex).
Proof.
  intros HL He; unfold binary_round.
  assert (H : L <= snd (shl_align mx ex
                          (fexp prec emax (Zpos (digits2_pos mx) + ex)))).
  { unfold shl_align; destruct (_ - ex) eqn:E; cbn [snd]; try lia.
    clear E; unfold fexp, SpecFloat.emin, prec, emax in *; lia. }
  destruct (shl_align _ _ _) as [mz ez]; simpl in H.
  apply (nonzero_from_weaken ez); trivial.
  apply binary_round_aux_pos; lia.
Qed.

Lemma of_uint63_pos z :
  0 < z < 2 ^ 63 ->
  nonzero_from (-52) false (Prim2SF (of_uint63 (Uint63.of_Z z))).
Proof.
  intros Hz; rewrite of_uint63_spec, Uint63.of_Z_spec.
  rewrite Z.mod_small by (change Uint63.wB with (2 ^ 63); lia).
  destruct z as [|p|p]; try lia.
  apply binary_round_pos; unfold SpecFloat.emin, prec, emax; lia.
Qed.

Lemma ltb_zero_positive x L :
  nonzero_from L false (Prim2SF x) -> (0 <? x)%float = true.
Proof.
  rewrite FloatAxioms.ltb_spec; intros [-> | [m [e [-> _]]]]; reflexivity.
Qed.

Lemma ltb_zero_negative x L :
  nonzero_from L false (Prim2SF x) -> (0 <? - x)%float = false.
Proof.
  rewrite FloatAxioms.ltb_spec, opp_spec.
  intros [-> | [m [e [-> _]]]]; reflexivity.
Qed.


Lemma Z2float_magnitude_pos (a : Z) :
  0 < a ->
  nonzero_from (-104) false
    (Prim2SF
       (if a <? 2 ^ 63 then of_uint63 (Uint63.of_Z a)
        else
          let k := Z.log2 a - 61 in
          let q := a / 2 ^ k in
          let q := if a mod 2 ^ k =? 0 then q else 2 * (q / 2) + 1 in
          Z.ldexp (of_uint63 (Uint63.of_Z q)) k)).
Proof.
  intros Ha; destruct (a <? 2 ^ 63) eqn:E.
  - apply (nonzero_from_weaken (-52)); [lia | apply of_uint63_pos; lia].
  - cbv zeta.
    apply Z.ltb_ge in E.
    assert (Hl : 63 <= Z.log2 a) by (apply Z.log2_le_pow2; lia).
    set (k := Z.log2 a - 61).
    destruct (Z.log2_spec a Ha) as [Hlo Hhi].
    assert (Hk : 2 ^ Z.log2 a = 2 ^ 61 * 2 ^ k).
    { rewrite <- Z.pow_add_r by lia; f_equal; lia. }
    assert (Hq : 2 ^ 61 <= a / 2 ^ k < 2 ^ 62).
    { split.
      - apply Z.div_le_lower_bound; lia.
      - apply Z.div_lt_upper_bound; [lia |].
        replace (Z.succ (Z.log2 a)) with (1 + Z.log2 a) in Hhi by lia.
        rewrite Z.pow_add_r, Hk in Hhi by lia.
        change (2 ^ 62) with (2 ^ 1 * 2 ^ 61); lia. }
    set (q := if a mod 2 ^ k =? 0 then a / 2 ^ k else 2 * (a / 2 ^ k / 2) + 1).
    assert (Hq' : 0 < q < 2 ^ 63).
    { subst q; destruct (a mod 2 ^ k =? 0); [lia |].
      pose proof (Z.div_mod (a / 2 ^ k) 2 ltac:(lia)).
      pose proof (Z.mod_pos_bound (a / 2 ^ k) 2 ltac:(lia)). lia. }
    rewrite Z_ldexp_spec.
    destruct (of_uint63_pos q Hq') as [-> | [m [e [-> He]]]].
    + left; reflexivity.
    + simpl; apply binary_round_pos; unfold SpecFloat.emin, prec, emax; lia.
Qed.



(** A converted integer is positive exactly when the integer is. *)
Lemma Z2float_pos z : (0 <? JS.Z2float z)%float = (0 <? z).
Proof.
  unfold JS.Z2float; destruct z as [|p|p].
  - reflexivity.
  - change (Z.pos p <? 0) with false; cbv iota.
    apply (ltb_zero_positive _ (-104)), Z2float_magnitude_pos; reflexivity.
  - change (Z.neg p <? 0) with true; cbv iota.
    apply (ltb_zero_negative _ (-104)), Z2float_magnitude_pos; reflexivity.
Qed.

(** ** Binary64 facts: the order of Numbers and the sign of a difference *)

Lemma SFltb_lex a b :
  a <> S754_nan -> b <> S754_nan ->
  (SFltb a b = true <-> lex_lt (position a) (position b)).
Proof.
  intros Ha Hb; unfold SFltb.
  destruct a as [[]|[]| |[] m1 e1], b as [[]|[]| |[] m2 e2]; try congruence;
    simpl; try (split; [discriminate | lia]); try (split; [lia | reflexivity]).
  - destruct (Z.compare_spec e1 e2); [| split; [discriminate|lia] | split; [lia | reflexivity] ].
    change (Pos.compare_cont Eq m1 m2) with (Zpos m1 ?= Zpos m2).
    destruct (Z.compare_spec (Zpos m1) (Zpos m2)); simpl; split; try discriminate; try lia; reflexivity.
  - destruct (Z.compare_spec e1 e2); [| split; [lia | reflexivity]|split; [discriminate|lia] ].
    change (Pos.compare_cont Eq m1 m2) with (Zpos m1 ?= Zpos m2).
    destruct (Z.compare_spec (Zpos m1) (Zpos m2)); simpl; split; try discriminate; try lia; reflexivity.
Qed.

Lemma SFleb_lex a b :
  a <> S754_nan -> b <> S754_nan ->
  (SFleb a b = true <-> lex_le (position a) (position b)).
Proof.
  intros Ha Hb; unfold SFleb.
  destruct a as [[]|[]| |[] m1 e1], b as [[]|[]| |[] m2 e2]; try congruence;
    simpl; try (split; [discriminate | lia]); try (split; [lia | reflexivity]).
  - destruct (Z.compare_spec e1 e2); [| split; [discriminate|lia] | split; [lia | reflexivity] ].
    change (Pos.compare_cont Eq m1 m2) with (Zpos m1 ?= Zpos m2).
    destruct (Z.compare_spec (Zpos m1) (Zpos m2)); simpl; split; try discriminate; try lia; reflexivity.
  - destruct (Z.compare_spec e1 e2); [| split; [lia | reflexivity]|split; [discriminate|lia] ].
    change (Pos.compare_cont Eq m1 m2) with (Zpos m1 ?= Zpos m2).
    destruct (Z.compare_spec (Zpos m1) (Zpos m2)); simpl; split; try discriminate; try lia; reflexivity.
Qed.

Lemma lex_total p q : lex_lt p q \/ lex_le q p.
Proof. destruct p as [[c1 e1] m1], q as [[c2 e2] m2]; simpl; lia. Qed.

Lemma lex_lt_le p q : lex_lt p q -> lex_le p q.
Proof. destruct p as [[c1 e1] m1], q as [[c2 e2] m2]; simpl; lia. Qed.

Lemma lex_le_trans p q r : lex_le p q -> lex_le q r -> lex_le p r.
Proof.
  destruct p as [[c1 e1] m1], q as [[c2 e2] m2], r as [[c3 e3] m3]; simpl; lia.
Qed.

Lemma digits2_upper p : Zpos p < 2 ^ Zpos (digits2_pos p).
Proof.
  induction p as [p IH|p IH|]; simpl digits2_pos; try (simpl; lia).
  - rewrite Pos2Z.inj_succ, Z.pow_succ_r by lia; lia.
  - rewrite Pos2Z.inj_succ, Z.pow_succ_r by lia; lia.
Qed.

Lemma valid_finite_bounds s m e :
  valid_binary (S754_finite s m e) = true ->
  emin <= e /\ Zpos m < 2 ^ 53 /\ (emin < e -> 2 ^ 52 <= Zpos m).
Proof.
  unfold SpecFloat.valid_binary, bounded, canonical_mantissa; intros H.
  apply andb_prop in H; destruct H as [H _]; apply Z.eqb_eq in H.
  pose proof (digits2_upper m) as Hu; pose proof (digits2_lower m) as Hl.
  unfold fexp, SpecFloat.emin, prec, emax in *.
  assert (Hd : Zpos (digits2_pos m) <= 53) by lia.
  split; [lia | split].
  - eapply Z.lt_le_trans; [exact Hu | apply Z.pow_le_mono_r; lia].
  - intros He. replace (Zpos (digits2_pos m)) with 53 in Hl by lia. exact Hl.
Qed.

Lemma iter_xO m d : Zpos (Pos.iter xO m d) = Zpos m * 2 ^ Zpos d.
Proof.
  induction d as [|d IH] using Pos.peano_ind.
  - simpl; lia.
  - rewrite Pos.iter_succ, Pos2Z.inj_xO, IH, Pos2Z.inj_succ, Z.pow_succ_r by lia; lia.
Qed.

Lemma shl_align_value mx ex ez :
  ez <= ex -> Zpos (fst (shl_align mx ex ez)) = Zpos mx * 2 ^ (ex - ez).
Proof.
  intros H; unfold shl_align.
  destruct (ez - ex) as [|d|d] eqn:E; simpl fst; try lia.
  - replace (ex - ez) with 0 by lia; lia.
  - rewrite iter_xO; f_equal; f_equal; lia.
Qed.

(** Canonical values of one sign are ordered by exponent, then mantissa. *)
Lemma aligned_order m1 e1 m2 e2 :
  valid_binary (S754_finite false m1 e1) = true ->
  valid_binary (S754_finite false m2 e2) = true ->
  (Zpos m1 * 2 ^ (e1 - Z.min e1 e2) < Zpos m2 * 2 ^ (e2 - Z.min e1 e2)
   <-> e1 < e2 \/ (e1 = e2 /\ Zpos m1 < Zpos m2)).
Proof.
  intros H1 H2.
  destruct (valid_finite_bounds _ _ _ H1) as [He1 [Hu1 Hl1]].
  destruct (valid_finite_bounds _ _ _ H2) as [He2 [Hu2 Hl2]].
  destruct (Z.lt_trichotomy e1 e2) as [H | [H | H]].
  - rewrite Z.min_l by lia. replace (e1 - e1) with 0 by lia.
    assert (2 <= 2 ^ (e2 - e1)).
    { change 2 with (2 ^ 1) at 1. apply Z.pow_le_mono_r; lia. }
    specialize (Hl2 ltac:(lia)). change (2 ^ 53) with (2 ^ 52 * 2) in Hu1.
    split; [lia | intros _]. nia.
  - subst. rewrite Z.min_id, Z.sub_diag. lia.
  - rewrite Z.min_r by lia. replace (e2 - e2) with 0 by lia.
    assert (2 <= 2 ^ (e1 - e2)).
    { change 2 with (2 ^ 1) at 1. apply Z.pow_le_mono_r; lia. }
    specialize (Hl1 ltac:(lia)). change (2 ^ 53) with (2 ^ 52 * 2) in Hu2.
    split; [nia | lia].
Qed.

Lemma binary_round_nonzero sx mx ex :
  emin <= ex -> nonzero_from emin sx (binary_round prec emax sx mx ex).
Proof.
  intros He; unfold binary_round.
  assert (H : emin <= snd (shl_align mx ex
                             (fexp prec emax (Zpos (digits2_pos mx) + ex)))).
  { unfold shl_align; destruct (_ - ex) eqn:E; cbn [snd]; try lia.
    clear E; unfold fexp, SpecFloat.emin, prec, emax in *; lia. }
  destruct (shl_align _ _ _) as [mz ez]; simpl in H.
  apply (nonzero_from_weaken ez); trivial.
  apply binary_round_aux_pos; lia.
Qed.

(** The sign of the difference of two aligned canonical values is their
    order. *)
Lemma aligned_difference_sign sx mx ex sy my ey :
  valid_binary (S754_finite sx mx ex) = true ->
  valid_binary (S754_finite sy my ey) = true ->
  let ez := Z.min ex ey in
  let D := cond_Zopp sx (Zpos mx * 2 ^ (ex - ez))
           - cond_Zopp sy (Zpos my * 2 ^ (ey - ez)) in
  (0 < D <-> lex_lt (position (S754_finite sy my ey))
                    (position (S754_finite sx mx ex)))
  /\ (D = 0 -> ~ lex_lt (position (S754_finite sy my ey))
                        (position (S754_finite sx mx ex))).
Proof.
  intros Hx Hy ez D.
  pose proof (aligned_order my ey mx ex Hy Hx) as Hyx.
  pose proof (aligned_order mx ex my ey Hx Hy) as Hxy.
  rewrite (Z.min_comm ey ex) in Hyx. fold ez in Hyx, Hxy.
  assert (0 < Zpos mx * 2 ^ (ex - ez)).
  { apply Z.mul_pos_pos; [lia | apply Z.pow_pos_nonneg; lia]. }
  assert (0 < Zpos my * 2 ^ (ey - ez)).
  { apply Z.mul_pos_pos; [lia | apply Z.pow_pos_nonneg; lia]. }
  subst D; destruct sx, sy; cbn [position lex_lt cond_Zopp]; lia.
Qed.

Lemma sub_sign x y :
  is_nan x = false -> is_nan y = false ->
  (0 <? x - y)%float = (y <? x)%float.
Proof.
  rewrite !is_nan_Prim2SF, !FloatAxioms.ltb_spec, sub_spec.
  change (Prim2SF 0) with (S754_zero false).
  pose proof (Prim2SF_valid x) as Hx; pose proof (Prim2SF_valid y) as Hy.
  intros Nx Ny.
  destruct (Prim2SF x) as [sx|sx| |sx mx ex], (Prim2SF y) as [sy|sy| |sy my ey];
    try congruence;
    try (destruct sx; reflexivity);
    try (destruct sy; reflexivity);
    try (destruct sx, sy; reflexivity).
  unfold SF64sub, SFsub.
  destruct (valid_finite_bounds _ _ _ Hx) as [Hex _].
  destruct (valid_finite_bounds _ _ _ Hy) as [Hey _].
  rewrite !shl_align_value by lia.
  destruct (aligned_difference_sign sx mx ex sy my ey Hx Hy) as [Hpos Hzero].
  cbv zeta in Hpos, Hzero.
  set (D := cond_Zopp sx _ - cond_Zopp sy _) in *.
  pose proof (SFltb_lex (S754_finite sy my ey) (S754_finite sx mx ex)
                ltac:(discriminate) ltac:(discriminate)) as Hlt.
  destruct D as [|p|p] eqn:ED; simpl binary_normalize.
  - destruct (SFltb (S754_finite sy my ey) (S754_finite sx mx ex)); trivial.
    exfalso; apply Hzero; [reflexivity | apply Hlt; reflexivity].
  - replace (SFltb (S754_finite sy my ey) (S754_finite sx mx ex)) with true
      by (symmetry; apply Hlt, Hpos; lia).
    destruct (binary_round_nonzero false p (Z.min ex ey) ltac:(lia))
      as [-> | [m [e [-> _]]]]; reflexivity.
  - replace (SFltb (S754_finite sy my ey) (S754_finite sx mx ex)) with false.
    + destruct (binary_round_nonzero true p (Z.min ex ey) ltac:(lia))
        as [-> | [m [e [-> _]]]]; reflexivity.
    + symmetry; apply not_true_is_false; intros E.
      apply Hlt, Hpos in E; lia.
Qed.

Lemma leb_of_ltb x y : (x <? y)%float = true -> (x <=? y)%float = true.
Proof.
  rewrite FloatAxioms.ltb_spec, FloatAxioms.leb_spec; unfold SFltb, SFleb.
  destruct (SFcompare _ _) as [[]|]; congruence.
Qed.

Lemma leb_of_not_ltb x y :
  is_nan x = false -> is_nan y = false ->
  (x <? y)%float = false -> (y <=? x)%float = true.
Proof.
  rewrite !is_nan_Prim2SF, FloatAxioms.ltb_spec, FloatAxioms.leb_spec.
  intros Nx Ny H.
  apply SFleb_lex; trivial.
  destruct (lex_total (position (Prim2SF x)) (position (Prim2SF y))) as [Hl | Hl];
    trivial.
  apply SFltb_lex in Hl; trivial; congruence.
Qed.

Lemma leb_trans x y z :
  is_nan x = false -> is_nan y = false -> is_nan z = false ->
  (x <=? y)%float = true -> (y <=? z)%float = true -> (x <=? z)%float = true.
Proof.
  rewrite !is_nan_Prim2SF, !FloatAxioms.leb_spec; intros Nx Ny Nz.
  rewrite !SFleb_lex by trivial; apply lex_le_trans.
Qed.

(** ** Cumulative growth and annualised return *)

Section MetricsFacts.
Context {num : Type} (A : Arith num).

Lemma clean_values series :
  map (operand A) (filter (is_clean A) series) = values A series.
Proof.
  induction series as [|[x|] s IH]; simpl; trivial.
  destruct (a_isNaN A x); simpl; congruence.
Qed.

Lemma clean_empty series :
  filter (is_clean A) series = [] <-> values A series = [].
Proof.
  rewrite <- clean_values.
  destruct (filter (is_clean A) series); simpl; split; congruence.
Qed.



Lemma compounding_is_product (clean : list (option num)) (init : num) :
  fold_left (fun acc x => a_mul A acc (a_add A (a_lit A 1) x))
            (map (fun v => a_div A (operand A v) (a_lit A 100)) clean) init
  = fold_left (a_mul A) (map (growth_factor A) (map (operand A) clean)) init.
Proof.
  revert init; induction clean as [|v s IH]; intros init; simpl; auto.
Qed.

Lemma growth_of_values series :
  geometricCumulativeGrowth A series =
  match values A series with
  | [] => a_nan A
  | vs =>
      a_mul A (a_sub A (product A (map (growth_factor A) vs)) (a_lit A 1))
              (a_lit A 100)
  end.
Proof.
  unfold geometricCumulativeGrowth, product.
  rewrite <- clean_values.
  destruct (filter (is_clean A) series) as [|v s] eqn:E; trivial.
  rewrite compounding_is_product; reflexivity.
Qed.

Lemma values_all_null series :
  Forall (fun v => v = None) series -> values A series = [].
Proof.
  induction 1 as [|v s Hv _ IH]; simpl; trivial.
  rewrite Hv; exact IH.
Qed.

End MetricsFacts.

(** C1. Cumulative growth is [(P - 1) * 100] with [P] the product of
    [1 + v/100] over the values [v] of the series that are neither null
    nor NaN (the product taken in the order of the series, from 1); a
    series with no such value gives NaN: the empty one, [[null, null]],
    and any number of nulls.  This holds in every arithmetic, binary64 included. *)
Theorem cumulative_growth_is_compounded_product :
  (forall (num : Type) (A : Arith num) (series : list (option num)),
      geometricCumulativeGrowth A series =
      match values A series with
      | [] => a_nan A
      | vs =>
          a_mul A
            (a_sub A (product A (map (growth_factor A) vs)) (a_lit A 1))
            (a_lit A 100)
      end)
  /\ (forall (num : Type) (A : Arith num) (n : nat),
         geometricCumulativeGrowth A (repeat None n) = a_nan A)
  /\ (forall pow_approx,
         geometricCumulativeGrowth (ieee_arith pow_approx) [] = nan
         /\ geometricCumulativeGrowth (ieee_arith pow_approx) [None; None] = nan).
Proof.
  split; [|split].
  - intros; apply growth_of_values.
  - intros num A n.
    rewrite growth_of_values, values_all_null; trivial.
    apply Forall_forall; intros v Hv; exact (repeat_spec _ _ _ Hv).
  - intros; split; reflexivity.
Qed.














(** ** Lists: sorting, first occurrences, extremes of dates *)

Section SortFacts.
Context {T : Type} (comparefn : T -> T -> float).

Lemma insert_back_perm x before :
  Permutation (insert_back comparefn x before) (x :: before).
Proof.
  induction before as [|y rest IH]; simpl; trivial.
  destruct (0 <? comparefn y x)%float; trivial.
  rewrite IH; apply perm_swap.
Qed.

Lemma insertions_perm l acc :
  Permutation (fold_left (fun before x => insert_back comparefn x before) l acc)
              (l ++ acc).
Proof.
  revert acc; induction l as [|x l IH]; intros acc; simpl; trivial.
  rewrite IH, insert_back_perm; symmetry; apply Permutation_middle.
Qed.

Lemma Array_sort_perm l : Permutation (Array_sort comparefn l) l.
Proof.
  unfold Array_sort.
  rewrite <- Permutation_rev, insertions_perm, app_nil_r; reflexivity.
Qed.

Lemma Array_sort_In x l : In x (Array_sort comparefn l) <-> In x l.
Proof.
  split; apply Permutation_in;
    [apply Array_sort_perm | symmetry; apply Array_sort_perm].
Qed.
End SortFacts.

Lemma unique_In c seen l : In c (unique seen l) -> In c l.
Proof.
  revert seen; induction l as [|x l IH]; intros seen; simpl; trivial.
  destruct (existsb (String.eqb x) seen); simpl; intros H.
  - right; eauto.
  - destruct H; eauto.
Qed.

Lemma fold_min_spec ts t : is_min_of (fold_left Z.min ts t) (t :: ts).
Proof.
  revert t; induction ts as [|a ts IH]; intros t; simpl fold_left.
  - split; [left; trivial | intros y [<- | []]; lia].
  - destruct (IH (Z.min t a)) as [Hin Hle]; split.
    + destruct Hin as [Hm | Hin]; [|right; right; exact Hin].
      rewrite <- Hm; destruct (Z.min_spec t a) as [[_ ->] | [_ ->]];
        [left | right; left]; reflexivity.
    + intros y [<- | [<- | Hy]].
      * specialize (Hle (Z.min t a) (or_introl eq_refl)); lia.
      * specialize (Hle (Z.min t a) (or_introl eq_refl)); lia.
      * apply Hle; right; exact Hy.
Qed.

Lemma fold_max_spec ts t : is_max_of (fold_left Z.max ts t) (t :: ts).
Proof.
  revert t; induction ts as [|a ts IH]; intros t; simpl fold_left.
  - split; [left; trivial | intros y [<- | []]; lia].
  - destruct (IH (Z.max t a)) as [Hin Hle]; split.
    + destruct Hin as [Hm | Hin]; [|right; right; exact Hin].
      rewrite <- Hm; destruct (Z.max_spec t a) as [[_ ->] | [_ ->]];
        [right; left | left]; reflexivity.
    + intros y [<- | [<- | Hy]].
      * specialize (Hle (Z.max t a) (or_introl eq_refl)); lia.
      * specialize (Hle (Z.max t a) (or_introl eq_refl)); lia.
      * apply Hle; right; exact Hy.
Qed.

Lemma earliest_spec dates :
  dates <> [] ->
  exists lo, Calendar.earliest dates = Some lo /\ is_min_of lo dates.
Proof.
  destruct dates as [|t ts]; [congruence | intros _].
  exists (fold_left Z.min ts t); split; [reflexivity | apply fold_min_spec].
Qed.

Lemma latest_spec dates :
  dates <> [] ->
  exists hi, Calendar.latest dates = Some hi /\ is_max_of hi dates.
Proof.
  destruct dates as [|t ts]; [congruence | intros _].
  exists (fold_left Z.max ts t); split; [reflexivity | apply fold_max_spec].
Qed.

Lemma map_filter_dates (p : Z -> bool) (data : list Observation) :
  map report_date (filter (fun r => p (report_date r)) data)
  = filter p (map report_date data).
Proof.
  induction data as [|r data IH]; simpl; trivial.
  destruct (p (report_date r)); simpl; congruence.
Qed.

(** ** The calendar: years, months and days of a time value *)

Section CalendarFacts.
Import Calendar.

Lemma DayFromYear_step y :
  DayFromYear (y + 1) =
  DayFromYear y + 365 + (if InLeapYear y then 1 else 0).
Proof.
  unfold DayFromYear, InLeapYear.
  destruct (Z.eqb_spec (y mod 4) 0) as [E4|E4];
    destruct (Z.eqb_spec (y mod 100) 0) as [E100|E100];
    destruct (Z.eqb_spec (y mod 400) 0) as [E400|E400];
    cbn [andb orb negb]; Z.div_mod_to_equations; lia.
Qed.

Lemma DayFromYear_increasing y y' :
  y < y' -> DayFromYear y + 365 * (y' - y) <= DayFromYear y'.
Proof.
  unfold DayFromYear; intros H; Z.div_mod_to_equations; lia.
Qed.

Lemma YearFromDay_spec d :
  DayFromYear (YearFromDay d) <= d < DayFromYear (YearFromDay d + 1).
Proof.
  unfold YearFromDay.
  set (y := 1970 + d * 10000 / 3652425).
  assert (H : DayFromYear (y - 1) <= d < DayFromYear (y + 2)).
  { unfold DayFromYear, y; Z.div_mod_to_equations; lia. }
  destruct (d <? DayFromYear y) eqn:E1; [apply Z.ltb_lt in E1 | apply Z.ltb_ge in E1].
  - replace (y - 1 + 1) with y by lia; lia.
  - destruct (DayFromYear (y + 1) <=? d) eqn:E2;
      [apply Z.leb_le in E2 | apply Z.leb_gt in E2].
    + replace (y + 1 + 1) with (y + 2) by lia; lia.
    + lia.
Qed.

Lemma DayFromYear_monotone y y' :
  y <= y' -> DayFromYear y <= DayFromYear y'.
Proof.
  unfold DayFromYear; intros H; Z.div_mod_to_equations; lia.
Qed.

Lemma YearFromDay_unique y d :
  DayFromYear y <= d < DayFromYear (y + 1) -> YearFromDay d = y.
Proof.
  intros H; pose proof (YearFromDay_spec d) as S.
  destruct (Z.lt_trichotomy (YearFromDay d) y) as [L | [E | G]]; trivial.
  - pose proof (DayFromYear_monotone (YearFromDay d + 1) y); lia.
  - pose proof (DayFromYear_monotone (y + 1) (YearFromDay d)); lia.
Qed.

Lemma MonthStart_next leap m :
  0 <= m <= 11 ->
  MonthStart leap m < MonthStart leap (m + 1) \/ m = 11.
Proof.
  intros H.
  assert (C : m = 0 \/ m = 1 \/ m = 2 \/ m = 3 \/ m = 4 \/ m = 5 \/ m = 6
              \/ m = 7 \/ m = 8 \/ m = 9 \/ m = 10 \/ m = 11) by lia.
  destruct leap;
    repeat (destruct C as [-> | C]; [left; simpl; lia |]); right; trivial.
Qed.

Lemma DayWithinYear_bounds t :
  0 <= DayWithinYear t < DaysInYear (InLeapYear (YearFromTime t)).
Proof.
  unfold DayWithinYear, YearFromTime, DaysInYear.
  pose proof (YearFromDay_spec (Day t)) as S.
  rewrite DayFromYear_step in S.
  destruct (InLeapYear (YearFromDay (Day t))); lia.
Qed.

Lemma MonthFromTime_spec t :
  let leap := InLeapYear (YearFromTime t) in
  let m := MonthFromTime t in
  0 <= m <= 11
  /\ MonthStart leap m <= DayWithinYear t
     < MonthStart leap m + DaysInMonth leap m.
Proof.
  pose proof (DayWithinYear_bounds t) as B.
  unfold MonthFromTime; cbv zeta.
  set (leap := InLeapYear (YearFromTime t)) in *.
  set (d := DayWithinYear t) in *.
  unfold DaysInYear in B.
  clearbody d; destruct leap; cbn -[Z.ltb].
  all: repeat (match goal with
            | |- context [if ?a <? ?b then _ else _] =>
                destruct (Z.ltb_spec a b)
            end; [cbn; lia |]); cbn; lia.
Qed.

Lemma DateFromTime_bounds t :
  1 <= DateFromTime t
    <= DaysInMonth (InLeapYear (YearFromTime t)) (MonthFromTime t).
Proof.
  pose proof (MonthFromTime_spec t) as H; cbv zeta in H.
  unfold DateFromTime; lia.
Qed.

(** The year, month and day of a time value are those of its day. *)
Lemma MakeDay_of_components t :
  MakeDay (YearFromTime t) (MonthFromTime t) (DateFromTime t) = Day t.
Proof.
  pose proof (MonthFromTime_spec t) as [Hm _].
  unfold MakeDay, DateFromTime, DayWithinYear.
  rewrite Z.div_small, Z.mod_small, Z.add_0_r by lia; lia.
Qed.

Lemma month_intervals leap m m' d :
  0 <= m <= 11 -> 0 <= m' <= 11 ->
  MonthStart leap m <= d < MonthStart leap m + DaysInMonth leap m ->
  MonthStart leap m' <= d < MonthStart leap m' + DaysInMonth leap m' ->
  m = m'.
Proof.
  intros Hm Hm'.
  assert (C : m = 0 \/ m = 1 \/ m = 2 \/ m = 3 \/ m = 4 \/ m = 5 \/ m = 6
              \/ m = 7 \/ m = 8 \/ m = 9 \/ m = 10 \/ m = 11) by lia.
  assert (C' : m' = 0 \/ m' = 1 \/ m' = 2 \/ m' = 3 \/ m' = 4 \/ m' = 5
               \/ m' = 6 \/ m' = 7 \/ m' = 8 \/ m' = 9 \/ m' = 10
               \/ m' = 11) by lia.
  clear Hm Hm'.
  destruct leap;
    repeat (destruct C as [-> | C]); try subst m;
    repeat (destruct C' as [-> | C']); try subst m';
    cbn; intros; lia.
Qed.

Lemma MonthStart_bounds leap m :
  0 <= m <= 11 ->
  0 <= MonthStart leap m
  /\ MonthStart leap m + DaysInMonth leap m <= DaysInYear leap.
Proof.
  intros Hm.
  assert (C : m = 0 \/ m = 1 \/ m = 2 \/ m = 3 \/ m = 4 \/ m = 5 \/ m = 6
              \/ m = 7 \/ m = 8 \/ m = 9 \/ m = 10 \/ m = 11) by lia.
  destruct leap; repeat (destruct C as [-> | C]); try subst m; cbn; lia.
Qed.

(** The time value of a calendar day reads back as that day. *)
Lemma components_of_MakeDay y m d ms :
  0 <= m <= 11 -> 1 <= d <= DaysInMonth (InLeapYear y) m ->
  0 <= ms < msPerDay ->
  let t := MakeDate (MakeDay y m d) ms in
  Day t = MakeDay y m d
  /\ YearFromTime t = y /\ MonthFromTime t = m /\ DateFromTime t = d.
Proof.
  intros Hm Hd Hms t.
  assert (HD : Day t = MakeDay y m d).
  { unfold t, Day, MakeDate, msPerDay in *.
    symmetry; apply (Z.div_unique _ _ _ ms); lia. }
  assert (HM : MakeDay y m d = DayFromYear y + MonthStart (InLeapYear y) m + d - 1).
  { unfold MakeDay; rewrite Z.div_small, Z.mod_small, Z.add_0_r by lia; lia. }
  pose proof (MonthStart_bounds (InLeapYear y) m Hm) as [B1 B2].
  assert (HY : YearFromTime t = y).
  { unfold YearFromTime; apply YearFromDay_unique.
    rewrite HD, HM, DayFromYear_step.
    unfold DaysInYear in B2; destruct (InLeapYear y); lia. }
  assert (Hdy : DayWithinYear t = MonthStart (InLeapYear y) m + d - 1).
  { unfold DayWithinYear; rewrite HY, HD, HM; lia. }
  pose proof (MonthFromTime_spec t) as [Hm' Hi]; rewrite HY, Hdy in Hi.
  assert (HMo : MonthFromTime t = m).
  { symmetry; apply (month_intervals (InLeapYear y) m _ (MonthStart (InLeapYear y) m + d - 1));
      trivial; lia. }
  repeat split; trivial.
  unfold DateFromTime; rewrite Hdy, HY, HMo; lia.
Qed.
End CalendarFacts.

(** ** The civil calendar and the calendar of the script *)

Section CivilCalendar.
Import Calendar.

Lemma leap_year_InLeapYear y : InLeapYear y = leap_year y.
Proof.
  unfold InLeapYear, leap_year.
  destruct (Z.eqb_spec (y mod 4) 0) as [E4|E4];
    destruct (Z.eqb_spec (y mod 100) 0) as [E100|E100];
    destruct (Z.eqb_spec (y mod 400) 0) as [E400|E400];
    cbn [andb orb negb]; trivial; exfalso; Z.div_mod_to_equations; lia.
Qed.

Lemma DayFromYear_civil y :
  DayFromYear y
  = 365 * (y - 1970) + (leap_years_before y - leap_years_before 1970).
Proof.
  unfold DayFromYear, leap_years_before.
  change ((1970 - 1) / 4 - (1970 - 1) / 100 + (1970 - 1) / 400) with 477.
  Z.div_mod_to_equations; lia.
Qed.

Lemma months_of_civil_date m :
  1 <= m <= 12 ->
  m = 1 \/ m = 2 \/ m = 3 \/ m = 4 \/ m = 5 \/ m = 6 \/ m = 7 \/ m = 8
  \/ m = 9 \/ m = 10 \/ m = 11 \/ m = 12.
Proof. lia. Qed.

Lemma month_length_DaysInMonth y m :
  1 <= m <= 12 -> month_length y m = DaysInMonth (InLeapYear y) (m - 1).
Proof.
  intros H; rewrite leap_year_InLeapYear; unfold month_length.
  destruct (months_of_civil_date m H)
    as [-> | [-> | [-> | [-> | [-> | [-> | [-> | [-> | [-> | [-> | [-> | ->]]]]]]]]]]];
    reflexivity.
Qed.

Lemma civil_day_MakeDay y m d :
  1 <= m <= 12 -> civil_day y m d = MakeDay y (m - 1) d.
Proof.
  intros H; unfold civil_day, MakeDay.
  rewrite Z.div_small, Z.mod_small, Z.add_0_r by lia.
  rewrite DayFromYear_civil, leap_year_InLeapYear.
  generalize (365 * (y - 1970)
              + (leap_years_before y - leap_years_before 1970)); intros base.
  unfold month_length.
  destruct (months_of_civil_date m H)
    as [-> | [-> | [-> | [-> | [-> | [-> | [-> | [-> | [-> | [-> | [-> | ->]]]]]]]]]]];
    destruct (leap_year y);
    match goal with
    | |- context [count_up ?n ?a] =>
        let l := eval vm_compute in (count_up n a) in
        change (count_up n a) with l
    end; cbn; lia.
Qed.

(** The fields the script reads of a time value that falls on the civil
    day [y]-[m]-[d]. *)
Lemma fields_of_civil_day t y m d :
  civil_date y m d -> Day t = civil_day y m d ->
  YearFromTime t = y /\ MonthFromTime t = m - 1 /\ DateFromTime t = d.
Proof.
  intros [Hm Hd] E.
  rewrite month_length_DaysInMonth in Hd by trivial.
  rewrite civil_day_MakeDay in E by trivial.
  destruct (components_of_MakeDay y (m - 1) d (TimeWithinDay t))
    as [_ H]; [lia | trivial | |].
  - unfold TimeWithinDay, msPerDay; apply Z.mod_pos_bound; lia.
  - replace (MakeDate (MakeDay y (m - 1) d) (TimeWithinDay t)) with t in H;
      trivial.
    unfold MakeDate; rewrite <- E; unfold Day, TimeWithinDay, msPerDay.
    pose proof (Z.div_mod t 86400000); lia.
Qed.

Lemma civil_day_exists t :
  exists y m d, civil_date y m d /\ Day t = civil_day y m d.
Proof.
  exists (YearFromTime t), (MonthFromTime t + 1), (DateFromTime t).
  pose proof (MonthFromTime_spec t) as [Hm _].
  pose proof (DateFromTime_bounds t) as Hd.
  split; [split; [lia |] |].
  - rewrite month_length_DaysInMonth by lia.
    replace (MonthFromTime t + 1 - 1) with (MonthFromTime t) by lia; trivial.
  - rewrite civil_day_MakeDay by lia.
    replace (MonthFromTime t + 1 - 1) with (MonthFromTime t) by lia.
    symmetry; apply MakeDay_of_components.
Qed.

(** Months counted back from the civil month [m] of year [y]. *)
Lemma MakeDay_months_back y m d k :
  1 <= m <= 12 ->
  let M := 12 * y + (m - 1) - k in
  MakeDay y (m - 1 - k) d = civil_day (M / 12) (M mod 12 + 1) 1 + (d - 1).
Proof.
  intros H M.
  pose proof (Z.mod_pos_bound M 12 ltac:(lia)) as HM.
  rewrite civil_day_MakeDay by lia.
  replace (M mod 12 + 1 - 1) with (M mod 12) by lia.
  unfold MakeDay.
  rewrite (Z.div_small (M mod 12)), (Z.mod_small (M mod 12)), Z.add_0_r by lia.
  replace ((m - 1 - k) / 12) with (M / 12 - y)
    by (unfold M; Z.div_mod_to_equations; lia).
  replace ((m - 1 - k) mod 12) with (M mod 12)
    by (unfold M; Z.div_mod_to_equations; lia).
  replace (y + (M / 12 - y)) with (M / 12) by lia; lia.
Qed.

Context {host : Host}.

Lemma local_day_exists t : exists y m d, local_day_is t y m d.
Proof.
  destruct (civil_day_exists (LocalTime t)) as [y [m [d [Hc E]]]].
  exists y, m, d; split; trivial.
Qed.

Lemma local_fields t y m d :
  local_day_is t y m d ->
  getFullYear (Some t) = Some y /\ getMonth (Some t) = Some (m - 1)
  /\ getDate (Some t) = Some d.
Proof.
  intros [Hc E].
  destruct (fields_of_civil_day (LocalTime t) y m d Hc E) as [HY [HM HD]].
  unfold getFullYear, getMonth, getDate, option_map.
  rewrite HY, HM, HD; repeat split.
Qed.

(** [d.setMonth(d.getMonth() - k)] on the Date of time value [t]. *)
Lemma setMonth_months_back t y m d k :
  local_day_is t y m d ->
  match getMonth (Some t) with
  | Some month => setMonth (Some t) (month - k)
  | None => None
  end = months_back k t y m d.
Proof.
  intros [Hc E].
  destruct (fields_of_civil_day (LocalTime t) y m d Hc E) as [HY [HM HD]].
  unfold getMonth, option_map, setMonth, months_back; cbv zeta.
  rewrite HY, HM, HD.
  rewrite (MakeDay_months_back y m d k) by apply Hc.
  reflexivity.
Qed.
End CivilCalendar.

(** ** The text of a period of years *)

Lemma digits_value_snoc s : forall acc c,
  digits_value acc (s ++ String c EmptyString) =
  match digits_value acc s with
  | Some a =>
      if is_digit c then Some (10 * a + Z.of_nat (nat_of_ascii c - 48))
      else None
  | None => None
  end.
Proof.
  induction s as [|c' s IH]; intros acc c; simpl.
  - destruct (is_digit c); reflexivity.
  - destruct (is_digit c'); [apply IH | reflexivity].
Qed.

Lemma digit_value d :
  0 <= d <= 9 ->
  is_digit (digit d) = true /\ Z.of_nat (nat_of_ascii (digit d) - 48) = d.
Proof.
  intros H.
  assert (C : d = 0 \/ d = 1 \/ d = 2 \/ d = 3 \/ d = 4 \/ d = 5 \/ d = 6
              \/ d = 7 \/ d = 8 \/ d = 9) by lia.
  repeat (destruct C as [-> | C]; [split; reflexivity |]).
  subst d; split; reflexivity.
Qed.

Lemma digits_value_decimal width : forall N,
  0 <= N < 10 ^ Z.of_nat width -> digits_value 0 (decimal width N) = Some N.
Proof.
  induction width as [|w IH]; intros N H.
  - simpl in *; f_equal; lia.
  - cbn [decimal]; rewrite digits_value_snoc.
    rewrite Nat2Z.inj_succ, Z.pow_succ_r in H by lia.
    rewrite IH by (Z.div_mod_to_equations; lia).
    destruct (digit_value (N mod 10)) as [-> ->];
      [Z.div_mod_to_equations; lia |].
    f_equal; Z.div_mod_to_equations; lia.
Qed.

(** The decimal digits of [N] are a period of [N] years. *)
Lemma parse_years_decimal width N :
  (0 < width)%nat -> 0 <= N < 10 ^ Z.of_nat width ->
  parse_years (decimal width N) = Some N.
Proof.
  intros Hw H; rewrite <- (digits_value_decimal width N H).
  unfold parse_years.
  destruct width as [|w]; [lia |].
  cbn [decimal]; destruct (decimal w (N / 10)); reflexivity.
Qed.

Lemma parse_years_not_keyword period years :
  parse_years period = Some years ->
  String.eqb period "YTD" = false /\ String.eqb period "ALL" = false.
Proof.
  intros H; split.
  - destruct (String.eqb period "YTD") eqn:E; trivial.
    apply String.eqb_eq in E; subst; discriminate.
  - destruct (String.eqb period "ALL") eqn:E; trivial.
    apply String.eqb_eq in E; subst; discriminate.
Qed.

(** ** Extremes of dates *)

Lemma is_max_of_unique x y l : is_max_of x l -> is_max_of y l -> x = y.
Proof.
  intros [Ix Hx] [Iy Hy]; specialize (Hx y Iy); specialize (Hy x Ix); lia.
Qed.

Lemma is_min_of_unique x y l : is_min_of x l -> is_min_of y l -> x = y.
Proof.
  intros [Ix Hx] [Iy Hy]; specialize (Hx y Iy); specialize (Hy x Ix); lia.
Qed.

Lemma latest_of_max hi dates :
  is_max_of hi dates -> Calendar.latest dates = Some hi.
Proof.
  intros H.
  assert (Hne : dates <> []) by (destruct H as [I _]; intros ->; destruct I).
  destruct (latest_spec dates Hne) as [hi' [E H']].
  rewrite E; f_equal; apply (is_max_of_unique _ _ _ H' H).
Qed.

Lemma earliest_of_min lo dates :
  is_min_of lo dates -> Calendar.earliest dates = Some lo.
Proof.
  intros H.
  assert (Hne : dates <> []) by (destruct H as [I _]; intros ->; destruct I).
  destruct (earliest_spec dates Hne) as [lo' [E H']].
  rewrite E; f_equal; apply (is_min_of_unique _ _ _ H' H).
Qed.

(** ** Coverage and eligibility *)

Section CoverageFacts.
Context {host : Calendar.Host}.
Variable rawData : list Observation.
Variables ft period : string.

Lemma company_has_history c :
  In c (companies rawData ft) -> history rawData ft c <> [].
Proof.
  unfold companies, history; intros H.
  apply Array_sort_In, unique_In, in_map_iff in H.
  destruct H as [r [Hc Hr]].
  assert (Hin : In r (filter (of_company c) (fundData rawData ft))).
  { apply filter_In; split; trivial.
    unfold of_company; rewrite Hc; apply String.eqb_refl. }
  destruct (filter (of_company c) (fundData rawData ft)); [destruct Hin|].
  discriminate.
Qed.

Lemma lookup_coverage c l :
  In c l ->
  lookup c (map (fun c => (c, coverage rawData ft c)) l)
  = Some (coverage rawData ft c).
Proof.
  induction l as [|k l IH]; simpl; [intros [] |].
  intros H; destruct (String.eqb k c) eqn:E.
  - apply String.eqb_eq in E; subst; reflexivity.
  - destruct H as [-> | H]; [rewrite String.eqb_refl in E; discriminate | auto].
Qed.

Lemma coverage_of_history c :
  In c (companies rawData ft) ->
  exists lo hi,
    is_min_of lo (history rawData ft c)
    /\ is_max_of hi (history rawData ft c)
    /\ coverage rawData ft c = years_spanned (hi - lo).
Proof.
  intros H; pose proof (company_has_history c H) as Hne.
  destruct (earliest_spec _ Hne) as [lo [Elo Hlo]].
  destruct (latest_spec _ Hne) as [hi [Ehi Hhi]].
  exists lo, hi; repeat split; try apply Hlo; try apply Hhi.
  unfold coverage; fold (history rawData ft c); rewrite Elo, Ehi; reflexivity.
Qed.

(** The fallback of [coverageYears[c] || 0.0] never changes the test. *)
Lemma enough_history_iff c :
  In c (companies rawData ft) ->
  hasEnoughHistory rawData ft period c =
  match requestedYears rawData ft period with
  | None => true
  | Some requested => (requested <=? coverage rawData ft c + 1e-6)%float
  end.
Proof.
  intros H; unfold hasEnoughHistory, covYears, coverageYears.
  rewrite (lookup_coverage c _ H).
  destruct (requestedYears rawData ft period); trivial.
  rewrite or_else_zero_plus; trivial.
  destruct (coverage_of_history c H) as [lo [hi [_ [_ ->]]]].
  apply is_nan_years_spanned.
Qed.

Lemma kept_In c :
  In c (kept rawData ft period) <->
  In c (companies rawData ft) /\ no_data rawData ft period c = false.
Proof.
  unfold kept; rewrite filter_In, negb_true_iff; reflexivity.
Qed.

Lemma left_out_In c :
  In c (left_out rawData ft period) <->
  In c (companies rawData ft) /\ no_data rawData ft period c = true.
Proof. unfold left_out; rewrite filter_In; reflexivity. Qed.

Lemma kept_iff c :
  In c (companies rawData ft) ->
  In c (kept rawData ft period) <->
  grpRange rawData ft period c <> []
  /\ match requestedYears rawData ft period with
     | None => True
     | Some requested =>
         (requested <=? coverage rawData ft c + 1e-6)%float = true
     end.
Proof.
  intros H; rewrite kept_In.
  unfold no_data; rewrite (enough_history_iff c H).
  destruct (grpRange rawData ft period c).
  - split; [intros [_ E]; discriminate | intros [[] _]; reflexivity].
  - destruct (requestedYears rawData ft period) as [requested|]; simpl.
    + rewrite negb_false_iff; split;
        [intros [_ E]; split; [discriminate | trivial] | tauto].
    + split; [split; [discriminate | trivial] | tauto].
Qed.

(** The rows of a manager in the window. *)
Lemma grpRange_inside c r :
  In r (grpRange rawData ft period c) <->
  In r rawData /\ fund_type r = ft /\ company_short r = c
  /\ inside (range rawData ft period) (report_date r).
Proof.
  unfold grpRange, rangeData, fundData, of_company, inside.
  rewrite !filter_In, andb_true_iff, !String.eqb_eq.
  unfold not_before, not_after.
  destruct (fst (range rawData ft period)) as [[s|]|],
    (snd (range rawData ft period)) as [[e|]|];
    rewrite ?Z.leb_le; intuition congruence.
Qed.

Lemma requestedYears_years N :
  parse_years period = Some N ->
  requestedYears rawData ft period = Some (JS.Z2float N).
Proof.
  intros H; destruct (parse_years_not_keyword period N H) as [_ Hall].
  unfold requestedYears; rewrite H, Hall.
  destruct (fst (range rawData ft period)), (snd (range rawData ft period));
    reflexivity.
Qed.
End CoverageFacts.

Lemma requestedYears_YTD {host : Calendar.Host} rawData ft :
  requestedYears rawData ft "YTD" = None.
Proof.
  unfold requestedYears.
  destruct (fst (range rawData ft "YTD")), (snd (range rawData ft "YTD"));
    reflexivity.
Qed.

(** C3. A manager under the current fund type is eligible, that is, gets
    numeric rows, iff it has an observation in the resolved window and its
    coverage reaches the requested length: for a period of [N] years iff
    [N <= coverageYears + 1e-6], and so for every length the script
    requests, where [coverageYears] is the span from the first to the last
    date of the manager's whole history under the fund type, in years of
    365.25 days.  The observations in the window are the manager's rows of
    the fund type dated inside the resolved range.  With none of them the
    manager is left out whatever its coverage; for YTD no length is
    requested and an observation in the window is enough. *)
Theorem eligibility_by_coverage {host : Calendar.Host}
    (rawData : list Observation) (ft period c : string) :
  In c (companies rawData ft) ->
  exists lo hi,
    is_min_of lo (history rawData ft c)
    /\ is_max_of hi (history rawData ft c)
    /\ (forall r, In r (grpRange rawData ft period c) <->
          In r rawData /\ fund_type r = ft /\ company_short r = c
          /\ inside (range rawData ft period) (report_date r))
    /\ (forall width N,
          (0 < width)%nat -> 0 <= N < 10 ^ Z.of_nat width ->
          period = decimal width N ->
          (In c (kept rawData ft period) <->
           grpRange rawData ft period c <> []
           /\ (JS.Z2float N <=? years_spanned (hi - lo) + 1e-6)%float = true))
    /\ (forall requested,
          requestedYears rawData ft period = Some requested ->
          (In c (kept rawData ft period) <->
           grpRange rawData ft period c <> []
           /\ (requested <=? years_spanned (hi - lo) + 1e-6)%float = true))
    /\ (period = "YTD"%string ->
        (In c (kept rawData ft period) <->
         grpRange rawData ft period c <> []))
    /\ (grpRange rawData ft period c = [] ->
        In c (left_out rawData ft period))
    /\ (In c (left_out rawData ft period) <->
        ~ In c (kept rawData ft period)).
Proof.
  intros H.
  destruct (coverage_of_history rawData ft c H) as [lo [hi [Hlo [Hhi E]]]].
  pose proof (kept_iff rawData ft period c H) as K; rewrite E in K.
  exists lo, hi.
  split; [exact Hlo | split; [exact Hhi | split; [| split; [| split]]]].
  - intros r; apply grpRange_inside.
  - intros width N Hw HN Hp.
    rewrite K, (requestedYears_years rawData ft period N); [reflexivity |].
    rewrite Hp; apply parse_years_decimal; trivial.
  - intros requested Hr; rewrite K, Hr; reflexivity.
  - split; [| split].
    + intros ->; rewrite K, requestedYears_YTD; tauto.
    + intros Hg; apply left_out_In; split; trivial.
      unfold no_data; rewrite Hg; reflexivity.
    + rewrite left_out_In, kept_In.
      destruct (no_data rawData ft period c); split; intros G.
      * intros [_ G']; discriminate.
      * tauto.
      * destruct G; discriminate.
      * exfalso; apply G; tauto.
Qed.

Section OnUTC.
#[local] Existing Instance Calendar.UTC_zone.

Lemma eligibility_by_coverage_witness :
  (requestedYears two_year_data "X" "2" = Some 2%float
   /\ kept two_year_data "X" "2" = ["A"%string]
   /\ left_out two_year_data "X" "2" = ["B"%string]
   /\ history two_year_data "X" "A" = map quarter_end (count_up 9 211)
   /\ List.length (grpRange two_year_data "X" "2" "A") = 8%nat
   /\ (2 <=? years_spanned (quarter_end 219 - quarter_end 211) + 1e-6)%float
      = true
   /\ (2 <=? years_spanned (quarter_end 219 - quarter_end 217) + 1e-6)%float
      = false
   /\ growthRows (fun _ _ => nan) two_year_data "n/a" "X" "2"
      = [{| row_company := "A"; row_cells := ["+17.17"%string] |};
         {| row_company := "B"; row_cells := ["n/a"%string] |}])
  /\ In "A"%string (companies two_year_data "X")
  /\ exists lo hi,
       is_min_of lo (history two_year_data "X" "A")
       /\ is_max_of hi (history two_year_data "X" "A")
       /\ (forall r, In r (grpRange two_year_data "X" "2" "A") <->
             In r two_year_data /\ fund_type r = "X"%string
             /\ company_short r = "A"%string
             /\ inside (range two_year_data "X" "2") (report_date r))
       /\ (forall width N,
             (0 < width)%nat -> 0 <= N < 10 ^ Z.of_nat width ->
             "2"%string = decimal width N ->
             (In "A"%string (kept two_year_data "X" "2") <->
              grpRange two_year_data "X" "2" "A" <> []
              /\ (JS.Z2float N <=? years_spanned (hi - lo) + 1e-6)%float
                 = true))
       /\ (forall requested,
             requestedYears two_year_data "X" "2" = Some requested ->
             (In "A"%string (kept two_year_data "X" "2") <->
              grpRange two_year_data "X" "2" "A" <> []
              /\ (requested <=? years_spanned (hi - lo) + 1e-6)%float = true))
       /\ ("2"%string = "YTD"%string ->
           (In "A"%string (kept two_year_data "X" "2") <->
            grpRange two_year_data "X" "2" "A" <> []))
       /\ (grpRange two_year_data "X" "2" "A" = [] ->
           In "A"%string (left_out two_year_data "X" "2"))
       /\ (In "A"%string (left_out two_year_data "X" "2") <->
           ~ In "A"%string (kept two_year_data "X" "2")).
Proof.
  split.
  - vm_compute; repeat split; reflexivity.
  - split; [vm_compute; left; reflexivity |].
    apply (eligibility_by_coverage two_year_data "X" "2" "A").
    vm_compute; left; reflexivity.
Defined.
End OnUTC.

(** ** The resolved range *)

Lemma fundData_in_rawData rawData ft :
  fundData rawData ft <> [] -> rawData <> [].
Proof. destruct rawData; [intros H; apply H; reflexivity | discriminate]. Qed.

Lemma getRange_ALL {host : Calendar.Host} rawData data :
  data <> [] ->
  getRange rawData data "ALL" =
  (Some (Calendar.earliest (map report_date rawData)),
   Some (Calendar.latest (map report_date rawData))).
Proof. destruct data; [congruence | reflexivity]. Qed.

Lemma history_in_rawData rawData ft c t :
  In t (history rawData ft c) -> In t (map report_date rawData).
Proof.
  unfold history, fundData; rewrite !in_map_iff.
  intros [r [E Hr]]; exists r; split; trivial.
  apply filter_In in Hr; destruct Hr as [Hr _].
  apply filter_In in Hr; tauto.
Qed.

(** C4. For the period ALL the range runs from the earliest to the latest
    [report_date] of the whole dataset, whatever the rows handed to the
    resolver and whatever the selected fund type; the requested length is
    the span of that range in years, so that a manager gets numeric rows
    iff the span from the first to the last date of its own history, which
    lies inside that range, reaches the span of the whole dataset (up to
    the allowance of 1e-6 years); the rows of a manager in the window are
    all its rows of the selected fund type, and no others. *)
Theorem all_period_spans_global_history {host : Calendar.Host}
    (rawData : list Observation) (ft : string) :
  fundData rawData ft <> [] ->
  exists first_day last_day,
    is_min_of first_day (map report_date rawData)
    /\ is_max_of last_day (map report_date rawData)
    /\ (forall data, data <> [] ->
          getRange rawData data "ALL"
          = (Some (Some first_day), Some (Some last_day)))
    /\ range rawData ft "ALL" = (Some (Some first_day), Some (Some last_day))
    /\ requestedYears rawData ft "ALL"
       = Some (years_spanned (last_day - first_day))
    /\ (forall c,
           In c (companies rawData ft) ->
           exists lo hi,
             is_min_of lo (history rawData ft c)
             /\ is_max_of hi (history rawData ft c)
             /\ first_day <= lo /\ hi <= last_day
             /\ (In c (kept rawData ft "ALL") <->
                 (years_spanned (last_day - first_day)
                  <=? years_spanned (hi - lo) + 1e-6)%float = true))
    /\ (forall c r,
           In r (grpRange rawData ft "ALL" c) <->
           In r rawData /\ fund_type r = ft /\ company_short r = c).
Proof.
  intros Hft; pose proof (fundData_in_rawData rawData ft Hft) as Hne.
  assert (Hd : map report_date rawData <> []).
  { destruct rawData; [congruence | discriminate]. }
  destruct (earliest_spec _ Hd) as [glo [Elo Hlo]].
  destruct (latest_spec _ Hd) as [ghi [Ehi Hhi]].
  assert (Hget : forall data, data <> [] ->
            getRange rawData data "ALL" = (Some (Some glo), Some (Some ghi))).
  { intros data Hdata; rewrite (getRange_ALL rawData data Hdata), Elo, Ehi.
    reflexivity. }
  assert (Hrange : range rawData ft "ALL" = (Some (Some glo), Some (Some ghi))).
  { unfold range, baseData; simpl String.eqb; cbv iota; apply Hget, Hne. }
  assert (Hreq : requestedYears rawData ft "ALL"
                 = Some (years_spanned (ghi - glo))).
  { unfold requestedYears; rewrite Hrange; reflexivity. }
  assert (Hrows : forall c r,
            In r (grpRange rawData ft "ALL" c) <->
            In r rawData /\ fund_type r = ft /\ company_short r = c).
  { intros c r; rewrite grpRange_inside, Hrange; unfold inside; simpl.
    split; [tauto |].
    intros [Hr [Hf Hc]]; repeat split; trivial.
    - apply Hlo, in_map, Hr.
    - apply Hhi, in_map, Hr. }
  exists glo, ghi.
  split; [exact Hlo | split; [exact Hhi | split; [exact Hget |]]].
  split; [exact Hrange | split; [exact Hreq | split; [| exact Hrows]]].
  intros c Hc.
  destruct (coverage_of_history rawData ft c Hc) as [lo [hi [Hl [Hh E]]]].
  exists lo, hi.
  split; [exact Hl | split; [exact Hh | split; [| split]]].
  - apply Hlo, (history_in_rawData rawData ft c), Hl.
  - apply Hhi, (history_in_rawData rawData ft c), Hh.
  - rewrite (kept_iff rawData ft "ALL" c Hc), Hreq, E.
    split; [tauto |]; intros G; split; trivial.
    (* every row of the manager is in the window *)
    pose proof (company_has_history rawData ft c Hc) as Hhist.
    unfold history in Hhist.
    destruct (filter (of_company c) (fundData rawData ft)) as [|r rest] eqn:Ef;
      [simpl in Hhist; congruence |].
    assert (Hr : In r (grpRange rawData ft "ALL" c)).
    { apply Hrows.
      assert (Hin : In r (filter (of_company c) (fundData rawData ft)))
        by (rewrite Ef; left; trivial).
      apply filter_In in Hin; destruct Hin as [Hin Hco].
      unfold fundData in Hin; apply filter_In in Hin; destruct Hin as [Hin Hfu].
      apply String.eqb_eq in Hco, Hfu; tauto. }
    intros Eg; rewrite Eg in Hr; destruct Hr.
Qed.

(** On the whole dataset [getPreviousYearRange] keeps the dates after the
    cutoff. *)
Lemma previous_year_range_candidates {host : Calendar.Host}
    data months hi y m d :
  is_max_of hi (map report_date data) -> local_day_is hi y m d ->
  getPreviousYearRange data months =
  match filter (strictly_after (months_back (months - 1) hi y m d))
               (map report_date data) with
  | [] => (None, None)
  | t :: ts => (Some (Calendar.earliest (t :: ts)), Some (Some hi))
  end.
Proof.
  intros Hmax Hday; unfold getPreviousYearRange.
  rewrite (latest_of_max hi _ Hmax).
  rewrite (setMonth_months_back hi y m d (months - 1) Hday).
  rewrite <- map_filter_dates.
  unfold is_after, strictly_after.
  destruct (map report_date (filter _ data)); reflexivity.
Qed.

(** C5. On a collection that is not empty, a period written as the
    decimal digits of [N] resolves this way: the end is the latest
    [report_date] of the collection; the cutoff is the end moved back
    [N * 12 - 1] calendar months in the local time of the host (the same
    day of the month and time of day, running on into the next month when
    the month is shorter); with no date strictly after the cutoff both ends
    are null, otherwise the range runs from the earliest date strictly
    after the cutoff to the end. *)
Theorem trailing_years_range {host : Calendar.Host}
    (rawData data : list Observation) (period : string) (width : nat)
    (N : Z) :
  data <> [] ->
  (0 < width)%nat -> 0 <= N < 10 ^ Z.of_nat width ->
  period = decimal width N ->
  exists end_ y m d,
    is_max_of end_ (map report_date data)
    /\ local_day_is end_ y m d
    /\ let cutoff := months_back (N * 12 - 1) end_ y m d in
       let candidates :=
         filter (strictly_after cutoff) (map report_date data) in
       match candidates with
       | [] => getRange rawData data period = (None, None)
       | _ =>
           exists start,
             is_min_of start candidates
             /\ getRange rawData data period
                = (Some (Some start), Some (Some end_))
       end.
Proof.
  intros Hne Hw HN Hperiod.
  assert (Hp : parse_years period = Some N)
    by (rewrite Hperiod; apply parse_years_decimal; trivial).
  assert (Hd : map report_date data <> []).
  { destruct data; [congruence | discriminate]. }
  destruct (latest_spec _ Hd) as [e [Ee He]].
  destruct (local_day_exists e) as [y [m [d Hday]]].
  exists e, y, m, d; split; [exact He | split; [exact Hday |]].
  destruct (parse_years_not_keyword period N Hp) as [Hytd Hall].
  assert (Hrange : getRange rawData data period
                   = getPreviousYearRange data (N * 12)).
  { unfold getRange; rewrite Hytd, Hall, Hp.
    destruct data; [congruence | reflexivity]. }
  rewrite Hrange,
    (previous_year_range_candidates data (N * 12) e y m d He Hday).
  cbv zeta.
  destruct (filter _ (map report_date data)) as [|t ts] eqn:Ec; trivial.
  destruct (earliest_spec (t :: ts)) as [s [Es Hs]]; [discriminate |].
  exists s; split; [exact Hs | rewrite Es; reflexivity].
Qed.

Lemma all_period_spans_global_history_witness :
  (range (host := Calendar.UTC_zone) two_fund_data "X" "ALL"
   = (Some (Some (quarter_end 179)), Some (Some (quarter_end 219)))
   /\ history two_fund_data "X" "A" = [quarter_end 199; quarter_end 219]
   /\ kept (host := Calendar.UTC_zone) two_fund_data "X" "ALL" = []
   /\ left_out (host := Calendar.UTC_zone) two_fund_data "X" "ALL"
      = ["A"%string]
   /\ kept (host := Calendar.UTC_zone) two_fund_data "Y" "ALL" = ["B"%string]
   /\ growthRows (host := Calendar.UTC_zone) (fun _ _ => nan) two_fund_data
        "n/a" "X" "ALL"
      = [{| row_company := "A"; row_cells := ["n/a"%string] |}])
  /\ fundData two_fund_data "X" <> []
  /\ exists first_day last_day,
       is_min_of first_day (map report_date two_fund_data)
       /\ is_max_of last_day (map report_date two_fund_data)
       /\ (forall data, data <> [] ->
             getRange (host := Calendar.UTC_zone) two_fund_data data "ALL"
             = (Some (Some first_day), Some (Some last_day)))
       /\ range (host := Calendar.UTC_zone) two_fund_data "X" "ALL"
          = (Some (Some first_day), Some (Some last_day))
       /\ requestedYears (host := Calendar.UTC_zone) two_fund_data "X" "ALL"
          = Some (years_spanned (last_day - first_day))
       /\ (forall c,
              In c (companies two_fund_data "X") ->
              exists lo hi,
                is_min_of lo (history two_fund_data "X" c)
                /\ is_max_of hi (history two_fund_data "X" c)
                /\ first_day <= lo /\ hi <= last_day
                /\ (In c (kept (host := Calendar.UTC_zone)
                            two_fund_data "X" "ALL") <->
                    (years_spanned (last_day - first_day)
                     <=? years_spanned (hi - lo) + 1e-6)%float = true))
       /\ (forall c r,
              In r (grpRange (host := Calendar.UTC_zone)
                      two_fund_data "X" "ALL" c) <->
              In r two_fund_data /\ fund_type r = "X"%string
              /\ company_short r = c).
Proof.
  split.
  - vm_compute; repeat split; reflexivity.
  - split; [discriminate |].
    apply (all_period_spans_global_history (host := Calendar.UTC_zone)
             two_fund_data "X"); discriminate.
Defined.

Lemma trailing_years_range_witness :
  (getRange (host := Calendar.UTC_zone) [] may_day_data "1"
   = (Some (Some 1711843200000), Some (Some 1711843200000))
   /\ getRange (host := Vilnius_zone) [] may_day_data "1"
      = (Some (Some 1682899200000), Some (Some 1711843200000))
   /\ local_day_is (host := Vilnius_zone) 1711843200000 2024 3 31
   /\ months_back (host := Vilnius_zone) (1 * 12 - 1) 1711843200000 2024 3 31
      = Some 1682895600000
   /\ months_back (host := Calendar.UTC_zone) (1 * 12 - 1) 1711843200000
        2024 3 31
      = Some 1682899200000)
  /\ may_day_data <> [] /\ (0 < 1)%nat /\ 0 <= 1 < 10 ^ Z.of_nat 1
  /\ "1"%string = decimal 1 1
  /\ exists end_ y m d,
       is_max_of end_ (map report_date may_day_data)
       /\ local_day_is (host := Vilnius_zone) end_ y m d
       /\ let cutoff := months_back (host := Vilnius_zone)
                          (1 * 12 - 1) end_ y m d in
          let candidates :=
            filter (strictly_after cutoff) (map report_date may_day_data) in
          match candidates with
          | [] => getRange (host := Vilnius_zone) [] may_day_data "1"
                  = (None, None)
          | _ =>
              exists start,
                is_min_of start candidates
                /\ getRange (host := Vilnius_zone) [] may_day_data "1"
                   = (Some (Some start), Some (Some end_))
          end.
Proof.
  split.
  - split; [vm_compute; reflexivity |].
    split; [vm_compute; reflexivity |].
    split; [split; [split; [lia | vm_compute; split; discriminate]
                   | vm_compute; reflexivity] |].
    split; vm_compute; reflexivity.
  - split; [discriminate |].
    split; [lia |].
    split; [lia |].
    split; [reflexivity |].
    apply (trailing_years_range (host := Vilnius_zone) [] may_day_data "1" 1 1);
      [discriminate | lia | lia | reflexivity].
Defined.

(** ** The window of a manager, sorted by date *)

Lemma sorted_snoc {T : Type} (R : T -> T -> Prop) l y :
  StronglySorted R l -> Forall (fun z => R z y) l ->
  StronglySorted R (l ++ [y]).
Proof.
  induction 1 as [|x l Hl IH Hx]; intros Hy; simpl.
  - repeat constructor.
  - apply Forall_cons_iff in Hy; destruct Hy as [Hxy Hy].
    constructor; auto.
    apply Forall_app; split; trivial; repeat constructor; trivial.
Qed.

Section SortedLists.
Context {T : Type} (R : T -> T -> Prop).

Lemma sorted_rev l :
  StronglySorted R l -> StronglySorted (fun a b => R b a) (rev l).
Proof.
  induction 1 as [|y rest Hrest IH Hy]; simpl; [constructor |].
  apply sorted_snoc; trivial.
  apply Forall_forall; intros z Hz; apply in_rev in Hz.
  rewrite Forall_forall in Hy; auto.
Qed.

Lemma sorted_head l first :
  StronglySorted R l -> hd_error l = Some first ->
  forall x, In x l -> x = first \/ R first x.
Proof.
  intros Hs Hf x Hx; destruct l as [|y rest]; [discriminate |].
  injection Hf as ->.
  apply StronglySorted_inv in Hs; destruct Hs as [_ Hy].
  rewrite Forall_forall in Hy.
  destruct Hx as [-> | Hx]; auto.
Qed.
End SortedLists.

(** Sorting with a comparison function that agrees, on the elements [dom]
    holds of, with a total preorder [le]: the result is in that order. *)
Section SortByOrder.
Context {T : Type} (comparefn : T -> T -> float).
Variable dom : T -> Prop.
Variable le : T -> T -> Prop.
Hypothesis comparefn_positive :
  forall y x, dom y -> dom x -> (0 <? comparefn y x)%float = true -> le x y.
Hypothesis comparefn_not_positive :
  forall y x, dom y -> dom x -> (0 <? comparefn y x)%float = false -> le y x.
Hypothesis le_transitive :
  forall a b c, dom a -> dom b -> dom c -> le a b -> le b c -> le a c.

Lemma insert_back_dom x before :
  dom x -> Forall dom before -> Forall dom (insert_back comparefn x before).
Proof.
  intros Hx Hb; apply Forall_forall; intros z Hz.
  apply (Permutation_in _ (insert_back_perm comparefn x before)) in Hz.
  rewrite Forall_forall in Hb; destruct Hz as [<- | Hz]; auto.
Qed.

Lemma insert_back_sorted x before :
  dom x -> Forall dom before ->
  StronglySorted (fun a b => le b a) before ->
  StronglySorted (fun a b => le b a) (insert_back comparefn x before).
Proof.
  intros Hx Hdom; induction 1 as [|y rest Hrest IH Hy]; simpl.
  - repeat constructor.
  - apply Forall_cons_iff in Hdom; destruct Hdom as [Hdy Hdrest].
    destruct (0 <? comparefn y x)%float eqn:E.
    + constructor; auto.
      apply Forall_forall; intros z Hz.
      apply (Permutation_in _ (insert_back_perm comparefn x rest)) in Hz.
      destruct Hz as [<- | Hz]; [auto |].
      rewrite Forall_forall in Hy; auto.
    + constructor; [constructor; trivial |].
      constructor; [auto |].
      apply Forall_forall; intros z Hz.
      rewrite Forall_forall in Hy, Hdrest.
      apply (le_transitive z y x); auto.
Qed.

Lemma insertions_sorted l acc :
  Forall dom l -> Forall dom acc ->
  StronglySorted (fun a b => le b a) acc ->
  StronglySorted (fun a b => le b a)
    (fold_left (fun before x => insert_back comparefn x before) l acc).
Proof.
  revert acc; induction l as [|x l IH]; intros acc Hl Hacc H; simpl; trivial.
  apply Forall_cons_iff in Hl; destruct Hl as [Hx Hl].
  apply IH; auto using insert_back_dom, insert_back_sorted.
Qed.

Lemma Array_sort_sorted l :
  Forall dom l -> StronglySorted le (Array_sort comparefn l).
Proof.
  intros Hl.
  apply (sorted_rev (fun a b => le b a)), insertions_sorted; trivial;
    constructor.
Qed.
End SortByOrder.

Section SortByKey.
Context {T : Type} (comparefn : T -> T -> float) (key : T -> Z).
Hypothesis comparefn_sign :
  forall a b, (0 <? comparefn a b)%float = (key b <? key a).

Lemma Array_sort_ascending l :
  StronglySorted (fun a b => key a <= key b) (Array_sort comparefn l).
Proof.
  apply (Array_sort_sorted comparefn (fun _ => True)).
  - intros y x _ _; rewrite comparefn_sign, Z.ltb_lt; lia.
  - intros y x _ _; rewrite comparefn_sign, Z.ltb_ge; lia.
  - intros; lia.
  - apply Forall_forall; trivial.
Qed.

(** The first element of the sorted array has the least key, the last one
    the greatest. *)
Lemma Array_sort_ends l first last :
  hd_error (Array_sort comparefn l) = Some first ->
  hd_error (rev (Array_sort comparefn l)) = Some last ->
  forall x, In x l -> key first <= key x <= key last.
Proof.
  intros Hfirst Hlast x Hx.
  apply (Array_sort_In comparefn) in Hx.
  pose proof (Array_sort_ascending l) as Hs.
  split.
  - destruct (sorted_head _ _ _ Hs Hfirst x Hx) as [-> | H]; lia.
  - apply sorted_rev in Hs; rewrite in_rev in Hx.
    destruct (sorted_head _ _ _ Hs Hlast x Hx) as [-> | H]; lia.
Qed.
End SortByKey.

Lemma date_order_sign (a b : Observation) :
  (0 <? JS.Z2float (report_date a - report_date b))%float
  = (report_date b <? report_date a).
Proof.
  rewrite Z2float_pos; apply eq_iff_eq_true; rewrite !Z.ltb_lt; lia.
Qed.

Section WindowFacts.
Context {host : Calendar.Host}.
Variable rawData : list Observation.
Variables ft period : string.

Lemma kept_has_window c :
  In c (kept rawData ft period) -> grpRange rawData ft period c <> [].
Proof.
  rewrite kept_In; unfold no_data; intros [_ H].
  destruct (grpRange rawData ft period c); discriminate.
Qed.

Lemma sorted_In c r :
  In r (sorted rawData ft period c) <-> In r (grpRange rawData ft period c).
Proof. apply Array_sort_In. Qed.

(** The window of a kept manager has a first and a last row by date. *)
Lemma sorted_ends c :
  In c (kept rawData ft period) ->
  exists first_row last_row,
    hd_error (sorted rawData ft period c) = Some first_row
    /\ hd_error (rev (sorted rawData ft period c)) = Some last_row
    /\ In first_row (grpRange rawData ft period c)
    /\ In last_row (grpRange rawData ft period c)
    /\ forall r, In r (grpRange rawData ft period c) ->
         report_date first_row <= report_date r <= report_date last_row.
Proof.
  intros H; pose proof (kept_has_window c H) as Hne.
  assert (Hs : sorted rawData ft period c <> []).
  { intros E; apply Hne.
    apply Permutation_nil; rewrite <- E; apply Array_sort_perm. }
  destruct (sorted rawData ft period c) as [|f rest] eqn:Ef; [congruence |].
  assert (Hr : rev (f :: rest) <> []).
  { intros E; apply (f_equal (@List.length Observation)) in E.
    rewrite length_rev in E; discriminate. }
  destruct (rev (f :: rest)) as [|l rest'] eqn:El; [congruence |].
  exists f, l.
  split; [reflexivity | split; [reflexivity | split; [| split]]].
  - apply sorted_In; rewrite Ef; left; trivial.
  - apply sorted_In; rewrite Ef; apply in_rev; rewrite El; left; trivial.
  - apply (Array_sort_ends _ report_date date_order_sign
             (grpRange rawData ft period c) f l);
      fold (sorted rawData ft period c); rewrite Ef, ?El; trivial.
Qed.
End WindowFacts.

(** The participants row of a manager with numeric rows, from the
    participant counts of the first and of the last observation by date in
    the window.  If one of the two is null or NaN, the row shows the text
    of [msgFundNotExist] in both columns and sorts with key -Infinity;
    otherwise it shows the last count rounded to the nearest integer and
    the rounded difference of last and first (with a plus sign when not
    negative), and sorts with the rounded last count as its key. *)
Theorem participants_row_of_kept_manager {host : Calendar.Host}
    (rawData : list Observation) (msgFundNotExist ft period c : string) :
  In c (kept rawData ft period) ->
  exists first_row last_row,
    In first_row (grpRange rawData ft period c)
    /\ In last_row (grpRange rawData ft period c)
    /\ (forall r, In r (grpRange rawData ft period c) ->
          report_date first_row <= report_date r <= report_date last_row)
    /\ let first := number_of_participants first_row in
       let last := number_of_participants last_row in
       let latest := JS.Math_round (JS.ToNumber last) in
       let change :=
         JS.Math_round (JS.ToNumber last - JS.ToNumber first)%float in
       In (if is_missing first || is_missing last
           then {| shown := {| row_company := c;
                               row_cells := [msgFundNotExist;
                                             msgFundNotExist] |};
                   _sort := neg_infinity |}
           else {| shown := {| row_company := c;
                               row_cells :=
                                 [JS.Number_toString latest;
                                  if (0 <=? change)%float
                                  then ("+" ++ JS.Number_toString change)%string
                                  else JS.Number_toString change] |};
                   _sort := latest |})
          (participantsNumeric rawData msgFundNotExist ft period).
Proof.
  intros H.
  destruct (sorted_ends rawData ft period c H)
    as [f [l [Hf [Hl [Hfin [Hlin Hends]]]]]].
  exists f, l; repeat split; trivial; try apply Hends; trivial.
  cbv zeta; unfold participantsNumeric.
  apply in_map_iff; exists c; split; trivial.
  unfold numeric, firstPart, lastPart.
  destruct (sorted rawData ft period c) as [|f' rest]; [discriminate |].
  injection Hf as ->.
  destruct (rev (f :: rest)) as [|l' rest']; [discriminate |].
  injection Hl as ->.
  unfold participants.
  destruct (is_missing (number_of_participants f)
            || is_missing (number_of_participants l)); reflexivity.
Qed.

Section ParticipantsExample.
#[local] Existing Instance Calendar.UTC_zone.

Lemma participants_row_of_kept_manager_witness :
  participantsNumeric participants_data "n/a" "X" "YTD"
  = [{| shown := {| row_company := "A";
                    row_cells := ["n/a"%string; "n/a"%string] |};
        _sort := neg_infinity |};
     {| shown := {| row_company := "B";
                    row_cells := ["1235"%string; "+234"%string] |};
        _sort := 1235 |};
     {| shown := {| row_company := "C";
                    row_cells := ["1000"%string; "-234"%string] |};
        _sort := 1000 |}]
  /\ In "C"%string (kept participants_data "X" "YTD")
  /\ exists first_row last_row,
       In first_row (grpRange participants_data "X" "YTD" "C")
       /\ In last_row (grpRange participants_data "X" "YTD" "C")
       /\ (forall r, In r (grpRange participants_data "X" "YTD" "C") ->
             report_date first_row <= report_date r <= report_date last_row)
       /\ let first := number_of_participants first_row in
          let last := number_of_participants last_row in
          let latest := JS.Math_round (JS.ToNumber last) in
          let change :=
            JS.Math_round (JS.ToNumber last - JS.ToNumber first)%float in
          In (if is_missing first || is_missing last
              then {| shown := {| row_company := "C";
                                  row_cells := ["n/a"%string; "n/a"%string] |};
                      _sort := neg_infinity |}
              else {| shown := {| row_company := "C";
                                  row_cells :=
                                    [JS.Number_toString latest;
                                     if (0 <=? change)%float
                                     then ("+" ++ JS.Number_toString change)
                                            %string
                                     else JS.Number_toString change] |};
                      _sort := latest |})
             (participantsNumeric participants_data "n/a" "X" "YTD").
Proof.
  split; [vm_compute; reflexivity |].
  split; [vm_compute; right; right; left; reflexivity |].
  apply (participants_row_of_kept_manager participants_data "n/a" "X" "YTD" "C").
  vm_compute; right; right; left; reflexivity.
Defined.

(** C7 fails on the code.  Manager A has two observations in the window,
    so it is eligible, and the first of them carries no participant count.
    The claim has the participants row carry the "no data" result; the
    script writes the text of [msg.fund_not_exist] in both columns, the
    placeholder of a manager that is not eligible, while for A's missing
    expense ratio the same loop writes the text of [msg.no_data_reported].
    The sort key is -Infinity as claimed, and the rows of B and C show the
    rounded last count and the rounded change. *)
Example participants_gap_reads_fund_not_exist :
  kept participants_data "X" "YTD" = ["A"; "B"; "C"]%string
  /\ map number_of_participants (sorted participants_data "X" "YTD" "A")
     = [None; Some 1000%float]
  /\ map bik_pct (sorted participants_data "X" "YTD" "A")
     = [Some 0.5%float; None]
  /\ map _sort
       (participantsNumeric participants_data "Fund did not exist" "X" "YTD")
     = [neg_infinity; 1235%float; 1000%float]
  /\ participantsRows participants_data "Fund did not exist" "X" "YTD"
     = [{| row_company := "B"; row_cells := ["1235"; "+234"]%string |};
        {| row_company := "C"; row_cells := ["1000"; "-234"]%string |};
        {| row_company := "A";
           row_cells := ["Fund did not exist";
                         "Fund did not exist"]%string |}]
  /\ bikRows participants_data "Fund did not exist" "No data reported"
       "X" "YTD"
     = [{| row_company := "C"; row_cells := ["0.310"%string] |};
        {| row_company := "B"; row_cells := ["0.425"%string] |};
        {| row_company := "A"; row_cells := ["No data reported"%string] |}].
Proof.
  split; [vm_compute; reflexivity |].
  split; [vm_compute; reflexivity |].
  split; [vm_compute; reflexivity |].
  split; [vm_compute; reflexivity |].
  split; vm_compute; reflexivity.
Qed.
End ParticipantsExample.

(** ** Formatting of signed values *)

Lemma factor_for_two_decimals pow_approx :
  JS.Math_pow pow_approx 10 (JS.Z2float (Z.of_nat 2)) = 100%float.
Proof. vm_compute; reflexivity. Qed.

(** C8, the claim as it stands, fails on its second example: -0.001 times
    100 rounds to negative zero, negative zero is not greater than zero,
    and [toFixed] writes it without a sign, so the text is ["0.00"], not
    ["-0.00"]. *)
Lemma fmtSigned_of_small_negative_is_not_minus_zero :
  ~ (exists pow_approx msgIfNaN,
        fmtSigned pow_approx (Some (-0.001)%float) 2 msgIfNaN
        = "-0.00"%string).
Proof.
  intros [pow_approx [msgIfNaN H]]; vm_compute in H; discriminate.
Qed.

(** C8, amended.  [fmtSigned] gives the placeholder for null and for NaN;
    otherwise it rounds the value to two decimals and writes the rounded
    value with two fraction digits, with a "+" before it exactly when the
    rounded value is greater than zero.  Zero reads "0.00", 3.456 reads
    "+3.46", and -0.001, which rounds to zero, reads "0.00". *)
Theorem fmtSigned_rounds_then_signs :
  forall pow_approx (msgIfNaN : string),
    fmtSigned pow_approx None 2 msgIfNaN = msgIfNaN
    /\ (forall v : float,
           fmtSigned pow_approx (Some v) 2 msgIfNaN =
           if JS.Number_isNaN v then msgIfNaN
           else
             let rounded := (JS.Math_round (v * 100) / 100)%float in
             ((if (0 <? rounded)%float then "+" else "")
              ++ JS.toFixed rounded 2)%string)
    /\ fmtSigned pow_approx (Some 0%float) 2 msgIfNaN = "0.00"%string
    /\ fmtSigned pow_approx (Some 3.456%float) 2 msgIfNaN = "+3.46"%string
    /\ fmtSigned pow_approx (Some (-0.001)%float) 2 msgIfNaN = "0.00"%string.
Proof.
  intros pow_approx msgIfNaN.
  split; [reflexivity | split].
  - intros v; unfold fmtSigned.
    rewrite factor_for_two_decimals; reflexivity.
  - split; [vm_compute; reflexivity |].
    split; vm_compute; reflexivity.
Qed.

(** ** Rows with a missing change

    The examples are run on a host whose local time is UTC. *)

Section MissingChangeExamples.
#[local] Existing Instance Calendar.UTC_zone.

(** C6 fails on the code: the extremes are taken over the changes of the
    window as they are, and [Math.min] and [Math.max] read a null as 0.
    Manager A's window holds the changes null, 2 and 3; the least change
    that is not null is 2, the worst quarter computed is 0 and shows as
    "0.00". *)
Example worst_quarter_reads_null_as_zero :
  forall pow_approx (msgFundNotExist : string),
    In "A"%string (kept gap_data "X" "YTD")
    /\ relChanges gap_data "X" "YTD" "A"
       = [None; Some 2%float; Some 3%float]
    /\ JS.Math_min [Some 2%float; Some 3%float] = 2%float
    /\ worstVal gap_data "X" "YTD" "A" = 0%float
    /\ extremesRows pow_approx gap_data msgFundNotExist "X" "YTD"
       = [{| row_company := "A"; row_cells := ["0.00"; "+3.00"]%string |}].
Proof.
  intros.
  split; [vm_compute; left; reflexivity |].
  split; [vm_compute; reflexivity |].
  split; [vm_compute; reflexivity |].
  split; vm_compute; reflexivity.
Qed.

Lemma sort_keeps_nan_key_first (a b : SortRow) :
  _sort a = nan -> Array_sort descending [a; b] = [a; b].
Proof.
  intros H; unfold Array_sort; simpl; unfold descending.
  rewrite H, sub_nan_r; reflexivity.
Qed.

(** C9 fails on the code: a manager with numeric rows whose changes are
    all null has the sort key NaN, which no comparison moves.  In the
    growth table of [null_quarter_data] the row of A, with key NaN and
    the placeholder as its text, stands above the row of B, with key 5
    and the text "+5.00": the keys do not descend, and a placeholder row
    precedes a numeric one.  In the growth table of [null_between_data]
    the row with key NaN keeps "+5.00" above "+7.00". *)
Example growth_table_lists_nan_key_first :
  forall pow_approx (msgFundNotExist : string),
    map _sort
      (Array_sort descending
         (growthNumeric pow_approx null_quarter_data msgFundNotExist "X" "YTD"))
    = [nan; 5.0000000000000044%float]
    /\ (5.0000000000000044 <=? nan)%float = false
    /\ growthNoData null_quarter_data msgFundNotExist "X" "YTD" = []
    /\ growthRows pow_approx null_quarter_data msgFundNotExist "X" "YTD"
       = [{| row_company := "A"; row_cells := [msgFundNotExist] |};
          {| row_company := "B"; row_cells := ["+5.00"%string] |}]
    /\ growthRows pow_approx null_between_data msgFundNotExist "X" "YTD"
       = [{| row_company := "A"; row_cells := ["+5.00"%string] |};
          {| row_company := "B"; row_cells := [msgFundNotExist] |};
          {| row_company := "C"; row_cells := ["+7.00"%string] |}].
Proof.
  intros.
  split; [vm_compute; reflexivity |].
  split; [vm_compute; reflexivity |].
  split; [vm_compute; reflexivity |].
  split; vm_compute; reflexivity.
Qed.

(** C10. There is a manager that has an observation in the window and
    enough coverage, so that it gets numeric rows, while all its changes
    in the window are null: its growth row and its annualised row are on
    the numeric lists with the sort key NaN and the placeholder as text,
    and in both tables that row comes first, above the row of another
    manager, which in the growth table reads "+5.00". *)
Theorem all_null_manager_is_ranked_with_nan_key :
  forall pow_approx (msgFundNotExist : string),
  exists (rawData : list Observation) (ft period c : string),
    In c (kept rawData ft period)
    /\ Forall (fun v => v = None) (relChanges rawData ft period c)
    /\ In {| shown := {| row_company := c;
                         row_cells := [msgFundNotExist] |};
             _sort := nan |}
          (growthNumeric pow_approx rawData msgFundNotExist ft period)
    /\ In {| shown := {| row_company := c;
                         row_cells := [msgFundNotExist] |};
             _sort := nan |}
          (avgNumeric pow_approx rawData msgFundNotExist ft period)
    /\ growthRows pow_approx rawData msgFundNotExist ft period
       = [{| row_company := c; row_cells := [msgFundNotExist] |};
          {| row_company := "B"; row_cells := ["+5.00"%string] |}]
    /\ exists other,
         row_company other = "B"%string
         /\ avgRows pow_approx rawData msgFundNotExist ft period
            = [{| row_company := c; row_cells := [msgFundNotExist] |};
               other].
Proof.
  intros pow_approx msgFundNotExist.
  exists null_quarter_data, "X"%string, "YTD"%string, "A"%string.
  assert (Hk : kept null_quarter_data "X" "YTD" = ["A"; "B"]%string)
    by (vm_compute; reflexivity).
  assert (Hl : left_out null_quarter_data "X" "YTD" = [])
    by (vm_compute; reflexivity).
  split; [rewrite Hk; left; reflexivity |].
  split; [vm_compute; repeat constructor |].
  split; [vm_compute; left; reflexivity |].
  unfold avgRows, avgNoData, avgNumeric; rewrite Hk, Hl; cbn [map].
  set (a := numeric _ _ "A"%string); set (b := numeric _ _ "B"%string).
  assert (Ha : a = {| shown := {| row_company := "A";
                                  row_cells := [msgFundNotExist] |};
                      _sort := nan |})
    by (subst a; vm_compute; reflexivity).
  split; [left; exact Ha |].
  split; [vm_compute; reflexivity |].
  exists (shown b); split; [reflexivity |].
  rewrite sort_keeps_nan_key_first by (rewrite Ha; reflexivity).
  rewrite Ha; reflexivity.
Qed.

End MissingChangeExamples.

(** ** Ranking of the numeric rows *)

Lemma descending_sorted (rows : list SortRow) :
  Forall (fun r => is_nan (_sort r) = false) rows ->
  StronglySorted (fun a b => (_sort b <=? _sort a)%float = true)
                 (Array_sort descending rows).
Proof.
  apply (Array_sort_sorted descending); unfold descending.
  - intros y x Hy Hx H; rewrite sub_sign in H by trivial.
    apply leb_of_ltb, H.
  - intros y x Hy Hx H; rewrite sub_sign in H by trivial.
    apply leb_of_not_ltb; trivial.
  - intros a b c Ha Hb Hc Hab Hbc; apply (leb_trans _ (_sort b)); trivial.
Qed.

Lemma ascending_sorted (rows : list SortRow) :
  Forall (fun r => is_nan (_sort r) = false) rows ->
  StronglySorted (fun a b => (_sort a <=? _sort b)%float = true)
                 (Array_sort ascending rows).
Proof.
  apply (Array_sort_sorted ascending); unfold ascending.
  - intros y x Hy Hx H; rewrite sub_sign in H by trivial.
    apply leb_of_ltb, H.
  - intros y x Hy Hx H; rewrite sub_sign in H by trivial.
    apply leb_of_not_ltb; trivial.
  - intros a b c Ha Hb Hc Hab Hbc; apply (leb_trans _ (_sort b)); trivial.
Qed.

Lemma is_nan_Math_round x :
  is_nan x = false -> is_nan (JS.Math_round x) = false.
Proof.
  intros H; unfold JS.Math_round.
  destruct (Prim2SF x) as [| | |s m e]; trivial.
  destruct (0 <=? e); trivial.
  destruct (s && _); [reflexivity | apply is_nan_Z2float].
Qed.

Lemma participants_key_not_nan msg first last :
  is_nan (snd (participants msg first last)) = false.
Proof.
  unfold participants.
  destruct (is_missing first || is_missing last) eqn:E; [reflexivity |].
  apply orb_false_iff in E; destruct E as [_ E].
  destruct last as [x|]; [| discriminate].
  apply is_nan_Math_round, E.
Qed.

Lemma expense_key_not_nan msg last :
  is_nan (snd (expense msg last)) = false.
Proof.
  unfold expense.
  destruct (is_missing last) eqn:E; [reflexivity |].
  destruct last as [x|]; [exact E | discriminate].
Qed.

(** In the participants and expense-ratio tables the numeric rows are
    always in the order of their sort keys, descending and ascending, a
    missing value at the far end; in the growth, annualised-return and
    extremes tables they are (descending, descending, ascending) whenever
    no sort key is NaN. *)
Theorem numeric_rows_are_ranked_by_key {host : Calendar.Host}
    (pow_approx : float -> float -> float) (rawData : list Observation)
    (msgFundNotExist msgNoData ft period : string) :
  (Forall (fun r => is_nan (_sort r) = false)
          (growthNumeric pow_approx rawData msgFundNotExist ft period) ->
   StronglySorted (fun a b => (_sort b <=? _sort a)%float = true)
     (Array_sort descending
        (growthNumeric pow_approx rawData msgFundNotExist ft period)))
  /\ (Forall (fun r => is_nan (_sort r) = false)
             (avgNumeric pow_approx rawData msgFundNotExist ft period) ->
      StronglySorted (fun a b => (_sort b <=? _sort a)%float = true)
        (Array_sort descending
           (avgNumeric pow_approx rawData msgFundNotExist ft period)))
  /\ (Forall (fun r => is_nan (_sort r) = false)
             (extremesNumeric pow_approx rawData msgFundNotExist ft period) ->
      StronglySorted (fun a b => (_sort a <=? _sort b)%float = true)
        (Array_sort ascending
           (extremesNumeric pow_approx rawData msgFundNotExist ft period)))
  /\ StronglySorted (fun a b => (_sort b <=? _sort a)%float = true)
       (Array_sort descending
          (participantsNumeric rawData msgFundNotExist ft period))
  /\ StronglySorted (fun a b => (_sort a <=? _sort b)%float = true)
       (Array_sort ascending
          (bikNumeric rawData msgNoData ft period)).
Proof.
  split; [apply descending_sorted |].
  split; [apply descending_sorted |].
  split; [apply ascending_sorted |].
  split.
  - apply descending_sorted, Forall_forall; intros r Hr.
    unfold participantsNumeric in Hr; apply in_map_iff in Hr.
    destruct Hr as [c [<- _]]; apply participants_key_not_nan.
  - apply ascending_sorted, Forall_forall; intros r Hr.
    unfold bikNumeric in Hr; apply in_map_iff in Hr.
    destruct Hr as [c [<- _]]; apply expense_key_not_nan.
Qed.

(** ** The roster of the tables *)

Lemma existsb_eqb_In x seen :
  existsb (String.eqb x) seen = true <-> In x seen.
Proof.
  rewrite existsb_exists; split.
  - intros [y [Hy E]]; apply String.eqb_eq in E; subst; trivial.
  - intros H; exists x; split; trivial; apply String.eqb_refl.
Qed.

Lemma unique_spec seen l c :
  In c (unique seen l) <-> In c l /\ ~ In c seen.
Proof.
  revert seen; induction l as [|x l IH]; intros seen; simpl.
  - tauto.
  - destruct (existsb (String.eqb x) seen) eqn:E.
    + apply existsb_eqb_In in E; rewrite IH; split.
      * tauto.
      * intros [[-> | H] Hn]; tauto.
    + assert (Hx : ~ In x seen)
        by (rewrite <- existsb_eqb_In, E; discriminate).
      simpl; rewrite IH; simpl; split.
      * intros [<- | [H Hn]]; tauto.
      * intros [[-> | H] Hn]; [tauto |].
        destruct (string_dec x c); [tauto | right; tauto].
Qed.

Lemma unique_NoDup seen l : NoDup (unique seen l).
Proof.
  revert seen; induction l as [|x l IH]; intros seen; simpl.
  - constructor.
  - destruct (existsb (String.eqb x) seen); trivial.
    constructor; trivial.
    rewrite unique_spec; simpl; tauto.
Qed.


Lemma ascii_compare_lt_trans a b c :
  Ascii.compare a b = Lt -> Ascii.compare b c = Lt -> Ascii.compare a c = Lt.
Proof.
  unfold Ascii.compare; rewrite !N.compare_lt_iff; lia.
Qed.

Lemma string_compare_lt_trans a b c :
  String.compare a b = Lt -> String.compare b c = Lt ->
  String.compare a c = Lt.
Proof.
  revert b c; induction a as [|x a IH]; intros [|y b] [|z c]; simpl;
    try discriminate; trivial.
  destruct (Ascii.compare x y) eqn:Exy; try discriminate;
    destruct (Ascii.compare y z) eqn:Eyz; try discriminate; intros H1 H2.
  - apply Ascii.compare_eq_iff in Exy, Eyz; subst.
    assert (E : Ascii.compare z z = Eq)
      by (unfold Ascii.compare; apply N.compare_refl).
    rewrite E; eauto.
  - apply Ascii.compare_eq_iff in Exy; subst; rewrite Eyz; trivial.
  - apply Ascii.compare_eq_iff in Eyz; subst; rewrite Exy; trivial.
  - rewrite (ascii_compare_lt_trans _ _ _ Exy Eyz); trivial.
Qed.

Lemma string_compare_refl a : String.compare a a = Eq.
Proof.
  induction a as [|x a IH]; simpl; trivial.
  unfold Ascii.compare; rewrite N.compare_refl; trivial.
Qed.


Lemma string_le_trans a b c : string_le a b -> string_le b c -> string_le a c.
Proof.
  unfold string_le; intros H1 H2.
  destruct (String.compare a b) eqn:Eab; [| |congruence].
  - apply String.compare_eq_iff in Eab; subst; trivial.
  - destruct (String.compare b c) eqn:Ebc; [| |congruence].
    + apply String.compare_eq_iff in Ebc; subst; congruence.
    + rewrite (string_compare_lt_trans _ _ _ Eab Ebc); discriminate.
Qed.

Lemma compare_strings_positive a b :
  (0 <? compare_strings a b)%float = true <-> String.compare a b = Gt.
Proof.
  unfold compare_strings; destruct (String.compare a b); split;
    try discriminate; trivial; vm_compute; discriminate.
Qed.

Lemma sort_strings_sorted l :
  StronglySorted string_le (Array_sort compare_strings l).
Proof.
  apply (Array_sort_sorted compare_strings (fun _ => True)).
  - intros y x _ _ H; apply compare_strings_positive in H.
    unfold string_le; rewrite String.compare_antisym, H; discriminate.
  - intros y x _ _ H; unfold string_le; intros E.
    apply compare_strings_positive in E; congruence.
  - intros a b c _ _ _; apply string_le_trans.
  - apply Forall_forall; trivial.
Qed.

Lemma NoDup_sorted_strict l :
  NoDup l -> StronglySorted string_le l ->
  StronglySorted (fun a b => String.compare a b = Lt) l.
Proof.
  induction 2 as [|x l Hl IH Hx]; constructor.
  - apply IH; inversion H; trivial.
  - apply Forall_forall; intros y Hy.
    rewrite Forall_forall in Hx; specialize (Hx y Hy).
    unfold string_le in Hx.
    destruct (String.compare x y) eqn:E; trivial; [|congruence].
    apply String.compare_eq_iff in E; subst.
    inversion H; tauto.
Qed.

Lemma sorted_filter {T} (R : T -> T -> Prop) f l :
  StronglySorted R l -> StronglySorted R (filter f l).
Proof.
  induction 1 as [|x l Hl IH Hx]; simpl; [constructor |].
  destruct (f x); trivial.
  constructor; trivial.
  apply Forall_forall; intros y Hy; apply filter_In in Hy.
  rewrite Forall_forall in Hx; apply Hx; tauto.
Qed.

Lemma filter_partition {T} (f : T -> bool) l :
  Permutation (filter (fun x => negb (f x)) l ++ filter f l) l.
Proof.
  induction l as [|x l IH]; simpl; trivial.
  destruct (f x); simpl.
  - rewrite <- Permutation_middle; constructor; trivial.
  - constructor; trivial.
Qed.

Section Roster.
Context {host : Calendar.Host}.
Variable pow_approx : float -> float -> float.
Variable rawData : list Observation.
Variables msgFundNotExist msgNoData ft period : string.

Lemma companies_In c :
  In c (companies rawData ft) <->
  exists r, In r rawData /\ fund_type r = ft /\ company_short r = c.
Proof.
  unfold companies; rewrite Array_sort_In, unique_spec, in_map_iff.
  unfold fundData; split.
  - intros [[r [Hc Hr]] _]; apply filter_In in Hr; destruct Hr as [Hr E].
    apply String.eqb_eq in E; eauto.
  - intros [r [Hr [Hft Hc]]]; split; [|simpl; tauto].
    exists r; split; trivial; apply filter_In; split; trivial.
    apply String.eqb_eq; trivial.
Qed.

Lemma companies_NoDup : NoDup (companies rawData ft).
Proof.
  unfold companies.
  eapply Permutation_NoDup; [symmetry; apply Array_sort_perm |].
  apply unique_NoDup.
Qed.

Lemma companies_ascending :
  StronglySorted (fun a b => String.compare a b = Lt) (companies rawData ft).
Proof.
  apply NoDup_sorted_strict; [apply companies_NoDup |].
  apply sort_strings_sorted.
Qed.

Lemma ranked_roster cells key cmp (l : list string) :
  Permutation
    (map row_company (map shown (Array_sort cmp (map (numeric cells key) l))))
    l.
Proof.
  rewrite Array_sort_perm, !map_map; simpl; rewrite map_id; reflexivity.
Qed.

Lemma placeholder_roster cells (l : list string) :
  map row_company (map (placeholder cells) l) = l.
Proof. rewrite map_map; simpl; apply map_id. Qed.


Lemma kept_left_out_roster :
  Permutation (kept rawData ft period ++ left_out rawData ft period)
              (companies rawData ft).
Proof. apply filter_partition. Qed.

Lemma ranked_length cells key cmp (l : list string) :
  List.length (map shown (Array_sort cmp (map (numeric cells key) l)))
  = List.length l.
Proof.
  rewrite length_map, (Permutation_length (Array_sort_perm cmp _)), length_map.
  reflexivity.
Qed.

Lemma skipn_ranked {T} (l1 l2 : list T) n :
  List.length l1 = n -> skipn n (l1 ++ l2) = l2.
Proof.
  intros <-; rewrite skipn_app, skipn_all, Nat.sub_diag; reflexivity.
Qed.
End Roster.

(** Every one of the five tables has one row for each manager of the
    selected fund type: the managers of its rows are a rearrangement of
    [companies], which holds each manager that has a row of the fund type
    in the data, once. *)
Theorem every_table_lists_each_manager_once {host : Calendar.Host}
    (pow_approx : float -> float -> float) (rawData : list Observation)
    (msgFundNotExist msgNoData ft period : string) :
  let managers := companies rawData ft in
  NoDup managers
  /\ (forall c, In c managers <->
        exists r, In r rawData /\ fund_type r = ft /\ company_short r = c)
  /\ Permutation
       (map row_company
          (growthRows pow_approx rawData msgFundNotExist ft period)) managers
  /\ Permutation
       (map row_company
          (avgRows pow_approx rawData msgFundNotExist ft period)) managers
  /\ Permutation
       (map row_company
          (extremesRows pow_approx rawData msgFundNotExist ft period)) managers
  /\ Permutation
       (map row_company
          (participantsRows rawData msgFundNotExist ft period)) managers
  /\ Permutation
       (map row_company
          (bikRows rawData msgFundNotExist msgNoData ft period)) managers.
Proof.
  cbv zeta.
  split; [apply companies_NoDup |].
  split; [apply companies_In |].
  unfold growthRows, avgRows, extremesRows, participantsRows, bikRows,
    growthNumeric, avgNumeric, extremesNumeric, participantsNumeric,
    bikNumeric, growthNoData, avgNoData, extremesNoData, participantsNoData,
    bikNoData.
  repeat split;
    rewrite map_app, ranked_roster, placeholder_roster;
    apply kept_left_out_roster.
Qed.

(** In every table the rows of the managers without numbers come after
    all the others, and in ascending order of the manager's name: past the
    rows of the managers kept, the table is the placeholder row of each
    manager left out, these in strictly ascending order. *)
Theorem placeholder_rows_close_each_table {host : Calendar.Host}
    (pow_approx : float -> float -> float) (rawData : list Observation)
    (msgFundNotExist msgNoData ft period : string) :
  let n := List.length (kept rawData ft period) in
  let absent := left_out rawData ft period in
  StronglySorted (fun a b => String.compare a b = Lt) absent
  /\ skipn n (growthRows pow_approx rawData msgFundNotExist ft period)
     = map (placeholder [msgFundNotExist]) absent
  /\ skipn n (avgRows pow_approx rawData msgFundNotExist ft period)
     = map (placeholder [msgFundNotExist]) absent
  /\ skipn n (extremesRows pow_approx rawData msgFundNotExist ft period)
     = map (placeholder [msgFundNotExist; msgFundNotExist]) absent
  /\ skipn n (participantsRows rawData msgFundNotExist ft period)
     = map (placeholder [msgFundNotExist; msgFundNotExist]) absent
  /\ skipn n (bikRows rawData msgFundNotExist msgNoData ft period)
     = map (placeholder [msgFundNotExist]) absent.
Proof.
  cbv zeta.
  split; [apply sorted_filter, companies_ascending |].
  unfold growthRows, avgRows, extremesRows, participantsRows, bikRows,
    growthNumeric, avgNumeric, extremesNumeric, participantsNumeric,
    bikNumeric, growthNoData, avgNoData, extremesNoData, participantsNoData,
    bikNoData.
  repeat split; apply skipn_ranked, ranked_length.
Qed.

(** ** Loading and the first rendering *)

Lemma is_set_iff s : is_set s = true <-> s <> ""%string.
Proof.
  unfold is_set; rewrite negb_true_iff, String.eqb_neq; reflexivity.
Qed.

(** [Array.from(set).sort()] of the truthy values of a column. *)
Lemma sorted_set_spec (l : list string) :
  let names := Array_sort compare_strings (unique [] (filter is_set l)) in
  StronglySorted (fun a b => String.compare a b = Lt) names
  /\ (forall x, In x names <-> x <> ""%string /\ In x l)
  /\ match hd_error names with
     | None => names = []
     | Some first => In first names /\ forall x, In x names -> string_le first x
     end.
Proof.
  cbv zeta.
  set (names := Array_sort compare_strings (unique [] (filter is_set l))).
  assert (Hs : StronglySorted (fun a b => String.compare a b = Lt) names).
  { apply NoDup_sorted_strict; [|apply sort_strings_sorted].
    eapply Permutation_NoDup; [symmetry; apply Array_sort_perm |].
    apply unique_NoDup. }
  split; [exact Hs | split].
  - intros x; unfold names.
    rewrite Array_sort_In, unique_spec, filter_In, is_set_iff; simpl; tauto.
  - destruct names as [|first rest]; simpl; trivial.
    split; [left; trivial |].
    intros x [<- | Hx].
    + unfold string_le; rewrite string_compare_refl; discriminate.
    + apply StronglySorted_inv in Hs; destruct Hs as [_ Hs].
      rewrite Forall_forall in Hs; unfold string_le; rewrite (Hs x Hx).
      discriminate.
Qed.

(** [loadData] leaves in [fundTypes] the fund types of the rows, the empty
    one apart, each once and in ascending order, and in [selectedFundType]
    the first of them, [null] when there is none; the same of the managers
    in [allManagers] and [selectedManager]. *)
Theorem loadData_lists_and_defaults (rawData : list Observation) :
  let s := loadData rawData in
  StronglySorted (fun a b => String.compare a b = Lt) (fundTypes s)
  /\ (forall x, In x (fundTypes s) <->
        x <> ""%string /\ exists r, In r rawData /\ fund_type r = x)
  /\ match selectedFundType s with
     | None => fundTypes s = []
     | Some ft =>
         In ft (fundTypes s) /\ forall x, In x (fundTypes s) -> string_le ft x
     end
  /\ StronglySorted (fun a b => String.compare a b = Lt) (allManagers s)
  /\ (forall x, In x (allManagers s) <->
        x <> ""%string /\ exists r, In r rawData /\ company_short r = x)
  /\ match selectedManager s with
     | None => allManagers s = []
     | Some c =>
         In c (allManagers s)
         /\ forall x, In x (allManagers s) -> string_le c x
     end.
Proof.
  cbv zeta; unfold loadData; cbn [fundTypes allManagers selectedFundType selectedManager].
  destruct (sorted_set_spec (map fund_type rawData)) as [F1 [F2 F3]].
  destruct (sorted_set_spec (map company_short rawData)) as [M1 [M2 M3]].
  split; [exact F1 | split; [| split; [exact F3 | split; [exact M1 | split; [| exact M3]]]]].
  - intros x; rewrite F2, in_map_iff; split;
      intros [Hx [r Hr]]; (split; [exact Hx | exists r; tauto]).
  - intros x; rewrite M2, in_map_iff; split;
      intros [Hx [r Hr]]; (split; [exact Hx | exists r; tauto]).
Qed.

(** The first rendering after [loadData], with the fund type it selected
    and a period that is checked, never leaves the tables as they were:
    it fills them when some row has a fund type, and empties them when
    none has. *)
Theorem first_render_after_loading {host : Calendar.Host}
    (pow_approx : float -> float -> float) (rawData : list Observation)
    (msgFundNotExist msgNoData period : string) :
  match renderTables pow_approx rawData msgFundNotExist msgNoData
          (selectedFundType (loadData rawData)) period with
  | Cleared =>
      period = ""%string \/ forall r, In r rawData -> fund_type r = ""%string
  | Untouched => False
  | Rendered _ _ _ _ _ =>
      exists r, In r rawData /\ fund_type r <> ""%string
  end.
Proof.
  destruct (sorted_set_spec (map fund_type rawData)) as [_ [F2 F3]].
  unfold loadData; cbn [selectedFundType].
  destruct (hd_error _) as [ft|] eqn:E.
  - destruct F3 as [Hin _]; apply F2 in Hin; destruct Hin as [Hne Hin].
    apply in_map_iff in Hin; destruct Hin as [r [Hft Hr]].
    unfold renderTables.
    destruct ft as [|a ft]; [congruence |].
    destruct period as [|b period]; [left; trivial |].
    assert (Hf : In r (fundData rawData (String a ft))).
    { unfold fundData; apply filter_In; split; trivial.
      apply String.eqb_eq; trivial. }
    destruct (fundData rawData (String a ft)); [destruct Hf |].
    exists r; split; trivial; rewrite Hft; discriminate.
  - simpl; right; intros r Hr.
    destruct (string_dec (fund_type r) "") as [|Hne]; trivial.
    exfalso.
    assert (Hin : In (fund_type r)
              (Array_sort compare_strings
                 (unique [] (filter is_set (map fund_type rawData)))))
      by (apply F2; split; trivial; apply in_map; trivial).
    rewrite F3 in Hin; destruct Hin.
Qed.

(** ** Extremes of the quarterly changes *)

Lemma leb_refl x : is_nan x = false -> (x <=? x)%float = true.
Proof.
  intros H; apply leb_of_not_ltb; trivial.
  rewrite FloatAxioms.ltb_spec; unfold SFltb.
  apply is_nan_Prim2SF in H.
  destruct (Prim2SF x) as [s|s| |s m e]; try congruence; try (destruct s; reflexivity).
  simpl. destruct s.
  - rewrite Z.compare_refl. rewrite Pos.compare_cont_refl. reflexivity.
  - rewrite Z.compare_refl. rewrite Pos.compare_cont_refl. reflexivity.
Qed.

Lemma signed_zero x s :
  is_zero x = true -> get_sign x = s -> x = if s then neg_zero else zero.
Proof.
  intros Hz <-; destruct (is_zero_cases x Hz) as [-> | ->]; reflexivity.
Qed.

Lemma Math_min_from_spec l : forall lowest,
  is_nan lowest = false -> Forall (fun x => is_nan x = false) l ->
  let r := JS.Math_min_from lowest l in
  is_nan r = false
  /\ (r = lowest \/ In r l)
  /\ (r <=? lowest)%float = true
  /\ Forall (fun x => (r <=? x)%float = true) l.
Proof.
  induction l as [|x l IH]; intros lowest Hl Hnan; cbv zeta; simpl.
  - repeat split; auto using leb_refl.
  - apply Forall_cons_iff in Hnan; destruct Hnan as [Hx Hnan].
    rewrite Hx.
    destruct (is_zero x && get_sign x && is_zero lowest
              && negb (get_sign lowest)) eqn:E.
    + apply andb_prop in E; destruct E as [E E4].
      apply andb_prop in E; destruct E as [E E3].
      apply andb_prop in E; destruct E as [E1 E2].
      apply negb_true_iff in E4.
      pose proof (signed_zero x true E1 E2) as ->.
      pose proof (signed_zero lowest false E3 E4) as ->.
      destruct (IH neg_zero eq_refl Hnan) as [N [I [L F]]].
      split; [exact N | split; [| split]].
      * destruct I as [-> | I]; auto.
      * apply (leb_trans _ neg_zero); trivial.
      * constructor; trivial.
    + set (lowest' := if (x <? lowest)%float then x else lowest).
      assert (Hl' : is_nan lowest' = false)
        by (unfold lowest'; destruct (x <? lowest)%float; trivial).
      destruct (IH lowest' Hl' Hnan) as [N [I [L F]]].
      assert (Hboth : (lowest' <=? lowest)%float = true
                      /\ (lowest' <=? x)%float = true).
      { unfold lowest'; destruct (x <? lowest)%float eqn:Elt.
        - split; [apply leb_of_ltb; trivial | apply leb_refl; trivial].
        - split; [apply leb_refl; trivial | apply leb_of_not_ltb; trivial]. }
      destruct Hboth as [B1 B2].
      split; [exact N | split; [| split]].
      * destruct I as [I | I]; [| auto].
        unfold lowest' in I; destruct (x <? lowest)%float; auto.
      * apply (leb_trans _ lowest'); trivial.
      * constructor; trivial; apply (leb_trans _ lowest'); trivial.
Qed.

Lemma Math_max_from_spec l : forall highest,
  is_nan highest = false -> Forall (fun x => is_nan x = false) l ->
  let r := JS.Math_max_from highest l in
  is_nan r = false
  /\ (r = highest \/ In r l)
  /\ (highest <=? r)%float = true
  /\ Forall (fun x => (x <=? r)%float = true) l.
Proof.
  induction l as [|x l IH]; intros highest Hl Hnan; cbv zeta; simpl.
  - repeat split; auto using leb_refl.
  - apply Forall_cons_iff in Hnan; destruct Hnan as [Hx Hnan].
    rewrite Hx.
    destruct (is_zero x && negb (get_sign x) && is_zero highest
              && get_sign highest) eqn:E.
    + apply andb_prop in E; destruct E as [E E4].
      apply andb_prop in E; destruct E as [E E3].
      apply andb_prop in E; destruct E as [E1 E2].
      apply negb_true_iff in E2.
      pose proof (signed_zero x false E1 E2) as ->.
      pose proof (signed_zero highest true E3 E4) as ->.
      destruct (IH zero eq_refl Hnan) as [N [I [L F]]].
      split; [exact N | split; [| split]].
      * destruct I as [-> | I]; auto.
      * apply (leb_trans _ zero); trivial.
      * constructor; trivial.
    + set (highest' := if (highest <? x)%float then x else highest).
      assert (Hl' : is_nan highest' = false)
        by (unfold highest'; destruct (highest <? x)%float; trivial).
      destruct (IH highest' Hl' Hnan) as [N [I [L F]]].
      assert (Hboth : (highest <=? highest')%float = true
                      /\ (x <=? highest')%float = true).
      { unfold highest'; destruct (highest <? x)%float eqn:Elt.
        - split; [apply leb_of_ltb; trivial | apply leb_refl; trivial].
        - split; [apply leb_refl; trivial | apply leb_of_not_ltb; trivial]. }
      destruct Hboth as [B1 B2].
      split; [exact N | split; [| split]].
      * destruct I as [I | I]; [| auto].
        unfold highest' in I; destruct (highest <? x)%float; auto.
      * apply (leb_trans _ highest'); trivial.
      * constructor; trivial; apply (leb_trans _ highest'); trivial.
Qed.


Lemma leb_infinity x : (infinity <=? x)%float = true -> x = infinity.
Proof.
  rewrite FloatAxioms.leb_spec; intros H; apply Prim2SF_inj.
  change (Prim2SF infinity) with (S754_infinity false) in *.
  destruct (Prim2SF x) as [s|[]| |[] m e]; try discriminate; reflexivity.
Qed.

Lemma leb_neg_infinity x : (x <=? neg_infinity)%float = true -> x = neg_infinity.
Proof.
  rewrite FloatAxioms.leb_spec; intros H; apply Prim2SF_inj.
  change (Prim2SF neg_infinity) with (S754_infinity true) in *.
  destruct (Prim2SF x) as [s|[]| |[] m e]; try discriminate; reflexivity.
Qed.

(** [Math.min.apply] and [Math.max.apply] on coerced arguments, none NaN
    and one at least: an argument below, and one above, all the others. *)
Lemma Math_min_max_spec (l : list float) :
  l <> [] -> Forall (fun x => is_nan x = false) l ->
  let lo := JS.Math_min_from infinity l in
  let hi := JS.Math_max_from neg_infinity l in
  In lo l /\ In hi l
  /\ Forall (fun x => (lo <=? x)%float = true /\ (x <=? hi)%float = true) l
  /\ (lo <=? hi)%float = true.
Proof.
  intros Hne Hnan; cbv zeta.
  destruct (Math_min_from_spec l infinity eq_refl Hnan) as [N1 [I1 [_ F1]]].
  destruct (Math_max_from_spec l neg_infinity eq_refl Hnan) as [N2 [I2 [_ F2]]].
  destruct l as [|x l]; [congruence |].
  pose proof (Forall_inv F1) as L1; pose proof (Forall_inv F2) as L2.
  pose proof (Forall_inv Hnan) as Nx.
  cbv beta in L1, L2, Nx.
  split; [| split; [| split]].
  - destruct I1 as [E | I]; trivial.
    rewrite E in L1 |- *; left; apply leb_infinity; trivial.
  - destruct I2 as [E | I]; trivial.
    rewrite E in L2 |- *; left; apply leb_neg_infinity; trivial.
  - rewrite Forall_forall in *; intros y Hy; split; auto.
  - apply (leb_trans _ x); trivial.
Qed.

(** The worst and the best quarter of a manager bracket its quarterly
    changes, a change of [null] counting as 0: when the window has a row
    and no change is NaN, each of the two is one of the changes, the worst
    is no more, and the best no less, than every change. *)
Theorem worst_and_best_bracket_the_changes {host : Calendar.Host}
    (rawData : list Observation) (ft period c : string) :
  let changes := map JS.ToNumber (relChanges rawData ft period c) in
  let worst := worstVal rawData ft period c in
  let best := bestVal rawData ft period c in
  changes <> [] ->
  Forall (fun x => is_nan x = false) changes ->
  In worst changes /\ In best changes
  /\ Forall (fun x => (worst <=? x)%float = true
                      /\ (x <=? best)%float = true) changes
  /\ (worst <=? best)%float = true.
Proof.
  cbv zeta; intros Hne Hnan.
  apply (Math_min_max_spec _ Hne Hnan).
Qed.

Section ExtremesExample.
#[local] Existing Instance Calendar.UTC_zone.

Lemma worst_and_best_bracket_the_changes_witness :
  let changes := map JS.ToNumber (relChanges gap_data "X" "YTD" "A") in
  let worst := worstVal gap_data "X" "YTD" "A" in
  let best := bestVal gap_data "X" "YTD" "A" in
  changes = [0; 2; 3]%float
  /\ (In worst changes /\ In best changes
      /\ Forall (fun x => (worst <=? x)%float = true
                          /\ (x <=? best)%float = true) changes
      /\ (worst <=? best)%float = true).
Proof.
  split; [vm_compute; reflexivity |].
  apply (worst_and_best_bracket_the_changes gap_data "X" "YTD" "A").
  - vm_compute; discriminate.
  - vm_compute; repeat constructor.
Defined.

End ExtremesExample.

(** ** Periods the resolver does not know *)

Lemma getRange_unknown {host : Calendar.Host} rawData data period :
  period <> "YTD"%string -> period <> "ALL"%string ->
  parse_years period = None ->
  getRange rawData data period = (None, None).
Proof.
  intros H1 H2 H3; unfold getRange.
  apply String.eqb_neq in H1, H2; rewrite H1, H2, H3.
  destruct data; reflexivity.
Qed.

Lemma Array_sort_nil {T} (cmp : T -> T -> float) : Array_sort cmp [] = [].
Proof. reflexivity. Qed.

Lemma filter_all {T} (f : T -> bool) l :
  (forall x, In x l -> f x = true) -> filter f l = l.
Proof.
  induction l as [|x l IH]; simpl; intros H; trivial.
  rewrite (H x (or_introl eq_refl)), IH; auto.
Qed.

Lemma filter_none {T} (f : T -> bool) l :
  (forall x, In x l -> f x = false) -> filter f l = [].
Proof.
  induction l as [|x l IH]; simpl; intros H; trivial.
  rewrite (H x (or_introl eq_refl)), IH; auto.
Qed.

(** With an empty window no manager has numbers. *)
Lemma empty_window_tables {host : Calendar.Host}
    (pow_approx : float -> float -> float) (rawData : list Observation)
    (msgFundNotExist msgNoData ft period : string) :
  rangeData rawData ft period = [] ->
  let managers := companies rawData ft in
  growthRows pow_approx rawData msgFundNotExist ft period
  = map (placeholder [msgFundNotExist]) managers
  /\ avgRows pow_approx rawData msgFundNotExist ft period
     = map (placeholder [msgFundNotExist]) managers
  /\ extremesRows pow_approx rawData msgFundNotExist ft period
     = map (placeholder [msgFundNotExist; msgFundNotExist]) managers
  /\ participantsRows rawData msgFundNotExist ft period
     = map (placeholder [msgFundNotExist; msgFundNotExist]) managers
  /\ bikRows rawData msgFundNotExist msgNoData ft period
     = map (placeholder [msgFundNotExist]) managers.
Proof.
  intros E; cbv zeta.
  assert (Hno : forall c, no_data rawData ft period c = true).
  { intros c; unfold no_data, grpRange; rewrite E; reflexivity. }
  assert (Hk : kept rawData ft period = []).
  { unfold kept; apply filter_none; intros c _; rewrite Hno; reflexivity. }
  assert (Hl : left_out rawData ft period = companies rawData ft).
  { unfold left_out; apply filter_all; intros c _; apply Hno. }
  unfold growthRows, avgRows, extremesRows, participantsRows, bikRows,
    growthNumeric, avgNumeric, extremesNumeric, participantsNumeric,
    bikNumeric, growthNoData, avgNoData, extremesNoData, participantsNoData,
    bikNoData.
  rewrite Hk, Hl; repeat split; reflexivity.
Qed.

(** A period that is none of [YTD], [ALL] and a string of digits resolves
    to the range [(null, null)], whatever the rows; the comparisons with
    [null] then keep the rows dated at the epoch only, and when no row is,
    every table is the placeholder row of each manager, in the order of the
    names. *)
Theorem unknown_period_gives_placeholders {host : Calendar.Host}
    (pow_approx : float -> float -> float) (rawData : list Observation)
    (msgFundNotExist msgNoData ft period : string) :
  period <> "YTD"%string -> period <> "ALL"%string ->
  parse_years period = None ->
  let managers := companies rawData ft in
  (forall data, getRange rawData data period = (None, None))
  /\ range rawData ft period = (None, None)
  /\ rangeData rawData ft period
     = filter (fun r => report_date r =? 0) (fundData rawData ft)
  /\ ((forall r, In r rawData -> report_date r <> 0) ->
      growthRows pow_approx rawData msgFundNotExist ft period
      = map (placeholder [msgFundNotExist]) managers
      /\ avgRows pow_approx rawData msgFundNotExist ft period
         = map (placeholder [msgFundNotExist]) managers
      /\ extremesRows pow_approx rawData msgFundNotExist ft period
         = map (placeholder [msgFundNotExist; msgFundNotExist]) managers
      /\ participantsRows rawData msgFundNotExist ft period
         = map (placeholder [msgFundNotExist; msgFundNotExist]) managers
      /\ bikRows rawData msgFundNotExist msgNoData ft period
         = map (placeholder [msgFundNotExist]) managers).
Proof.
  intros H1 H2 H3; cbv zeta.
  assert (G : forall data, getRange rawData data period = (None, None))
    by (intros data; apply getRange_unknown; trivial).
  assert (R : range rawData ft period = (None, None)) by apply G.
  assert (E : rangeData rawData ft period
              = filter (fun r => report_date r =? 0) (fundData rawData ft)).
  { unfold rangeData; rewrite R.
    apply filter_ext; intros r; simpl.
    destruct (Z.leb_spec 0 (report_date r)),
      (Z.leb_spec (report_date r) 0), (Z.eqb_spec (report_date r) 0);
      simpl; trivial; lia. }
  split; [exact G | split; [exact R | split; [exact E |]]].
  intros Hepoch; apply empty_window_tables.
  rewrite E; apply filter_none; intros r Hr.
  apply Z.eqb_neq, Hepoch; unfold fundData in Hr; apply filter_In in Hr; tauto.
Qed.

Lemma unknown_period_gives_placeholders_witness :
  getRange (host := Vilnius_zone) gap_data gap_data "10Y" = (None, None)
  /\ rangeData (host := Vilnius_zone) gap_data "X" "10Y" = []
  /\ growthRows (host := Vilnius_zone) (fun _ _ => nan) gap_data "n/a" "X"
       "10Y"
     = [{| row_company := "A"; row_cells := ["n/a"%string] |}]
  /\ bikRows (host := Vilnius_zone) gap_data "n/a" "-" "X" "10Y"
     = [{| row_company := "A"; row_cells := ["n/a"%string] |}].
Proof.
  destruct (unknown_period_gives_placeholders (host := Vilnius_zone)
              (fun _ _ => nan) gap_data "n/a" "-" "X" "10Y")
    as [G [R [E H]]].
  - discriminate.
  - discriminate.
  - reflexivity.
  - split; [apply G |].
    split; [rewrite E; reflexivity |].
    destruct H as [Hg [_ [_ [_ Hb]]]].
    + intros r [<- | [<- | [<- | []]]]; discriminate.
    + rewrite Hg, Hb; split; reflexivity.
Defined.

(** ** The metrics: missing quarters *)

Section MoreMetricsFacts.
Context {num : Type} (A : Arith num).

Lemma values_app (s1 s2 : list (option num)) :
  values A (s1 ++ s2) = values A s1 ++ values A s2.
Proof.
  induction s1 as [|[x|] s1 IH]; simpl; trivial.
  destruct (a_isNaN A x); simpl; congruence.
Qed.

Lemma values_skip (v : option num) :
  is_clean A v = false -> values A [v] = [].
Proof.
  destruct v as [x|]; simpl; trivial.
  destruct (a_isNaN A x); [trivial | discriminate].
Qed.

Lemma values_perm (s s' : list (option num)) :
  Permutation s s' -> Permutation (values A s) (values A s').
Proof.
  induction 1 as [|v s s' _ IH|v w s|s s' s'' _ IH1 _ IH2]; simpl.
  - constructor.
  - destruct v as [x|]; trivial; destruct (a_isNaN A x); auto.
  - destruct v as [x|], w as [y|]; trivial;
      try destruct (a_isNaN A x); try destruct (a_isNaN A y);
      trivial; apply perm_swap.
  - etransitivity; eassumption.
Qed.
End MoreMetricsFacts.

(** A quarter whose change is missing, [null] or NaN, is skipped by both
    metrics, in every arithmetic: it neither counts as a change of 0 nor
    adds to the years; the series with it and the series without it have
    the same cumulative growth and the same annualised return. *)
Theorem missing_quarters_are_skipped
    {num : Type} (A : Arith num) (s1 s2 : list (option num))
    (v : option num) :
  is_clean A v = false ->
  geometricCumulativeGrowth A (s1 ++ v :: s2)
  = geometricCumulativeGrowth A (s1 ++ s2)
  /\ annualisedYearlyReturn A (s1 ++ v :: s2)
     = annualisedYearlyReturn A (s1 ++ s2).
Proof.
  intros H.
  assert (E : filter (is_clean A) (s1 ++ v :: s2)
              = filter (is_clean A) (s1 ++ s2)).
  { rewrite !filter_app; simpl; rewrite H; reflexivity. }
  unfold geometricCumulativeGrowth, annualisedYearlyReturn.
  rewrite E; split; reflexivity.
Qed.

Lemma missing_quarters_are_skipped_witness :
  geometricCumulativeGrowth (ieee_arith (fun _ _ => nan))
    ([Some 2%float] ++ Some nan :: [None; Some 3%float])
  = geometricCumulativeGrowth (ieee_arith (fun _ _ => nan))
      ([Some 2%float] ++ [None; Some 3%float])
  /\ annualisedYearlyReturn (ieee_arith (fun _ _ => nan))
       ([Some 2%float] ++ Some nan :: [None; Some 3%float])
     = annualisedYearlyReturn (ieee_arith (fun _ _ => nan))
         ([Some 2%float] ++ [None; Some 3%float]).
Proof.
  apply (missing_quarters_are_skipped (ieee_arith (fun _ _ => nan))
           [Some 2%float] [None; Some 3%float] (Some nan)).
  reflexivity.
Defined.

(** ** The text of a date *)

Lemma count_up_In n : forall from x,
  from <= x < from + Z.of_nat n -> In x (count_up n from).
Proof.
  induction n as [|n IH]; intros from x H; [lia |].
  simpl; destruct (Z.eq_dec from x); [left; trivial | right; apply IH; lia].
Qed.

Lemma checked_on_range (f : Z -> bool) n from :
  forallb f (count_up n from) = true ->
  forall x, from <= x < from + Z.of_nat n -> f x = true.
Proof.
  intros H x Hx; rewrite forallb_forall in H; apply H, count_up_In, Hx.
Qed.

Lemma month_text m :
  0 <= m <= 11 ->
  padStart (JS.Number_toString (getter (Some m) + 1)%float) 2 "0"
  = decimal 2 (m + 1).
Proof.
  intros H; apply String.eqb_eq.
  apply (checked_on_range
           (fun m => String.eqb
              (padStart (JS.Number_toString (getter (Some m) + 1)%float) 2 "0")
              (decimal 2 (m + 1))) 12 0); [vm_compute; reflexivity | lia].
Qed.

Lemma day_text d :
  1 <= d <= 31 ->
  padStart (JS.Number_toString (getter (Some d))) 2 "0" = decimal 2 d.
Proof.
  intros H; apply String.eqb_eq.
  apply (checked_on_range
           (fun d => String.eqb
              (padStart (JS.Number_toString (getter (Some d))) 2 "0")
              (decimal 2 d)) 31 1); [vm_compute; reflexivity | lia].
Qed.

Lemma year_text y :
  1000 <= y <= 9999 -> JS.Number_toString (getter (Some y)) = decimal 4 y.
Proof.
  intros H; apply String.eqb_eq.
  apply (checked_on_range
           (fun y => String.eqb (JS.Number_toString (getter (Some y)))
                                (decimal 4 y)) (90 * 100) 1000);
    [vm_compute; reflexivity | lia].
Qed.

Lemma DaysInMonth_max leap m : DaysInMonth leap m <= 31.
Proof.
  unfold DaysInMonth; destruct leap;
    repeat (destruct m as [|[m|m|]|]; try lia).
Qed.

(** [formatDate] writes the day on which a Date falls in the local time
    of the host: nothing for [null], [NaN-NaN-NaN] for the invalid date,
    and otherwise the year as a Number, the month and the day of the month
    in two digits each; for a year of four digits that is [YYYY-MM-DD].
    Every time value falls on a day of the host.  Midnight UTC of 31 March
    2024 reads 2024-03-31 in Vilnius and 2024-03-30 four hours behind
    UTC. *)
Theorem formatDate_writes_the_calendar_day :
  (forall host : Calendar.Host,
      formatDate None = ""%string
      /\ formatDate (Some None) = "NaN-NaN-NaN"%string
      /\ (forall t, exists y m d, local_day_is t y m d)
      /\ forall t y m d,
           local_day_is t y m d ->
           formatDate (Some (Some t))
           = (JS.Number_toString (JS.Z2float y) ++ "-" ++ decimal 2 m
              ++ "-" ++ decimal 2 d)%string
           /\ (1000 <= y <= 9999 ->
               formatDate (Some (Some t))
               = (decimal 4 y ++ "-" ++ decimal 2 m ++ "-" ++ decimal 2 d)
                   %string))
  /\ formatDate (host := Vilnius_zone) (Some (Some 1711843200000))
     = "2024-03-31"%string
  /\ formatDate (host := Calendar.fixed_zone (-4 * 3600000))
       (Some (Some 1711843200000))
     = "2024-03-30"%string
  /\ local_day_is (host := Calendar.fixed_zone (-4 * 3600000))
       1711843200000 2024 3 30.
Proof.
  split; [intros host | split; [| split]].
  - split; [reflexivity | split; [vm_compute; reflexivity |]].
    split; [apply local_day_exists |].
    intros t y m d Hday.
    destruct (local_fields t y m d Hday) as [HY [HM HD]].
    destruct Hday as [[Hm Hd] _].
    assert (Hmax : d <= 31).
    { rewrite month_length_DaysInMonth in Hd by trivial.
      pose proof (DaysInMonth_max (Calendar.InLeapYear y) (m - 1)); lia. }
    assert (E : formatDate (Some (Some t))
                = (JS.Number_toString (JS.Z2float y) ++ "-" ++ decimal 2 m
                   ++ "-" ++ decimal 2 d)%string).
    { unfold formatDate; rewrite HY, HM, HD; cbv zeta.
      rewrite (month_text (m - 1)), (day_text d) by lia.
      replace (m - 1 + 1) with m by lia; reflexivity. }
    split; [exact E |].
    intros Hy; rewrite E.
    change (JS.Z2float y) with (getter (Some y)).
    rewrite (year_text y Hy); reflexivity.
  - vm_compute; reflexivity.
  - vm_compute; reflexivity.
  - split; [split; [lia | vm_compute; split; discriminate]
           | vm_compute; reflexivity].
Qed.

(** ** The year-to-date window *)

Section YearToDate.
Import Calendar.

Lemma civil_day_before_next_year y m d :
  civil_date y m d -> civil_day y m d < civil_day (y + 1) 1 1.
Proof.
  intros [Hm Hd].
  rewrite month_length_DaysInMonth in Hd by trivial.
  rewrite !civil_day_MakeDay by lia.
  unfold MakeDay.
  rewrite !Z.div_small, !Z.mod_small, !Z.add_0_r by lia.
  change (1 - 1) with 0; cbn [MonthStart].
  rewrite (DayFromYear_step y).
  pose proof (MonthStart_bounds (InLeapYear y) (m - 1) ltac:(lia)) as [_ B].
  unfold DaysInYear in B; destruct (InLeapYear y); lia.
Qed.

Lemma newDate_Jan1_civil {host : Host} y :
  ~ (0 <= y <= 99) ->
  let midnight := civil_day y 1 1 * 86400000 in
  newDate_Jan1 (Some y) = TimeClip (midnight - LocalTZA midnight false).
Proof.
  intros Hy; unfold newDate_Jan1.
  replace ((0 <=? y) && (y <=? 99)) with false.
  - rewrite (civil_day_MakeDay y 1 1) by lia.
    unfold UTC, MakeDate, msPerDay; change (1 - 1) with 0.
    rewrite !Z.add_0_r; reflexivity.
  - symmetry; apply andb_false_iff.
    destruct (Z.leb_spec 0 y); [right; apply Z.leb_gt; lia | left; trivial].
Qed.

(** Under YTD the window of the tables starts with the local year of the
    latest observation of the fund type: the range runs from the first
    instant of 1 January of that year, in the local time of the host, to
    the latest report date, and the rows in it are the rows of the fund
    type dated from that instant on.  On a host at a fixed offset from UTC
    these are the rows that fall in that year of the host. *)
Theorem ytd_window_is_the_latest_calendar_year {host : Host}
    (rawData : list Observation) (ft : string) (hi y m d : Z) :
  is_max_of hi (map report_date (fundData rawData ft)) ->
  local_day_is hi y m d ->
  ~ (0 <= y <= 99) ->
  let midnight := civil_day y 1 1 * 86400000 in
  let start := midnight - LocalTZA midnight false in
  Z.abs start <= 8640000000000000 ->
  range rawData ft "YTD" = (Some (Some start), Some (Some hi))
  /\ rangeData rawData ft "YTD"
     = filter (fun r => start <=? report_date r) (fundData rawData ft)
  /\ forall offset,
       (forall t b, LocalTZA t b = offset) ->
       rangeData rawData ft "YTD"
       = filter (fun r =>
                   let day := (report_date r + offset) / 86400000 in
                   (civil_day y 1 1 <=? day) && (day <? civil_day (y + 1) 1 1))
                (fundData rawData ft).
Proof.
  intros Hmax Hday Hy midnight start Hclip.
  assert (E : range rawData ft "YTD" = (Some (Some start), Some (Some hi))).
  { unfold range, baseData; change (String.eqb "YTD" "ALL") with false.
    cbv iota; unfold getRange.
    destruct (fundData rawData ft) as [|r0 rest] eqn:Ef;
      [destruct Hmax as [[] _] |].
    rewrite <- Ef in Hmax |- *.
    change (String.eqb "YTD" "YTD") with true; cbv iota.
    unfold getYtdRange; cbv zeta.
    rewrite (latest_of_max hi _ Hmax).
    destruct (local_fields hi y m d Hday) as [-> _].
    rewrite (newDate_Jan1_civil y Hy); cbv zeta; fold midnight; fold start.
    unfold TimeClip.
    replace (Z.abs start <=? 8640000000000000) with true
      by (symmetry; apply Z.leb_le; trivial).
    reflexivity. }
  assert (W : rangeData rawData ft "YTD"
              = filter (fun r => start <=? report_date r)
                       (fundData rawData ft)).
  { unfold rangeData; rewrite E; cbn [fst snd not_before not_after].
    apply filter_ext_in; intros r Hr.
    assert (Hle : report_date r <= hi)
      by (destruct Hmax as [_ H]; apply H, in_map; trivial).
    apply Z.leb_le in Hle; rewrite Hle; apply andb_true_r. }
  split; [exact E | split; [exact W |]].
  intros offset Hoff; rewrite W.
  apply filter_ext_in; intros r Hr; cbv zeta.
  assert (Hle : report_date r <= hi)
    by (destruct Hmax as [_ H]; apply H, in_map; trivial).
  destruct Hday as [Hc Hd]; rewrite Hoff in Hd.
  pose proof (civil_day_before_next_year y m d Hc) as Hnext.
  assert (Hup : (report_date r + offset) / 86400000 < civil_day (y + 1) 1 1).
  { apply Z.le_lt_trans with ((hi + offset) / 86400000); [| lia].
    apply Z.div_le_mono; lia. }
  apply Z.ltb_lt in Hup; rewrite Hup, andb_true_r.
  unfold start; rewrite Hoff; unfold midnight.
  apply eq_iff_eq_true; rewrite !Z.leb_le.
  split; intros H.
  - apply Z.div_le_lower_bound; lia.
  - pose proof (Z.mul_div_le (report_date r + offset) 86400000 ltac:(lia)).
    nia.
Qed.

Lemma ytd_window_is_the_latest_calendar_year_witness :
  (range (host := fixed_zone (-5 * 3600000)) new_year_data "X" "YTD"
   = (Some (Some 1704085200000), Some (Some Q1_2024))
   /\ map report_date
        (rangeData (host := fixed_zone (-5 * 3600000)) new_year_data "X" "YTD")
      = [Q1_2024]
   /\ map report_date (rangeData (host := UTC_zone) new_year_data "X" "YTD")
      = [1704067200000; Q1_2024])
  /\ let midnight := civil_day 2024 1 1 * 86400000 in
     let start := midnight - (-5 * 3600000) in
     range (host := fixed_zone (-5 * 3600000)) new_year_data "X" "YTD"
     = (Some (Some start), Some (Some Q1_2024))
     /\ rangeData (host := fixed_zone (-5 * 3600000)) new_year_data "X" "YTD"
        = filter (fun r => start <=? report_date r)
                 (fundData new_year_data "X")
     /\ forall offset,
          (forall (t : Z) (b : bool), -5 * 3600000 = offset) ->
          rangeData (host := fixed_zone (-5 * 3600000)) new_year_data "X" "YTD"
          = filter (fun r =>
                      let day := (report_date r + offset) / 86400000 in
                      (civil_day 2024 1 1 <=? day)
                      && (day <? civil_day (2024 + 1) 1 1))
                   (fundData new_year_data "X").
Proof.
  split; [vm_compute; repeat split; reflexivity |].
  apply (ytd_window_is_the_latest_calendar_year
           (host := fixed_zone (-5 * 3600000)) new_year_data "X" Q1_2024
           2024 3 30).
  - assert (E : map report_date (fundData new_year_data "X")
                 = [1704067200000; Q1_2024]) by reflexivity.
    rewrite E; split; [right; left; reflexivity |].
    intros t [<- | [<- | []]]; vm_compute; discriminate.
  - split; [split; [lia | vm_compute; split; discriminate]
           | vm_compute; reflexivity].
  - lia.
  - vm_compute; discriminate.
Defined.
End YearToDate.

(** ** Trailing years on quarterly data *)

Section Quarters.
Import Calendar.

Lemma MakeDay_split y M a r d :
  M = 12 * a + r -> 0 <= r <= 11 ->
  MakeDay y M d
  = DayFromYear (y + a) + MonthStart (InLeapYear (y + a)) r + d - 1.
Proof.
  intros -> Hr; unfold MakeDay.
  replace ((12 * a + r) / 12) with a
    by (apply (Z.div_unique _ _ _ r); lia).
  replace ((12 * a + r) mod 12) with r
    by (apply (Z.mod_unique _ _ a); lia).
  reflexivity.
Qed.

(** The day number of the end of quarter [4 * a + q]. *)
Lemma quarter_end_day a q :
  0 <= q <= 3 ->
  quarter_end (4 * a + q)
  = (DayFromYear (1970 + a)
     + MonthStart (InLeapYear (1970 + a)) (3 * q + 2)
     + last_day q - 1) * msPerDay.
Proof.
  intros Hq; unfold quarter_end, MakeDate, last_day.
  replace ((4 * a + q) mod 4) with q
    by (apply (Z.mod_unique _ _ a); lia).
  rewrite (MakeDay_split 1970 _ a (3 * q + 2)) by lia.
  lia.
Qed.

Lemma quarter_split k : exists a q, k = 4 * a + q /\ 0 <= q <= 3.
Proof.
  exists (k / 4), (k mod 4); pose proof (Z.div_mod k 4);
    pose proof (Z.mod_pos_bound k 4); lia.
Qed.

Ltac quarters q :=
  let C := fresh in
  assert (C : q = 0 \/ q = 1 \/ q = 2 \/ q = 3) by lia;
  destruct C as [-> | [-> | [-> | ->]]].

Lemma quarter_end_next k : quarter_end k < quarter_end (k + 1).
Proof.
  destruct (quarter_split k) as [a [q [-> Hq]]].
  rewrite (quarter_end_day a q Hq).
  quarters q.
  - replace (4 * a + 0 + 1) with (4 * a + 1) by lia.
    rewrite (quarter_end_day a 1) by lia.
    unfold msPerDay; destruct (InLeapYear (1970 + a)); cbn; lia.
  - replace (4 * a + 1 + 1) with (4 * a + 2) by lia.
    rewrite (quarter_end_day a 2) by lia.
    unfold msPerDay; destruct (InLeapYear (1970 + a)); cbn; lia.
  - replace (4 * a + 2 + 1) with (4 * a + 3) by lia.
    rewrite (quarter_end_day a 3) by lia.
    unfold msPerDay; destruct (InLeapYear (1970 + a)); cbn; lia.
  - replace (4 * a + 3 + 1) with (4 * (a + 1) + 0) by lia.
    rewrite (quarter_end_day (a + 1) 0) by lia.
    replace (1970 + (a + 1)) with (1970 + a + 1) by lia.
    rewrite (DayFromYear_step (1970 + a)).
    unfold msPerDay;
      destruct (InLeapYear (1970 + a)), (InLeapYear (1970 + a + 1)); cbn; lia.
Qed.

Lemma quarter_end_increasing k k' : k < k' -> quarter_end k < quarter_end k'.
Proof.
  intros H; replace k' with (k + 1 + Z.of_nat (Z.to_nat (k' - k - 1))) by lia.
  induction (Z.to_nat (k' - k - 1)) as [|n IH].
  - rewrite Z.add_0_r; apply quarter_end_next.
  - eapply Z.lt_trans; [exact IH |].
    replace (k + 1 + Z.of_nat (S n)) with (k + 1 + Z.of_nat n + 1) by lia.
    apply quarter_end_next.
Qed.

Lemma quarter_end_order k k' : quarter_end k <= quarter_end k' <-> k <= k'.
Proof.
  split; intros H.
  - destruct (Z_le_gt_dec k k'); trivial.
    pose proof (quarter_end_increasing k' k); lia.
  - destruct (Z.eq_dec k k') as [-> | N]; [lia |].
    pose proof (quarter_end_increasing k k'); lia.
Qed.

(** The end of a quarter is midnight UTC of a civil day. *)
Lemma quarter_end_civil a q :
  0 <= q <= 3 ->
  quarter_end (4 * a + q)
  = civil_day (1970 + a) (3 * q + 3) (last_day q) * 86400000
  /\ month_length (1970 + a) (3 * q + 3) = last_day q.
Proof.
  intros Hq; rewrite (quarter_end_day a q Hq), civil_day_MakeDay by lia.
  replace (3 * q + 3 - 1) with (3 * q + 2) by lia.
  rewrite (MakeDay_split (1970 + a) _ 0 (3 * q + 2)) by lia.
  replace (1970 + a + 0) with (1970 + a) by lia.
  split; [reflexivity |].
  quarters q; reflexivity.
Qed.

(** Counting [N * 12 - 1] months back from the end of quarter [K] in UTC
    gives a time well between the ends of the quarters [K - 4N] and
    [K - 4N + 1]. *)
Lemma quarterly_cutoff_margin a q N :
  0 <= q <= 3 -> 1 <= N ->
  let c := MakeDay (1970 + a) (3 * q + 2 - (N * 12 - 1)) (last_day q)
           * msPerDay in
  quarter_end (4 * a + q - 4 * N) + 2 * msPerDay <= c
  /\ c <= quarter_end (4 * a + q - 4 * N + 1) - 2 * msPerDay.
Proof.
  intros Hq HN c; unfold c, last_day.
  replace (4 * a + q - 4 * N) with (4 * (a - N) + q) by lia.
  rewrite (quarter_end_day (a - N) q Hq); unfold last_day.
  replace (1970 + (a - N)) with (1970 + a - N) by lia.
  quarters q.
  - rewrite (MakeDay_split _ _ (- N) 3) by lia.
    replace (4 * (a - N) + 0 + 1) with (4 * (a - N) + 1) by lia.
    rewrite (quarter_end_day (a - N) 1) by lia.
    replace (1970 + (a - N)) with (1970 + a - N) by lia.
    replace (1970 + a + - N) with (1970 + a - N) by lia.
    unfold msPerDay; destruct (InLeapYear (1970 + a - N)); cbn; lia.
  - rewrite (MakeDay_split _ _ (- N) 6) by lia.
    replace (4 * (a - N) + 1 + 1) with (4 * (a - N) + 2) by lia.
    rewrite (quarter_end_day (a - N) 2) by lia.
    replace (1970 + (a - N)) with (1970 + a - N) by lia.
    replace (1970 + a + - N) with (1970 + a - N) by lia.
    unfold msPerDay; destruct (InLeapYear (1970 + a - N)); cbn; lia.
  - rewrite (MakeDay_split _ _ (- N) 9) by lia.
    replace (4 * (a - N) + 2 + 1) with (4 * (a - N) + 3) by lia.
    rewrite (quarter_end_day (a - N) 3) by lia.
    replace (1970 + (a - N)) with (1970 + a - N) by lia.
    replace (1970 + a + - N) with (1970 + a - N) by lia.
    unfold msPerDay; destruct (InLeapYear (1970 + a - N)); cbn; lia.
  - rewrite (MakeDay_split _ _ (1 - N) 0) by lia.
    replace (4 * (a - N) + 3 + 1) with (4 * (a - N + 1) + 0) by lia.
    rewrite (quarter_end_day (a - N + 1) 0) by lia.
    replace (1970 + (a - N + 1)) with (1970 + a - N + 1) by lia.
    replace (1970 + a + (1 - N)) with (1970 + a - N + 1) by lia.
    rewrite (DayFromYear_step (1970 + a - N)).
    unfold msPerDay;
      destruct (InLeapYear (1970 + a - N)), (InLeapYear (1970 + a - N + 1));
      cbn; lia.
Qed.

Lemma MakeDay_date y M d d' : MakeDay y M d = MakeDay y M d' + (d - d').
Proof. unfold MakeDay; lia. Qed.

Context {host : Host}.
Hypothesis offsets_within_a_day :
  forall t b, - 86400000 < LocalTZA t b < 86400000.

(** On a host whose offsets from UTC stay within a day, the end of a
    quarter falls on the last day of the quarter or on the day before. *)
Lemma quarter_end_local_day a q :
  0 <= q <= 3 ->
  let t := quarter_end (4 * a + q) in
  let z := LocalTZA t true in
  let d := if 0 <=? z then last_day q else last_day q - 1 in
  local_day_is t (1970 + a) (3 * q + 3) d
  /\ (d - last_day q) * 86400000 + (t + z) mod 86400000 = z.
Proof.
  intros Hq t z d.
  destruct (quarter_end_civil a q Hq) as [Et El]; fold t in Et.
  pose proof (offsets_within_a_day t true) as Hz; fold z in Hz.
  assert (Hl : 30 <= last_day q <= 31)
    by (unfold last_day; destruct ((q =? 0) || (q =? 3)); lia).
  assert (Ed : civil_day (1970 + a) (3 * q + 3) d
               = civil_day (1970 + a) (3 * q + 3) (last_day q)
                 + (d - last_day q))
    by (unfold civil_day; lia).
  set (D := civil_day (1970 + a) (3 * q + 3) (last_day q)) in *.
  unfold local_day_is, civil_date; fold z; rewrite El, Ed.
  clearbody z; rewrite Et; clear Et; clearbody D.
  unfold d; destruct (Z.leb_spec 0 z).
  - split; [split; [split; lia |] |].
    + symmetry; apply (Z.div_unique _ _ _ z); lia.
    + replace (D * 86400000 + z) with (z + D * 86400000) by lia.
      rewrite Z_mod_plus_full, Z.mod_small; lia.
  - split; [split; [split; lia |] |].
    + symmetry; apply (Z.div_unique _ _ _ (z + 86400000)); lia.
    + replace (D * 86400000 + z) with (z + 86400000 + (D - 1) * 86400000)
        by lia.
      rewrite Z_mod_plus_full, Z.mod_small; lia.
Qed.

(** On the end of quarter [K], [N * 12 - 1] months back is a Date strictly
    between the ends of the quarters [K - 4N] and [K - 4N + 1]. *)
Lemma quarterly_cutoff K N :
  1 <= N ->
  quarter_end K <= 8640000000000000 ->
  -8640000000000000 <= quarter_end (K - 4 * N) ->
  exists y m d c,
    local_day_is (quarter_end K) y m d
    /\ months_back (N * 12 - 1) (quarter_end K) y m d = Some c
    /\ quarter_end (K - 4 * N) < c < quarter_end (K - 4 * N + 1).
Proof.
  intros HN Hhi Hlo.
  destruct (quarter_split K) as [a [q [-> Hq]]].
  destruct (quarter_end_local_day a q Hq) as [Hday Etod].
  cbv zeta in Hday, Etod.
  set (t := quarter_end (4 * a + q)) in *.
  set (z := LocalTZA t true) in *.
  set (d := if 0 <=? z then last_day q else last_day q - 1) in *.
  destruct (quarterly_cutoff_margin a q N Hq HN) as [M1 M2].
  cbv zeta in M1, M2.
  set (c0 := MakeDay (1970 + a) (3 * q + 2 - (N * 12 - 1)) (last_day q)
             * msPerDay) in *.
  pose proof (proj2 (quarter_end_order (4 * a + q - 4 * N + 1) (4 * a + q))
                ltac:(lia)) as Hle.
  fold t in Hle.
  (* the local cutoff is the UTC one moved by the offset *)
  assert (Elocal :
            (civil_day ((12 * (1970 + a) + (3 * q + 3 - 1) - (N * 12 - 1)) / 12)
               ((12 * (1970 + a) + (3 * q + 3 - 1) - (N * 12 - 1)) mod 12 + 1)
               1 + (d - 1)) * 86400000
            + (t + LocalTZA t true) mod 86400000
            = c0 + z).
  { pose proof (MakeDay_months_back (1970 + a) (3 * q + 3) d (N * 12 - 1)
                  ltac:(lia)) as E.
    cbv zeta in E; rewrite <- E.
    replace (3 * q + 3 - 1 - (N * 12 - 1)) with (3 * q + 2 - (N * 12 - 1))
      by lia.
    rewrite (MakeDay_date _ _ d (last_day q)).
    fold z; unfold c0, msPerDay; lia. }
  exists (1970 + a), (3 * q + 3), d.
  pose proof (offsets_within_a_day (c0 + z) false) as Hz'.
  pose proof (offsets_within_a_day t true) as Hz; fold z in Hz.
  exists (c0 + z - LocalTZA (c0 + z) false).
  split; [exact Hday | split].
  - unfold months_back; cbv zeta; rewrite Elocal.
    replace (Z.abs (c0 + z - LocalTZA (c0 + z) false) <=? 8640000000000000)
      with true; trivial.
    symmetry; apply Z.leb_le; unfold msPerDay in *; lia.
  - unfold msPerDay in *; lia.
Qed.

(** On quarterly data, observations dated at ends of quarters, a trailing
    period of [N] years is the last [4 * N] quarters, on every host whose
    offsets from UTC stay within a day: with the latest observation at the
    end of quarter [K], the range runs to that date from the earliest
    report date after the end of quarter [K - 4N], and the rows not before
    its start are the rows dated at the ends of the quarters [K - 4N + 1]
    to [K]. *)
Theorem trailing_window_holds_the_last_quarters
    (rawData data : list Observation) (period : string) (N K : Z) :
  parse_years period = Some N -> 1 <= N ->
  Forall (fun r => exists j, report_date r = quarter_end j) data ->
  is_max_of (quarter_end K) (map report_date data) ->
  quarter_end K <= 8640000000000000 ->
  -8640000000000000 <= quarter_end (K - 4 * N) ->
  exists start,
    getRange rawData data period
    = (Some (Some start), Some (Some (quarter_end K)))
    /\ is_min_of start
         (filter (fun t => quarter_end (K - 4 * N) <? t)
                 (map report_date data))
    /\ forall r, In r data ->
         (start <= report_date r <->
          exists j, K - 4 * N < j <= K /\ report_date r = quarter_end j).
Proof.
  intros Hp HN Hq Hmax Hhi Hlo.
  destruct (quarterly_cutoff K N HN Hhi Hlo) as [y [m [d [c [Hday [Ec Hc]]]]]].
  destruct (parse_years_not_keyword period N Hp) as [Hytd Hall].
  assert (Hne : data <> [])
    by (destruct Hmax as [I _]; intros ->; destruct I).
  assert (Hrange : getRange rawData data period
                   = getPreviousYearRange data (N * 12)).
  { unfold getRange; rewrite Hytd, Hall, Hp.
    destruct data; [congruence | reflexivity]. }
  rewrite Hrange,
    (previous_year_range_candidates data (N * 12) _ y m d Hmax Hday), Ec.
  (* the cutoff and the end of quarter [K - 4N] part the report dates alike *)
  assert (Hsame : filter (strictly_after (Some c)) (map report_date data)
                  = filter (fun t => quarter_end (K - 4 * N) <? t)
                           (map report_date data)).
  { apply filter_ext_in; intros t Ht; apply in_map_iff in Ht.
    destruct Ht as [r [<- Hr]].
    rewrite Forall_forall in Hq; destruct (Hq r Hr) as [j ->].
    unfold strictly_after.
    destruct (Z_le_gt_dec j (K - 4 * N)) as [Hj | Hj].
    - pose proof (proj2 (quarter_end_order j (K - 4 * N)) Hj).
      transitivity false; [| symmetry]; apply Z.ltb_ge; lia.
    - pose proof (proj2 (quarter_end_order (K - 4 * N + 1) j) ltac:(lia)).
      pose proof (quarter_end_increasing (K - 4 * N) j ltac:(lia)).
      transitivity true; [| symmetry]; apply Z.ltb_lt; lia. }
  rewrite Hsame.
  assert (Hin : In (quarter_end K)
                  (filter (fun t => quarter_end (K - 4 * N) <? t)
                          (map report_date data))).
  { apply filter_In; split; [apply Hmax |].
    apply Z.ltb_lt, quarter_end_increasing; lia. }
  clear Hsame.
  destruct (filter _ (map report_date data)) as [|t ts] eqn:Ef;
    [destruct Hin |].
  destruct (earliest_spec (t :: ts)) as [s [Es Hs]]; [discriminate |].
  exists s; split; [rewrite Es; reflexivity | split; [exact Hs |]].
  intros r Hr.
  rewrite Forall_forall in Hq; destruct (Hq r Hr) as [j Ej].
  assert (Hs' : In s (t :: ts)) by apply Hs.
  rewrite <- Ef in Hs'; apply filter_In in Hs'; destruct Hs' as [_ Hs'].
  apply Z.ltb_lt in Hs'.
  assert (HjK : j <= K).
  { apply quarter_end_order; rewrite <- Ej; apply Hmax, in_map; trivial. }
  split.
  - intros H; exists j; split; [split; trivial |]; trivial.
    destruct (Z_le_gt_dec j (K - 4 * N)) as [Hj | Hj]; [| lia].
    pose proof (proj2 (quarter_end_order j (K - 4 * N)) Hj); lia.
  - intros [j' [Hj' Ej']].
    apply Hs; rewrite <- Ef; apply filter_In; split; [apply in_map; trivial |].
    rewrite Ej'; apply Z.ltb_lt, quarter_end_increasing; lia.
Qed.
End Quarters.

Lemma Vilnius_offsets t b :
  - 86400000 < Calendar.LocalTZA (Host := Vilnius_zone) t b < 86400000.
Proof.
  unfold Vilnius_zone, Calendar.LocalTZA.
  destruct (Vilnius_summer _); lia.
Qed.

Lemma trailing_window_holds_the_last_quarters_witness :
  getRange (host := Vilnius_zone) [] gap_data "1"
  = (Some (Some Q1_2024), Some (Some Q3_2024))
  /\ exists start,
       getRange (host := Vilnius_zone) [] gap_data "1"
       = (Some (Some start), Some (Some (quarter_end 218)))
       /\ is_min_of start
            (filter (fun t => quarter_end (218 - 4 * 1) <? t)
                    (map report_date gap_data))
       /\ forall r, In r gap_data ->
            (start <= report_date r <->
             exists j, 218 - 4 * 1 < j <= 218 /\ report_date r = quarter_end j).
Proof.
  split; [vm_compute; reflexivity |].
  apply (trailing_window_holds_the_last_quarters (host := Vilnius_zone)
           Vilnius_offsets [] gap_data "1" 1 218).
  - reflexivity.
  - lia.
  - repeat constructor;
      [exists 216 | exists 217 | exists 218]; vm_compute; reflexivity.
  - split; [right; right; left; vm_compute; reflexivity |].
    intros y [<- | [<- | [<- | []]]]; vm_compute; discriminate.
  - vm_compute; discriminate.
  - vm_compute; discriminate.
Defined.

(** ** The period buttons *)

Section ForEachFacts.
Variable f : Radio -> ButtonLabel -> Radio * ButtonLabel.
Variable g : Radio -> Radio.
Variable h : Radio -> ButtonLabel -> ButtonLabel.
Hypothesis f_radio : forall r l, fst (f r l) = g r.
Hypothesis f_label : forall r l, snd (f r l) = h r l.

(** With a label for every radio the loop ends, each radio and its label
    replaced by the callback's; the labels past the radios stay. *)
Lemma forEach_with_label_spec radios : forall labels,
  (List.length radios <= List.length labels)%nat ->
  forEach_with_label f radios labels
  = Some (map g radios,
          map (fun rl => h (fst rl) (snd rl)) (combine radios labels)
          ++ skipn (List.length radios) labels).
Proof.
  induction radios as [|r rs IH]; intros [|l ls] Hlen; simpl in *;
    try reflexivity; try lia.
  rewrite IH by lia; rewrite f_radio, f_label; reflexivity.
Qed.
End ForEachFacts.

Lemma set_checked_value i b radios :
  map value (set_checked i b radios) = map value radios.
Proof.
  revert i; induction radios as [|r rs IH]; intros [|i]; simpl; trivial.
  - f_equal; destruct b; trivial.
    rewrite map_map; reflexivity.
  - rewrite IH; destruct b; reflexivity.
Qed.

Lemma set_checked_disabled i b radios :
  map disabled (set_checked i b radios) = map disabled radios.
Proof.
  revert i; induction radios as [|r rs IH]; intros [|i]; simpl; trivial.
  - f_equal; destruct b; trivial.
    rewrite map_map; reflexivity.
  - rewrite IH; destruct b; reflexivity.
Qed.

Lemma set_checked_length i b radios :
  List.length (set_checked i b radios) = List.length radios.
Proof.
  rewrite <- (length_map value), set_checked_value, length_map; reflexivity.
Qed.

(** Checking is the one way a radio gets checked: a radio that is checked
    after [radios[i].checked = b] is the radio [i] with [b] true, or was
    checked before. *)
Lemma set_checked_checked i b radios j r' :
  nth_error (set_checked i b radios) j = Some r' -> checked r' = true ->
  (j = i /\ b = true)
  \/ (j <> i /\ exists r, nth_error radios j = Some r /\ checked r = true
                          /\ value r = value r').
Proof.
  revert i j; induction radios as [|r rs IH]; intros [|i] [|j]; simpl;
    try discriminate.
  - intros E C; injection E as <-; simpl in C; left; auto.
  - intros E C; right; split; [discriminate |].
    destruct b.
    + rewrite nth_error_map in E.
      destruct (nth_error rs j); [| discriminate].
      injection E as <-; discriminate.
    + exists r'; auto.
  - intros E C; injection E as <-; right; split; [discriminate |].
    destruct b; [discriminate |]; exists r; auto.
  - intros E C; destruct (IH i j E C) as [[-> ->] | [N H]]; [left; auto |].
    right; split; [congruence | exact H].
Qed.

Lemma nth_error_value (radios radios' : list Radio) j r' :
  map value radios' = map value radios ->
  nth_error radios' j = Some r' ->
  exists r, nth_error radios j = Some r /\ value r = value r'.
Proof.
  intros E H.
  assert (Hv : nth_error (map value radios') j = Some (value r'))
    by (rewrite nth_error_map, H; reflexivity).
  rewrite E, nth_error_map in Hv.
  destruct (nth_error radios j) as [r|]; [| discriminate].
  exists r; split; trivial; injection Hv; trivial.
Qed.

(** The second loop of [updatePeriodButtons], from index [s] on. *)
Lemma check_loop_spec (target : string) n : forall s radios,
  (forall j r, (j < s)%nat -> nth_error radios j = Some r ->
               checked r = true -> value r = target) ->
  (s + n = List.length radios)%nat ->
  let radios' := fold_left (check target) (seq s n) radios in
  map value radios' = map value radios
  /\ map disabled radios' = map disabled radios
  /\ Forall (fun r => checked r = true -> value r = target) radios'.
Proof.
  induction n as [|n IH]; intros s radios Hinv Hlen; cbv zeta.
  - simpl; split; [trivial | split; [trivial |]].
    apply Forall_forall; intros r Hr.
    apply In_nth_error in Hr; destruct Hr as [j Hj].
    apply (Hinv j); trivial.
    assert (j < List.length radios)%nat
      by (apply nth_error_Some; congruence).
    lia.
  - simpl seq; simpl fold_left.
    set (b := match nth_error radios s with
              | Some r => String.eqb (value r) target
              | None => false
              end).
    change (check target radios s) with (set_checked s b radios).
    destruct (IH (S s) (set_checked s b radios)) as [V [D F]].
    + intros j r' Hj E C.
      destruct (set_checked_checked s b radios j r' E C)
        as [[-> Hb] | [N [r [Er [Cr Vr]]]]].
      * destruct (nth_error_value radios _ s r' (set_checked_value s b radios) E)
          as [r [Er Vr]].
        unfold b in Hb; rewrite Er in Hb; apply String.eqb_eq in Hb.
        congruence.
      * rewrite <- Vr; apply (Hinv j r); trivial; lia.
    + rewrite set_checked_length; lia.
    + cbv zeta in V, D, F.
      rewrite V, D, set_checked_value, set_checked_disabled; auto.
Qed.

Lemma selected_of_checked (target : string) radios :
  Forall (fun r => checked r = true -> value r = target) radios ->
  target = "YTD"%string ->
  getSelectedPeriod radios = "YTD"%string
  /\ forall r, find checked radios = Some r -> value r = "YTD"%string.
Proof.
  intros F ->; unfold getSelectedPeriod.
  destruct (find checked radios) as [r|] eqn:E; [| split; [trivial | discriminate]].
  apply find_some in E; destruct E as [Hin Hc].
  rewrite Forall_forall in F; specialize (F r Hin Hc).
  split; [exact F | intros r' E'; injection E' as <-; exact F].
Qed.


Lemma updatePeriodButtons_runs rawData mgr ft page :
  ft <> ""%string -> fundData rawData ft <> [] ->
  (List.length (periodRadios page) <= List.length (periodLabels page))%nat ->
  let limit := maxButtonYears rawData mgr ft in
  let radios := map (fun r => fst (able limit r {| has_disabled := false; has_active := false |})) (periodRadios page) in
  let labels :=
    map (fun rl => snd (able limit (fst rl) (snd rl)))
        (combine (periodRadios page) (periodLabels page))
    ++ skipn (List.length (periodRadios page)) (periodLabels page) in
  updatePeriodButtons rawData (Some ft) mgr page
  = if existsb (String.eqb (getSelectedPeriod (periodRadios page)))
         (validPeriods limit (periodRadios page))
    then Some {| periodRadios := radios; periodLabels := labels |}
    else Some {| periodRadios :=
                   fold_left (check "YTD") (seq 0 (List.length radios)) radios;
                 periodLabels :=
                   map (fun rl => snd (activate "YTD" (fst rl) (snd rl)))
                       (combine radios labels)
                   ++ skipn (List.length radios) labels |}.
Proof.
  intros Hft Hdata Hlen; cbv zeta.
  unfold updatePeriodButtons.
  destruct ft as [|a ft']; [congruence |].
  destruct rawData as [|r0 rest] eqn:Eraw; [exfalso; apply Hdata; reflexivity |].
  rewrite <- Eraw in *.
  destruct (fundData rawData (String a ft')) as [|f0 frest] eqn:Ef;
    [congruence |].
  rewrite (forEach_with_label_spec (able (maxButtonYears rawData mgr (String a ft')))
             (fun r => fst (able (maxButtonYears rawData mgr (String a ft')) r {| has_disabled := false; has_active := false |}))
             (fun r l => snd (able (maxButtonYears rawData mgr (String a ft')) r l))) by (trivial || reflexivity).
  destruct (existsb _ _); [reflexivity |].
  rewrite (forEach_with_label_spec (activate "YTD") (fun r => r)
             (fun r l => snd (activate "YTD" r l)));
    [reflexivity | reflexivity | reflexivity |].
  rewrite length_map, length_app, length_map, length_combine, length_skipn.
  lia.
Qed.

Lemma find_map_checked (g : Radio -> Radio) radios :
  (forall r, checked (g r) = checked r) ->
  find checked (map g radios) = option_map g (find checked radios).
Proof.
  intros Hg; induction radios as [|r rs IH]; simpl; trivial.
  rewrite Hg; destruct (checked r); trivial.
Qed.

Lemma Forall_same_fields (P : string -> bool -> Prop) radios' : forall radios,
  map value radios' = map value radios ->
  map disabled radios' = map disabled radios ->
  Forall (fun r => P (value r) (disabled r)) radios ->
  Forall (fun r => P (value r) (disabled r)) radios'.
Proof.
  induction radios' as [|r' rs' IH]; intros [|r rs] V D F; simpl in *;
    try discriminate; constructor.
  - injection V as V _; injection D as D _.
    pose proof (Forall_inv F) as H; cbv beta in H |- *.
    rewrite V, D; exact H.
  - injection V as _ V; injection D as _ D.
    apply (IH rs V D (Forall_inv_tail F)).
Qed.

Lemma able_labels limit radios : forall labels,
  (List.length radios <= List.length labels)%nat ->
  Forall (fun rl => has_disabled (snd rl) = disabled (fst rl))
    (combine
       (map (fun r => fst (able limit r {| has_disabled := false;
                                          has_active := false |})) radios)
       (map (fun rl => snd (able limit (fst rl) (snd rl)))
            (combine radios labels)
        ++ skipn (List.length radios) labels)).
Proof.
  induction radios as [|r rs IH]; intros [|l ls] Hlen; simpl in *;
    try constructor; try lia; trivial.
  apply IH; lia.
Qed.

Lemma activate_labels target radios' : forall radios labels,
  (List.length radios <= List.length labels)%nat ->
  map disabled radios' = map disabled radios ->
  Forall (fun rl => has_disabled (snd rl) = disabled (fst rl))
         (combine radios labels) ->
  Forall (fun rl => has_disabled (snd rl) = disabled (fst rl))
    (combine radios'
       (map (fun rl => snd (activate target (fst rl) (snd rl)))
            (combine radios labels)
        ++ skipn (List.length radios) labels)).
Proof.
  induction radios' as [|r' rs' IH]; intros [|r rs] [|l ls] Hlen D F;
    simpl in *; try discriminate; try constructor; try lia.
  - injection D as D _; cbn; rewrite D; apply (Forall_inv F).
  - injection D as _ D.
    apply IH; trivial; [lia | apply (Forall_inv_tail F)].
Qed.

Lemma validPeriods_values limit radios radios' :
  map value radios' = map value radios ->
  validPeriods limit radios' = validPeriods limit radios.
Proof. unfold validPeriods; intros ->; reflexivity. Qed.

(** What a run of [updatePeriodButtons] leaves. *)
Lemma updatePeriodButtons_result
    (rawData : list Observation) (mgr : option string) (ft : string)
    (page : Page) :
  ft <> ""%string -> fundData rawData ft <> [] ->
  (List.length (periodRadios page) <= List.length (periodLabels page))%nat ->
  let limit := maxButtonYears rawData mgr ft in
  exists page',
    updatePeriodButtons rawData (Some ft) mgr page = Some page'
    /\ map value (periodRadios page') = map value (periodRadios page)
    /\ Forall (fun r => disabled r = negb (enabled limit (value r)))
              (periodRadios page')
    /\ Forall (fun rl => has_disabled (snd rl) = disabled (fst rl))
              (combine (periodRadios page') (periodLabels page'))
    /\ In (getSelectedPeriod (periodRadios page'))
          (validPeriods limit (periodRadios page'))
    /\ (getSelectedPeriod (periodRadios page')
        = getSelectedPeriod (periodRadios page)
        \/ getSelectedPeriod (periodRadios page') = "YTD"%string)
    /\ (List.length (periodRadios page')
        <= List.length (periodLabels page'))%nat.
Proof.
  intros Hft Hdata Hlen limit.
  rewrite (updatePeriodButtons_runs rawData mgr ft page Hft Hdata Hlen).
  fold limit.
  set (g := fun r => fst (able limit r {| has_disabled := false;
                                          has_active := false |})).
  set (radios := map g (periodRadios page)).
  set (labels := map (fun rl => snd (able limit (fst rl) (snd rl)))
                     (combine (periodRadios page) (periodLabels page))
                 ++ skipn (List.length (periodRadios page)) (periodLabels page)).
  assert (V : map value radios = map value (periodRadios page))
    by (unfold radios; rewrite map_map; reflexivity).
  assert (B : Forall (fun r => disabled r = negb (enabled limit (value r)))
                     radios).
  { apply Forall_forall; intros r H; apply in_map_iff in H.
    destruct H as [r0 [<- _]]; reflexivity. }
  assert (L : Forall (fun rl => has_disabled (snd rl) = disabled (fst rl))
                     (combine radios labels))
    by (apply able_labels; trivial).
  assert (N : (List.length radios <= List.length labels)%nat).
  { unfold radios, labels.
    rewrite length_map, length_app, length_map, length_combine, length_skipn.
    lia. }
  assert (S : getSelectedPeriod radios = getSelectedPeriod (periodRadios page)).
  { unfold getSelectedPeriod, radios.
    rewrite (find_map_checked g) by reflexivity.
    destruct (find checked (periodRadios page)); reflexivity. }
  destruct (existsb _ _) eqn:Ev.
  - exists {| periodRadios := radios; periodLabels := labels |}.
    cbn [periodRadios periodLabels].
    apply existsb_exists in Ev; destruct Ev as [p [Hp Ep]].
    apply String.eqb_eq in Ep; subst p.
    repeat (split; trivial).
    + rewrite S, (validPeriods_values limit _ _ V); exact Hp.
    + left; exact S.
  - destruct (check_loop_spec "YTD" (List.length radios) 0%nat radios)
      as [V2 [D2 F2]]; [intros j r Hj; lia | lia |].
    cbv zeta in V2, D2, F2.
    destruct (selected_of_checked "YTD" _ F2 eq_refl) as [S2 _].
    eexists; split; [reflexivity |].
    cbn [periodRadios periodLabels].
    split; [rewrite V2; exact V |].
    split.
    { apply (Forall_same_fields
               (fun v d => d = negb (enabled limit v)) _ radios V2 D2 B). }
    split; [apply activate_labels; trivial |].
    split; [rewrite S2; left; reflexivity |].
    split; [right; exact S2 |].
    rewrite <- (length_map value), V2, !length_map, length_app, length_map,
      length_combine, length_skipn.
    lia.
Qed.


Lemma able_fixes limit radios :
  Forall (fun r => disabled r = negb (enabled limit (value r))) radios ->
  map (fun r => fst (able limit r {| has_disabled := false;
                                     has_active := false |})) radios
  = radios.
Proof.
  induction 1 as [|r rs Hr _ IH]; cbn [map]; trivial.
  rewrite IH; f_equal; destruct r as [v c d]; cbn in *; subst; reflexivity.
Qed.

Lemma able_fixes_labels limit radios : forall labels,
  (List.length radios <= List.length labels)%nat ->
  Forall (fun r => disabled r = negb (enabled limit (value r))) radios ->
  Forall (fun rl => has_disabled (snd rl) = disabled (fst rl))
         (combine radios labels) ->
  map (fun rl => snd (able limit (fst rl) (snd rl))) (combine radios labels)
  ++ skipn (List.length radios) labels
  = labels.
Proof.
  induction radios as [|r rs IH]; intros [|l ls] Hlen B L;
    cbn [combine map List.length skipn app] in *; trivial; try lia.
  rewrite IH;
    [| lia | apply (Forall_inv_tail B) | apply (Forall_inv_tail L)].
  f_equal; pose proof (Forall_inv B) as Hb; pose proof (Forall_inv L) as Hl.
  cbn in Hb, Hl; destruct l as [d a]; cbn in *; congruence.
Qed.

Lemma forEach_with_label_short f radios : forall labels,
  (List.length labels < List.length radios)%nat ->
  forEach_with_label f radios labels = None.
Proof.
  induction radios as [|r rs IH]; intros [|l ls] Hlen; simpl in *;
    trivial; try lia.
  rewrite IH by lia; reflexivity.
Qed.

Lemma updatePeriodButtons_idle rawData fundType mgr page :
  match fundType with
  | None => True
  | Some ft => ft = ""%string \/ fundData rawData ft = []
  end ->
  updatePeriodButtons rawData fundType mgr page = Some page.
Proof.
  unfold updatePeriodButtons.
  destruct fundType as [[|a ft]|]; trivial.
  intros [H | H]; [discriminate |].
  rewrite H; destruct rawData; reflexivity.
Qed.

Lemma updatePeriodButtons_short rawData mgr ft page :
  ft <> ""%string -> fundData rawData ft <> [] ->
  (List.length (periodLabels page) < List.length (periodRadios page))%nat ->
  updatePeriodButtons rawData (Some ft) mgr page = None.
Proof.
  intros Hft Hdata Hlen; unfold updatePeriodButtons.
  destruct ft as [|a ft']; [congruence |].
  destruct rawData as [|r0 rest] eqn:Eraw; [exfalso; apply Hdata; reflexivity |].
  rewrite <- Eraw in *.
  destruct (fundData rawData (String a ft')); [congruence |].
  rewrite forEach_with_label_short by trivial; reflexivity.
Qed.

(** [updatePeriodButtons] settles at once: run again on the page it
    left, with the same data and selection, it changes nothing. *)
Theorem updatePeriodButtons_settles
    (rawData : list Observation) (fundType mgr : option string)
    (page page' : Page) :
  updatePeriodButtons rawData fundType mgr page = Some page' ->
  updatePeriodButtons rawData fundType mgr page' = Some page'.
Proof.
  intros H.
  destruct fundType as [ft|];
    [| apply updatePeriodButtons_idle; trivial].
  destruct (string_dec ft "") as [Hft | Hft];
    [apply updatePeriodButtons_idle; auto |].
  destruct (fundData rawData ft) as [|f0 frest] eqn:Ef;
    [apply updatePeriodButtons_idle; auto |].
  assert (Hdata : fundData rawData ft <> []) by (rewrite Ef; discriminate).
  clear Ef.
  destruct (le_lt_dec (List.length (periodRadios page))
                      (List.length (periodLabels page))) as [Hlen | Hlen];
    [| rewrite updatePeriodButtons_short in H by trivial; discriminate].
  destruct (updatePeriodButtons_result rawData mgr ft page Hft Hdata Hlen)
    as [page'' [E [V [B [L [Hin [_ N]]]]]]].
  rewrite E in H; injection H as ->.
  rewrite (updatePeriodButtons_runs rawData mgr ft page' Hft Hdata N).
  cbv zeta.
  replace (existsb _ _) with true.
  - rewrite (able_fixes _ _ B), (able_fixes_labels _ _ _ N B L).
    destruct page'; reflexivity.
  - symmetry; apply existsb_exists.
    exists (getSelectedPeriod (periodRadios page')); split; trivial.
    apply String.eqb_refl.
Qed.


Lemma updatePeriodButtons_settles_witness :
  exists page',
    updatePeriodButtons two_year_data (Some "X"%string) (Some "A"%string)
      period_page = Some page'
    /\ getSelectedPeriod (periodRadios page') = "YTD"%string
    /\ map disabled (periodRadios page') = [false; false; true; false]
    /\ updatePeriodButtons two_year_data (Some "X"%string) (Some "A"%string)
         page' = Some page'.
Proof.
  eexists; split; [vm_compute; reflexivity |].
  split; [reflexivity | split; [reflexivity |]].
  apply (updatePeriodButtons_settles two_year_data (Some "X"%string)
           (Some "A"%string) period_page).
  vm_compute; reflexivity.
Defined.
